(** * AI Code Reviewer: a shallow embedding of the review pipeline

    The development follows the Python sources module by module:

    - [PyStr]           the [str] methods the code uses;
    - [Exc]             exceptions as an error monad, [try]/[except] as a handler;
    - [Rounding]        [round(x, 2)], [max] and [sum] on scores;
    - [Re]              the fragment of [re] the code uses: a backtracking
                        matcher, [re.search], [re.sub] and [re.findall];
    - [ReviewModel]     app/models/review_model.py (the Pydantic models);
    - [Env]             the decoded JSON, the settings and the oracles;
    - [StaticAnalyzer]  app/utils/static_analyzer.py;
    - [AIEngine]        app/core/ai_engine.py;
    - [CodeUtils]       app/utils/code_utils.py;
    - [ReviewPresenter] app/presenters/review_presenter.py;
    - [Config]          app/core/config.py;
    - [ReviewRouter]    app/routers/review_router.py;
    - [Spec]            the words of the specification and example worlds;
    - [Terms]           the vocabulary of the further properties.

    The facts and the claims come after the definitions, topic by topic:
    static tools, aggregation, recommendations, provider chain, text
    recovery, batches, sanitization.  The further properties of the code
    follow: sanitization, aggregation, the history and the dashboard,
    groups of issues, file names, the parts of a response, the endpoints,
    the conversion of AI answers, ratings, text reports, metrics, and what
    leaves the presenter.

    Conventions of the embedding.
    - A Python [str] is a list of 8-bit characters; [lower], [strip], [\s],
      [\w], [\b] and [re.IGNORECASE] act on the ASCII range, code points
      above it are plain characters.
    - A Python [float] score is an exact rational ([Q]); [round(x, 2)]
      rounds to the nearest hundredth, ties to even.
    - The outside world (provider calls, tool processes, [json.loads]) is a
      record of oracles [World]; every function that reaches it takes the
      world as an argument.
    - Identifiers, timestamps and processing times (uuid and the clock) are
      metadata and are left out of the response records; the dashboard,
      which sorts by timestamp, takes every entry with its timestamp. *)

From Stdlib Require Import String Ascii Bool Arith ZArith QArith Qround Lia Lqa List.
From Stdlib Require Import DecimalString Sorted Permutation.
From Stdlib Require DecimalNat DecimalFacts.
Import ListNotations.

Set Implicit Arguments.

(** A Python string. *)
Definition str : Type := list ascii.

(** String literals. *)
Definition lit (s : string) : str := list_ascii_of_string s.

(** The truth value of a list or a string: it is not empty. *)
Definition nonempty {A : Type} (l : list A) : bool :=
  match l with [] => false | _ :: _ => true end.

(* ===================================================================== *)
(** * Python string methods *)
(* ===================================================================== *)
Module PyStr.

Definition code_of (c : ascii) : nat := nat_of_ascii c.

Definition chr_eqb (a b : ascii) : bool := Ascii.eqb a b.

(** [str.isspace] on the ASCII range: TAB..CR, FS..US and the space. *)
Definition isspace (c : ascii) : bool :=
  let n := code_of c in
  ((9 <=? n) && (n <=? 13)) || ((28 <=? n) && (n <=? 32)).

Definition isupper (c : ascii) : bool :=
  let n := code_of c in (65 <=? n) && (n <=? 90).

Definition isdigit (c : ascii) : bool :=
  let n := code_of c in (48 <=? n) && (n <=? 57).

Definition lower_char (c : ascii) : ascii :=
  if isupper c then ascii_of_nat (code_of c + 32) else c.

(** [s.lower()] *)
Definition lower (s : str) : str := map lower_char s.

Fixpoint str_eqb (a b : str) : bool :=
  match a, b with
  | [], [] => true
  | x :: a', y :: b' => chr_eqb x y && str_eqb a' b'
  | _, _ => false
  end.

(** [s.startswith(p)] *)
Fixpoint startswith (p s : str) : bool :=
  match p, s with
  | [], _ => true
  | x :: p', y :: s' => chr_eqb x y && startswith p' s'
  | _ :: _, [] => false
  end.

(** [p in s] *)
Fixpoint contains (p s : str) : bool :=
  startswith p s ||
  match s with
  | [] => false
  | _ :: s' => contains p s'
  end.

(** [s.lstrip()], [s.rstrip()], [s.strip()] *)
Fixpoint lstrip (s : str) : str :=
  match s with
  | c :: s' => if isspace c then lstrip s' else s
  | [] => []
  end.

Definition rstrip (s : str) : str := List.rev (lstrip (List.rev s)).

Definition strip (s : str) : str := rstrip (lstrip s).

(** [s.split(sep)] for a one-character separator: the current field is
    accumulated in [cur] until the separator or the end of the string. *)
Fixpoint split_acc (sep : ascii) (cur : str) (s : str) : list str :=
  match s with
  | [] => [cur]
  | c :: s' =>
      if chr_eqb c sep then cur :: split_acc sep [] s'
      else split_acc sep (cur ++ [c]) s'
  end.

Definition split (sep : ascii) (s : str) : list str := split_acc sep [] s.

(** [s.split(sep, maxsplit)]: at most [maxsplit] cuts, the rest is the last field. *)
Fixpoint splitn_acc (sep : ascii) (maxsplit : nat) (cur : str) (s : str) : list str :=
  match maxsplit with
  | O => [cur ++ s]
  | S m =>
      match s with
      | [] => [cur]
      | c :: s' =>
          if chr_eqb c sep then cur :: splitn_acc sep m [] s'
          else splitn_acc sep maxsplit (cur ++ [c]) s'
      end
  end.

Definition splitn (sep : ascii) (maxsplit : nat) (s : str) : list str :=
  splitn_acc sep maxsplit [] s.

(** [s.count(p)] for a non-empty [p]: occurrences that do not overlap,
    counted from the left.  [skip] is the number of characters of the last
    occurrence still to be passed. *)
Fixpoint count_acc (p : str) (skip : nat) (s : str) : nat :=
  match s with
  | [] => 0
  | _ :: s' =>
      match skip with
      | S k => count_acc p k s'
      | O => if startswith p s then S (count_acc p (length p - 1) s')
             else count_acc p 0 s'
      end
  end.

Definition count (p s : str) : nat := count_acc p 0 s.

(** The text after the first occurrence of [p], if there is one:
    [s.split(p)[1]] up to the next occurrence is a prefix of it. *)
Fixpoint after_first (p s : str) : option str :=
  if startswith p s then Some (skipn (length p) s)
  else match s with
       | [] => None
       | _ :: s' => after_first p s'
       end.

Fixpoint before_first (p s : str) : str :=
  if startswith p s then []
  else match s with
       | [] => []
       | c :: s' => c :: before_first p s'
       end.

(** [str(n)] for a natural number. *)
Definition str_of_nat (n : nat) : str :=
  lit (NilEmpty.string_of_uint (Nat.to_uint n)).

Definition digit_val (c : ascii) : Z := Z.of_nat (code_of c - 48).

(** [int(s)] on ASCII text: surrounding whitespace is dropped, one sign is
    allowed, then decimal digits, single underscores between digits.
    [None] stands for [ValueError]. *)
Fixpoint int_digits (acc : Z) (after_digit : bool) (s : str) : option Z :=
  match s with
  | [] => if after_digit then Some acc else None
  | c :: s' =>
      if isdigit c then int_digits (acc * 10 + digit_val c) true s'
      else if chr_eqb c "_"%char && after_digit then
             match s' with
             | d :: _ => if isdigit d then int_digits acc false s' else None
             | [] => None
             end
           else None
  end.

Definition py_int (s : str) : option Z :=
  match strip s with
  | [] => None
  | c :: s' =>
      if chr_eqb c "-"%char then option_map Z.opp (int_digits 0 false s')
      else if chr_eqb c "+"%char then int_digits 0 false s'
      else int_digits 0 false (c :: s')
  end.

End PyStr.

(* ===================================================================== *)
(** * Exceptions *)
(* ===================================================================== *)
Module Exc.

(** The exception classes the code raises or catches; every one of them is
    a subclass of [Exception]. *)
Inductive exn : Type :=
| TimeoutExpired                 (* subprocess.TimeoutExpired *)
| JSONDecodeError                (* json.JSONDecodeError *)
| ValueError (msg : str)
| ValidationError (msg : str)    (* pydantic, a ValueError *)
| KeyError (key : str)
| OtherException (msg : str).    (* network, OS and provider errors *)

(** [str(e)] *)
Definition exn_str (e : exn) : str :=
  match e with
  | TimeoutExpired => lit "timed out"
  | JSONDecodeError => lit "Expecting value"
  | ValueError m | ValidationError m | KeyError m | OtherException m => m
  end.

Inductive result (A : Type) : Type :=
| Return (a : A)
| Raise (e : exn).

Arguments Return {A} a.
Arguments Raise {A} e.

Definition bind {A B : Type} (m : result A) (k : A -> result B) : result B :=
  match m with
  | Return a => k a
  | Raise e => Raise e
  end.

(** [try: body  except Exception as e: handler(e)] *)
Definition try_except {A : Type} (body : result A) (handler : exn -> result A)
  : result A :=
  match body with
  | Return a => Return a
  | Raise e => handler e
  end.

(** [for x in xs: ...] with a body that may raise. *)
Fixpoint mapM {A B : Type} (f : A -> result B) (xs : list A) : result (list B) :=
  match xs with
  | [] => Return []
  | x :: xs' =>
      bind (f x) (fun y => bind (mapM f xs') (fun ys => Return (y :: ys)))
  end.

Definition returns {A : Type} (m : result A) : bool :=
  match m with Return _ => true | Raise _ => false end.

End Exc.

Notation "x <- m ;; k" := (Exc.bind m (fun x => k))
  (at level 61, m at next level, right associativity).

(* ===================================================================== *)
(** * Scores *)
(* ===================================================================== *)
Module Rounding.

Local Open Scope Q_scope.

(** Round to the nearest integer, ties to even. *)
Definition round_half_even (x : Q) : Z :=
  let f := Qfloor x in
  match Qcompare (x - inject_Z f) (1 # 2) with
  | Lt => f
  | Gt => (f + 1)%Z
  | Eq => if Z.even f then f else (f + 1)%Z
  end.

(** [round(x, 2)] *)
Definition round2 (x : Q) : Q := Qred (inject_Z (round_half_even (x * 100)) / 100).

(** [max(a, b)] *)
Definition Qmax (a b : Q) : Q := if Qle_bool a b then b else a.

(** [sum(xs)] *)
Definition Qsum (xs : list Q) : Q := fold_left Qplus xs 0.

Definition Qleb (a b : Q) : bool := Qle_bool a b.

Definition Qeqb (a b : Q) : bool := Qeq_bool a b.

(** The declared range of a score, [Field(ge=0.0, le=10.0)]. *)
Definition in_range (x : Q) : bool := Qleb 0 x && Qleb x 10.

End Rounding.

(* ===================================================================== *)
(** * The fragment of [re] the code uses *)
(* ===================================================================== *)
Module Re.

Import PyStr.

(** A pattern is a sequence of character classes, each under a greedy
    quantifier: [x], [x?], [x*] or [x+]. *)
Inductive quant : Type := One | Opt | Star | Plus.

Record atom : Type := Atom { cls : ascii -> bool; qt : quant }.

Definition regex : Type := list atom.

(** Character classes. *)
Definition chr (c : ascii) : ascii -> bool := fun x => chr_eqb x c.
(** a literal under [re.IGNORECASE] *)
Definition ichr (c : ascii) : ascii -> bool :=
  fun x => chr_eqb (lower_char x) (lower_char c).
Definition oneof (cs : str) : ascii -> bool := fun x => existsb (chr_eqb x) cs.
Definition noneof (cs : str) : ascii -> bool := fun x => negb (oneof cs x).
(** [\s] *)
Definition space : ascii -> bool := isspace.
(** [.] under [re.DOTALL] *)
Definition any : ascii -> bool := fun _ => true.

Definition one (f : ascii -> bool) : atom := Atom f One.
Definition opt (f : ascii -> bool) : atom := Atom f Opt.
Definition star (f : ascii -> bool) : atom := Atom f Star.
Definition plus (f : ascii -> bool) : atom := Atom f Plus.

(** a literal word under [re.IGNORECASE] *)
Definition iword (w : string) : regex := map (fun c => one (ichr c)) (lit w).

(** The backtracking matcher.  [greedy f k s] consumes as many characters
    of class [f] as it can and gives back one at a time while the
    continuation [k] fails. *)
Fixpoint greedy (f : ascii -> bool) (k : str -> option str) (s : str) : option str :=
  match s with
  | c :: s' =>
      if f c then
        match greedy f k s' with
        | Some r => Some r
        | None => k s
        end
      else k s
  | [] => k s
  end.

(** [match_here p s]: the text left after the match of [p] at the start of
    [s], the one Python's matcher finds first. *)
Fixpoint match_here (p : regex) (s : str) {struct p} : option str :=
  match p with
  | [] => Some s
  | a :: p' =>
      match qt a with
      | One =>
          match s with
          | c :: s' => if cls a c then match_here p' s' else None
          | [] => None
          end
      | Opt =>
          match s with
          | c :: s' =>
              if cls a c then
                match match_here p' s' with
                | Some r => Some r
                | None => match_here p' s
                end
              else match_here p' s
          | [] => match_here p' s
          end
      | Star => greedy (cls a) (match_here p') s
      | Plus =>
          match s with
          | c :: s' => if cls a c then greedy (cls a) (match_here p') s' else None
          | [] => None
          end
      end
  end.

(** The matched text, given the text left after it. *)
Definition matched (s rest : str) : str := firstn (length s - length rest) s.

(** [re.search(p, s)]: the leftmost match, as [group(0)]. *)
Fixpoint search (p : regex) (s : str) : option str :=
  match match_here p s with
  | Some r => Some (matched s r)
  | None =>
      match s with
      | [] => None
      | _ :: s' => search p s'
      end
  end.

(** Does [p] match somewhere in [s]? *)
Definition found (p : regex) (s : str) : bool :=
  match search p s with Some _ => true | None => false end.

(** [re.sub(p, repl, s)]: the matches are replaced from left to right and
    do not overlap; an empty match is replaced too and the scan moves one
    character on.  Every step consumes a character, so [length s + 1]
    steps are enough. *)
Fixpoint sub_steps (steps : nat) (p : regex) (repl s : str) : str :=
  match steps with
  | O => s
  | S n =>
      match match_here p s with
      | Some r =>
          if length r <? length s then repl ++ sub_steps n p repl r
          else match s with
               | [] => repl
               | c :: s' => repl ++ c :: sub_steps n p repl s'
               end
      | None =>
          match s with
          | [] => []
          | c :: s' => c :: sub_steps n p repl s'
          end
      end
  end.

Definition sub (p : regex) (repl s : str) : str := sub_steps (S (length s)) p repl s.

(** The language of a pattern, without the matcher's priorities:
    [Matches p s r] when a prefix of [s] is in the language of [p] and [r]
    is the text after it. *)
Inductive Matches : regex -> str -> str -> Prop :=
| M_end (s : str) : Matches [] s s
| M_one (f : ascii -> bool) (p : regex) (c : ascii) (s r : str) :
    f c = true -> Matches p s r -> Matches (one f :: p) (c :: s) r
| M_opt_skip (f : ascii -> bool) (p : regex) (s r : str) :
    Matches p s r -> Matches (opt f :: p) s r
| M_opt_take (f : ascii -> bool) (p : regex) (c : ascii) (s r : str) :
    f c = true -> Matches p s r -> Matches (opt f :: p) (c :: s) r
| M_star_stop (f : ascii -> bool) (p : regex) (s r : str) :
    Matches p s r -> Matches (star f :: p) s r
| M_star_more (f : ascii -> bool) (p : regex) (c : ascii) (s r : str) :
    f c = true -> Matches (star f :: p) s r -> Matches (star f :: p) (c :: s) r
| M_plus (f : ascii -> bool) (p : regex) (c : ascii) (s r : str) :
    f c = true -> Matches (star f :: p) s r -> Matches (plus f :: p) (c :: s) r.

(** [t] is what is left of [s] at some position of the scan. *)
Definition tail_of (t s : str) : Prop := exists a, s = a ++ t.

(** No match of [p] starts anywhere in [s]. *)
Definition matchless (p : regex) (s : str) : Prop :=
  forall t, tail_of t s -> match_here p t = None.

(** [\w]: a letter, a digit or the underscore. *)
Definition wordchar : ascii -> bool :=
  fun c =>
    let n := code_of c in
    isdigit c || isupper c || ((97 <=? n) && (n <=? 122)) || chr_eqb c "_"%char.

(** [re.findall(p, s)] for a pattern without groups: the matched texts
    from left to right; they do not overlap, and after an empty match the
    scan moves one character on. *)
Fixpoint findall_steps (steps : nat) (p : regex) (s : str) : list str :=
  match steps with
  | O => []
  | S n =>
      match match_here p s with
      | Some r =>
          if length r <? length s then matched s r :: findall_steps n p r
          else match s with
               | [] => [[]]
               | _ :: s' => [] :: findall_steps n p s'
               end
      | None =>
          match s with
          | [] => []
          | _ :: s' => findall_steps n p s'
          end
      end
  end.

Definition findall (p : regex) (s : str) : list str := findall_steps (S (length s)) p s.

End Re.

(* ===================================================================== *)
(** * app/models/review_model.py *)
(* ===================================================================== *)
Module ReviewModel.

Import PyStr Exc Rounding.

Inductive SeverityLevel : Type := LOW | MEDIUM | HIGH | CRITICAL.

Inductive IssueType : Type :=
| SYNTAX_ERROR | STYLE_VIOLATION | LOGIC_ERROR | SECURITY_VULNERABILITY
| PERFORMANCE_ISSUE | MAINTAINABILITY_ISSUE | DOCUMENTATION_ISSUE.

Inductive ProgrammingLanguage : Type :=
| PYTHON | JAVASCRIPT | TYPESCRIPT | JAVA | CPP | C | GO | RUST | PHP | RUBY.

(** [.value] of the enumerations *)
Definition severity_value (s : SeverityLevel) : str :=
  match s with
  | LOW => lit "low" | MEDIUM => lit "medium"
  | HIGH => lit "high" | CRITICAL => lit "critical"
  end.

Definition issue_type_value (t : IssueType) : str :=
  match t with
  | SYNTAX_ERROR => lit "syntax_error"
  | STYLE_VIOLATION => lit "style_violation"
  | LOGIC_ERROR => lit "logic_error"
  | SECURITY_VULNERABILITY => lit "security_vulnerability"
  | PERFORMANCE_ISSUE => lit "performance_issue"
  | MAINTAINABILITY_ISSUE => lit "maintainability_issue"
  | DOCUMENTATION_ISSUE => lit "documentation_issue"
  end.

Definition language_value (l : ProgrammingLanguage) : str :=
  match l with
  | PYTHON => lit "python" | JAVASCRIPT => lit "javascript"
  | TYPESCRIPT => lit "typescript" | JAVA => lit "java" | CPP => lit "cpp"
  | C => lit "c" | GO => lit "go" | RUST => lit "rust" | PHP => lit "php"
  | RUBY => lit "ruby"
  end.

(** Pydantic's validation of an enumeration field given as a string: the
    first member with that value. *)
Definition enum_of_value {A : Type} (members : list A) (value : A -> str) (s : str)
  : result A :=
  match find (fun m => str_eqb (value m) s) members with
  | Some m => Return m
  | None => Raise (ValidationError (lit "Input should be a member of the enumeration"))
  end.

Definition all_severities : list SeverityLevel := [LOW; MEDIUM; HIGH; CRITICAL].

Definition all_issue_types : list IssueType :=
  [SYNTAX_ERROR; STYLE_VIOLATION; LOGIC_ERROR; SECURITY_VULNERABILITY;
   PERFORMANCE_ISSUE; MAINTAINABILITY_ISSUE; DOCUMENTATION_ISSUE].

Definition all_languages : list ProgrammingLanguage :=
  [PYTHON; JAVASCRIPT; TYPESCRIPT; JAVA; CPP; C; GO; RUST; PHP; RUBY].

Definition severity_of_str : str -> result SeverityLevel :=
  enum_of_value all_severities severity_value.
Definition issue_type_of_str : str -> result IssueType :=
  enum_of_value all_issue_types issue_type_value.
Definition language_of_str : str -> result ProgrammingLanguage :=
  enum_of_value all_languages language_value.

Definition severity_eqb (a b : SeverityLevel) : bool :=
  str_eqb (severity_value a) (severity_value b).
Definition issue_type_eqb (a b : IssueType) : bool :=
  str_eqb (issue_type_value a) (issue_type_value b).
Definition language_eqb (a b : ProgrammingLanguage) : bool :=
  str_eqb (language_value a) (language_value b).

Record CodeIssue : Type := {
  issue_type : IssueType;
  issue_severity : SeverityLevel;
  issue_line : option Z;
  issue_column : option Z;
  issue_message : str;
  issue_suggestion : option str;
  issue_rule_id : option str;
  issue_tool : option str
}.

Record CodeSuggestion : Type := {
  sugg_type : str;
  sugg_description : str;
  sugg_refactored_code : option str;
  sugg_reason : str;
  sugg_confidence : Q              (* Field(ge=0.0, le=1.0, default=0.8) *)
}.

Record SecurityConcern : Type := {
  concern_type : str;
  concern_severity : SeverityLevel;
  concern_description : str;
  concern_mitigation : str;
  concern_cwe_id : option str
}.

Record PerformanceNote : Type := {
  note_area : str;
  note_issue : str;
  note_suggestion : str;
  note_impact_level : str
}.

Record StaticAnalysisResult : Type := {
  sa_tool : str;
  sa_issues : list CodeIssue;
  sa_score : Q;                    (* Field(ge=0.0, le=10.0) *)
  sa_summary : str
}.

Record AIAnalysisResult : Type := {
  ai_score : Q;                    (* Field(ge=0.0, le=10.0) *)
  ai_issues : list CodeIssue;
  ai_suggestions : list CodeSuggestion;
  ai_security_concerns : list SecurityConcern;
  ai_performance_notes : list PerformanceNote;
  ai_readability_score : Q;        (* Field(ge=0.0, le=10.0) *)
  ai_maintainability_score : Q;    (* Field(ge=0.0, le=10.0) *)
  ai_summary : str;
  ai_raw_response : option str
}.

Record CodeReviewRequest : Type := {
  req_code : str;                  (* Field(..., min_length=1) *)
  req_language : ProgrammingLanguage;
  req_context : option str;
  req_file_name : option str;
  req_include_static_analysis : bool;
  req_include_ai_analysis : bool;
  req_focus_areas : option (list str)
}.

Record CodeReviewResponse : Type := {
  resp_language : ProgrammingLanguage;
  resp_file_name : option str;
  resp_static_analysis : option StaticAnalysisResult;
  resp_ai_analysis : option AIAnalysisResult;
  resp_overall_score : Q;          (* Field(ge=0.0, le=10.0) *)
  resp_total_issues : nat;
  resp_critical_issues : nat;
  resp_security_issues : nat;
  resp_summary : str;
  resp_recommendations : list str;
  resp_tools_used : list str
}.

(** One entry of [BatchReviewRequest.files], a dictionary. *)
Record FileData : Type := {
  fd_code : option str;
  fd_language : option str;
  fd_file_name : option str;
  fd_context : option str
}.

Record BatchReviewRequest : Type := {
  batch_files : list FileData;
  batch_include_static_analysis : bool;
  batch_include_ai_analysis : bool;
  batch_focus_areas : option (list str)
}.

Record BatchReviewResponse : Type := {
  bresp_total_files : nat;
  bresp_successful_reviews : nat;
  bresp_failed_reviews : nat;
  bresp_reviews : list CodeReviewResponse;
  bresp_overall_summary : str
}.

Record ReviewHistory : Type := {
  hist_file_name : option str;
  hist_language : ProgrammingLanguage;
  hist_overall_score : Q;
  hist_total_issues : nat;
  hist_summary : str
}.

(** Model construction runs the field constraints and raises
    [ValidationError] when one fails. *)
Definition check (ok : bool) (msg : string) : result unit :=
  if ok then Return tt else Raise (ValidationError (lit msg)).

Definition new_StaticAnalysisResult (tool : str) (issues : list CodeIssue)
  (score : Q) (summary : str) : result StaticAnalysisResult :=
  _ <- check (in_range score) "score: out of range" ;;
  Return {| sa_tool := tool; sa_issues := issues; sa_score := score;
            sa_summary := summary |}.

Definition new_CodeSuggestion (type description : str) (refactored_code : option str)
  (reason : str) (confidence : Q) : result CodeSuggestion :=
  _ <- check (Qleb 0 confidence && Qleb confidence 1) "confidence: out of range" ;;
  Return {| sugg_type := type; sugg_description := description;
            sugg_refactored_code := refactored_code; sugg_reason := reason;
            sugg_confidence := confidence |}.

Definition new_AIAnalysisResult (score : Q) (issues : list CodeIssue)
  (suggestions : list CodeSuggestion) (security_concerns : list SecurityConcern)
  (performance_notes : list PerformanceNote) (readability_score maintainability_score : Q)
  (summary : str) (raw_response : option str) : result AIAnalysisResult :=
  _ <- check (in_range score) "score: out of range" ;;
  _ <- check (in_range readability_score) "readability_score: out of range" ;;
  _ <- check (in_range maintainability_score) "maintainability_score: out of range" ;;
  Return {| ai_score := score; ai_issues := issues; ai_suggestions := suggestions;
            ai_security_concerns := security_concerns;
            ai_performance_notes := performance_notes;
            ai_readability_score := readability_score;
            ai_maintainability_score := maintainability_score;
            ai_summary := summary; ai_raw_response := raw_response |}.

Definition new_CodeReviewRequest (code : str) (language : ProgrammingLanguage)
  (file_name context : option str) (include_static_analysis include_ai_analysis : bool)
  (focus_areas : option (list str)) : result CodeReviewRequest :=
  _ <- check (1 <=? length code) "code: String should have at least 1 character" ;;
  Return {| req_code := code; req_language := language; req_context := context;
            req_file_name := file_name;
            req_include_static_analysis := include_static_analysis;
            req_include_ai_analysis := include_ai_analysis;
            req_focus_areas := focus_areas |}.

Definition new_CodeReviewResponse (language : ProgrammingLanguage) (file_name : option str)
  (static_analysis : option StaticAnalysisResult) (ai_analysis : option AIAnalysisResult)
  (overall_score : Q) (total_issues critical_issues security_issues : nat)
  (summary : str) (recommendations tools_used : list str) : result CodeReviewResponse :=
  _ <- check (in_range overall_score) "overall_score: out of range" ;;
  Return {| resp_language := language; resp_file_name := file_name;
            resp_static_analysis := static_analysis; resp_ai_analysis := ai_analysis;
            resp_overall_score := overall_score; resp_total_issues := total_issues;
            resp_critical_issues := critical_issues;
            resp_security_issues := security_issues; resp_summary := summary;
            resp_recommendations := recommendations; resp_tools_used := tools_used |}.

(** An entry of the history together with its [timestamp], the reading
    of the clock when the review was answered. *)
Definition Timed : Type := (Z * ReviewHistory)%type.

Definition timestamp (entry : Timed) : Z := fst entry.

(** The dictionaries of [DashboardMetrics] keep their keys in the order of
    insertion. *)
Record DashboardMetrics : Type := {
  dash_total_reviews : nat;
  dash_average_score : Q;
  dash_most_common_issues : list (str * nat);
  dash_language_distribution : list (str * nat);
  dash_security_issues_count : nat;
  dash_performance_issues_count : nat;
  dash_recent_reviews : list Timed
}.

End ReviewModel.

(* ===================================================================== *)
(** * The outside world *)
(* ===================================================================== *)
Module Env.

Import Exc.

(** ** Decoded JSON

    [json.loads] is a library function; its results are given by typed
    views, one per schema the code reads.  A key that is absent is [None]
    (the code reads every key with [.get]). *)

(** The outcome of [json.loads] followed by the code's traversal. *)
Inductive decoded (A : Type) : Type :=
| NotJSON                  (* json.loads raises JSONDecodeError *)
| Unexpected (e : exn)     (* valid JSON of another shape: the traversal raises [e] *)
| Decoded (a : A).

Arguments NotJSON {A}.
Arguments Unexpected {A} e.
Arguments Decoded {A} a.

(** An entry of Pylint's JSON report. *)
Record PylintItem : Type := {
  pl_type : option str;
  pl_line : option Z;
  pl_column : option Z;
  pl_message : option str;
  pl_message_id : option str
}.

(** ESLint's JSON report: a list of files, each with its messages. *)
Record EslintMessage : Type := {
  es_severity : option Z;
  es_line : option Z;
  es_column : option Z;
  es_message : option str;
  es_ruleId : option str
}.

Record EslintFile : Type := { ef_messages : option (list EslintMessage) }.

(** Bandit's JSON report. *)
Record BanditItem : Type := {
  bi_issue_severity : option str;
  bi_line_number : option Z;
  bi_issue_text : option str;
  bi_test_id : option str
}.

Record BanditData : Type := { bd_results : option (list BanditItem) }.

(** The dictionary an AI analysis is exchanged as. *)
Record IssueData : Type := {
  id_type : option str;
  id_severity : option str;
  id_line : option Z;
  id_message : option str;
  id_suggestion : option str
}.

Record SuggestionData : Type := {
  sd_type : option str;
  sd_description : option str;
  sd_code : option str;
  sd_refactored_code : option str;
  sd_reason : option str;
  sd_confidence : option Q
}.

Record ConcernData : Type := {
  cd_type : option str;
  cd_severity : option str;
  cd_description : option str;
  cd_mitigation : option str;
  cd_cwe_id : option str
}.

Record NoteData : Type := {
  nd_area : option str;
  nd_issue : option str;
  nd_suggestion : option str;
  nd_impact_level : option str
}.

Record AIData : Type := {
  ad_score : option Q;
  ad_issues : option (list IssueData);
  ad_suggestions : option (list SuggestionData);
  ad_security_concerns : option (list ConcernData);
  ad_performance_notes : option (list NoteData);
  ad_readability_score : option Q;
  ad_maintainability_score : option Q;
  ad_summary : option str;
  ad_raw_response : option str
}.

(** What [json.loads] gives for a provider's response: a dictionary, or
    any other JSON value (a list, a number, ...). *)
Inductive ai_json : Type :=
| JDict (d : AIData)
| JOther.

(** ** Settings (app/core/config.py) *)
Record Settings : Type := {
  OPENAI_API_KEY : option str;
  COHERE_API_KEY : option str;
  ANTHROPIC_API_KEY : option str;
  PYLINT_ENABLED : bool;
  ESLINT_ENABLED : bool;
  BANDIT_ENABLED : bool;
  MAX_FILE_SIZE_MB : nat
}.

Inductive Tool : Type := Pylint | Eslint | Bandit.

Inductive Provider : Type := OpenAI | Cohere | Anthropic.

(** ** The oracles *)
Record World : Type := {
  settings : Settings;
  (** [NamedTemporaryFile] and the write of the code into it *)
  temp_file : str -> result unit;
  (** [subprocess.run(cmd, timeout=30)] on the file holding the given
      code: stdout, [TimeoutExpired] or another exception *)
  subprocess_run : Tool -> str -> result str;
  loads_pylint : str -> decoded (list PylintItem);
  loads_eslint : str -> decoded (list EslintFile);
  loads_bandit : str -> decoded BanditData;
  (** one request to a provider for (code, language, context): the text of
      the response, or the exception the client raises *)
  provider_call : Provider -> str -> str -> option str -> result str;
  (** [json.loads] on a provider's text; [None] is [JSONDecodeError] *)
  loads_ai : str -> option ai_json
}.

(** Truth value of an optional string ([if settings.OPENAI_API_KEY:]). *)
Definition truthy (s : option str) : bool :=
  match s with
  | Some (_ :: _) => true
  | _ => false
  end.

End Env.

(* ===================================================================== *)
(** * app/utils/static_analyzer.py *)
(* ===================================================================== *)
Module StaticAnalyzer.

Import PyStr Exc Rounding ReviewModel Env.
Local Open Scope Q_scope.

(** [d.get(key, default)] *)
Definition get_or {A : Type} (v : option A) (default : A) : A :=
  match v with Some a => a | None => default end.

Definition same (s : str) (w : string) : bool := str_eqb s (lit w).

Definition _map_pylint_type (pylint_type : str) : IssueType :=
  if same pylint_type "error" then SYNTAX_ERROR
  else if same pylint_type "fatal" then SYNTAX_ERROR
  else if same pylint_type "warning" then STYLE_VIOLATION
  else if same pylint_type "refactor" then MAINTAINABILITY_ISSUE
  else if same pylint_type "convention" then STYLE_VIOLATION
  else STYLE_VIOLATION.

Definition _map_pylint_severity (pylint_type : str) : SeverityLevel :=
  if same pylint_type "error" then HIGH
  else if same pylint_type "fatal" then CRITICAL
  else if same pylint_type "warning" then MEDIUM
  else if same pylint_type "refactor" then LOW
  else if same pylint_type "convention" then LOW
  else MEDIUM.

Definition _map_eslint_type (severity : Z) : IssueType :=
  if (severity =? 2)%Z then SYNTAX_ERROR else STYLE_VIOLATION.

Definition _map_eslint_severity (severity : Z) : SeverityLevel :=
  if (severity =? 2)%Z then HIGH else MEDIUM.

Definition _map_bandit_severity (severity : str) : SeverityLevel :=
  if same severity "HIGH" then CRITICAL
  else if same severity "MEDIUM" then HIGH
  else if same severity "LOW" then MEDIUM
  else MEDIUM.

(** ** Text output, when the tool did not print JSON *)

Definition _parse_pylint_text_output (output : str) : list CodeIssue :=
  flat_map
    (fun line =>
       if contains (lit ":") line
          && existsb (fun keyword => contains (lit keyword) (lower line))
               ["error"; "warning"; "refactor"]%string
       then
         match splitn ":"%char 3 line with
         | [_; p1; p2; p3] =>
             match py_int p1 with
             | Some line_num =>
                 let issue_type := strip p2 in
                 let message := strip p3 in
                 [{| issue_type := _map_pylint_type issue_type;
                     issue_severity := _map_pylint_severity issue_type;
                     issue_line := Some line_num; issue_column := None;
                     issue_message := message; issue_suggestion := Some message;
                     issue_rule_id := None; issue_tool := Some (lit "pylint") |}]
             | None => []
             end
         | _ => []
         end
       else [])
    (split "010"%char output).

Definition _parse_eslint_text_output (output : str) : list CodeIssue :=
  flat_map
    (fun line =>
       if contains (lit ":") line
          && (contains (lit "error") (lower line) || contains (lit "warning") (lower line))
       then
         match splitn ":"%char 3 line with
         | [_; p1; _; p3] =>
             match py_int p1 with
             | Some line_num =>
                 let message := strip p3 in
                 [{| issue_type := STYLE_VIOLATION; issue_severity := MEDIUM;
                     issue_line := Some line_num; issue_column := None;
                     issue_message := message; issue_suggestion := Some message;
                     issue_rule_id := None; issue_tool := Some (lit "eslint") |}]
             | None => []
             end
         | _ => []
         end
       else [])
    (split "010"%char output).

Definition _parse_bandit_text_output (output : str) : list CodeIssue :=
  flat_map
    (fun line =>
       match after_first (lit ">> Issue:") line with
       | Some rest =>
           let issue_text := strip (before_first (lit ">> Issue:") rest) in
           [{| issue_type := SECURITY_VULNERABILITY; issue_severity := MEDIUM;
               issue_line := None; issue_column := None;
               issue_message := issue_text; issue_suggestion := Some issue_text;
               issue_rule_id := None; issue_tool := Some (lit "bandit") |}]
       | None => []
       end)
    (split "010"%char output).

(** ** The scoring loops

    Each loop carries the pair [(issues, score)] through the report. *)
Definition loop_state : Type := (list CodeIssue * Q)%type.

Definition start : loop_state := ([], 10).

Definition pylint_issue (item : PylintItem) : CodeIssue :=
  {| issue_type := _map_pylint_type (get_or (pl_type item) []);
     issue_severity := _map_pylint_severity (get_or (pl_type item) []);
     issue_line := pl_line item; issue_column := pl_column item;
     issue_message := get_or (pl_message item) [];
     issue_suggestion := Some (get_or (pl_message item) []);
     issue_rule_id := Some (get_or (pl_message_id item) []);
     issue_tool := Some (lit "pylint") |}.

Definition pylint_deduction (item : PylintItem) : Q :=
  match pl_type item with
  | Some t =>
      if same t "error" || same t "fatal" then 2
      else if same t "warning" then 1
      else if same t "refactor" then 1 # 2
      else 0
  | None => 0
  end.

Definition pylint_step (st : loop_state) (item : PylintItem) : loop_state :=
  (fst st ++ [pylint_issue item], snd st - pylint_deduction item).

Definition eslint_issue (message : EslintMessage) : CodeIssue :=
  {| issue_type := _map_eslint_type (get_or (es_severity message) 1%Z);
     issue_severity := _map_eslint_severity (get_or (es_severity message) 1%Z);
     issue_line := es_line message; issue_column := es_column message;
     issue_message := get_or (es_message message) [];
     issue_suggestion := Some (get_or (es_message message) []);
     issue_rule_id := Some (get_or (es_ruleId message) []);
     issue_tool := Some (lit "eslint") |}.

Definition eslint_deduction (message : EslintMessage) : Q :=
  match es_severity message with
  | Some sev => if (sev =? 2)%Z then 2 else if (sev =? 1)%Z then 1 else 0
  | None => 0
  end.

Definition eslint_step (st : loop_state) (message : EslintMessage) : loop_state :=
  (fst st ++ [eslint_issue message], snd st - eslint_deduction message).

Definition eslint_file_step (st : loop_state) (file_data : EslintFile) : loop_state :=
  fold_left eslint_step (get_or (ef_messages file_data) []) st.

Definition bandit_issue (item : BanditItem) : CodeIssue :=
  {| issue_type := SECURITY_VULNERABILITY;
     issue_severity := _map_bandit_severity (get_or (bi_issue_severity item) (lit "MEDIUM"));
     issue_line := bi_line_number item; issue_column := None;
     issue_message := get_or (bi_issue_text item) [];
     issue_suggestion := Some (get_or (bi_issue_text item) []);
     issue_rule_id := Some (get_or (bi_test_id item) []);
     issue_tool := Some (lit "bandit") |}.

Definition bandit_deduction (item : BanditItem) : Q :=
  let severity := get_or (bi_issue_severity item) (lit "MEDIUM") in
  if same severity "HIGH" then 3
  else if same severity "MEDIUM" then 2
  else if same severity "LOW" then 1
  else 0.

Definition bandit_step (st : loop_state) (item : BanditItem) : loop_state :=
  (fst st ++ [bandit_issue item], snd st - bandit_deduction item).

(** ** The tool runners

    The temporary file is identified with the code written into it.  The
    body of each [try] runs in the error monad; the [except] clauses are
    the handler. *)
Definition found_summary (tool : string) (n : nat) (what : string) : str :=
  lit tool ++ lit " found " ++ str_of_nat n ++ lit what.

Definition _run_pylint_try (w : World) (file_path : str) : result StaticAnalysisResult :=
  stdout <- subprocess_run w Pylint file_path ;;
  st <- (if nonempty stdout then
           match loads_pylint w stdout with
           | Decoded pylint_data => Return (fold_left pylint_step pylint_data start)
           | NotJSON => Return (_parse_pylint_text_output stdout, snd start)
           | Unexpected e => Raise e
           end
         else Return start) ;;
  new_StaticAnalysisResult (lit "pylint") (fst st) (Qmax 0 (snd st))
    (found_summary "Pylint" (length (fst st)) " issues").

Definition _run_pylint (w : World) (file_path : str) : result StaticAnalysisResult :=
  try_except (_run_pylint_try w file_path)
    (fun e =>
       match e with
       | TimeoutExpired =>
           new_StaticAnalysisResult (lit "pylint") [] 5 (lit "Pylint analysis timed out")
       | _ =>
           new_StaticAnalysisResult (lit "pylint") [] 5
             (lit "Pylint analysis failed: " ++ exn_str e)
       end).

Definition _run_eslint_try (w : World) (file_path : str) : result StaticAnalysisResult :=
  stdout <- subprocess_run w Eslint file_path ;;
  st <- (if nonempty stdout then
           match loads_eslint w stdout with
           | Decoded eslint_data => Return (fold_left eslint_file_step eslint_data start)
           | NotJSON => Return (_parse_eslint_text_output stdout, snd start)
           | Unexpected e => Raise e
           end
         else Return start) ;;
  new_StaticAnalysisResult (lit "eslint") (fst st) (Qmax 0 (snd st))
    (found_summary "ESLint" (length (fst st)) " issues").

Definition _run_eslint (w : World) (file_path : str) : result StaticAnalysisResult :=
  try_except (_run_eslint_try w file_path)
    (fun e =>
       match e with
       | TimeoutExpired =>
           new_StaticAnalysisResult (lit "eslint") [] 5 (lit "ESLint analysis timed out")
       | _ =>
           new_StaticAnalysisResult (lit "eslint") [] 5
             (lit "ESLint analysis failed: " ++ exn_str e)
       end).

Definition _run_bandit_try (w : World) (file_path : str) : result StaticAnalysisResult :=
  stdout <- subprocess_run w Bandit file_path ;;
  st <- (if nonempty stdout then
           match loads_bandit w stdout with
           | Decoded bandit_data =>
               Return (fold_left bandit_step (get_or (bd_results bandit_data) []) start)
           | NotJSON => Return (_parse_bandit_text_output stdout, snd start)
           | Unexpected e => Raise e
           end
         else Return start) ;;
  new_StaticAnalysisResult (lit "bandit") (fst st) (Qmax 0 (snd st))
    (found_summary "Bandit" (length (fst st)) " security issues").

Definition _run_bandit (w : World) (file_path : str) : result StaticAnalysisResult :=
  try_except (_run_bandit_try w file_path)
    (fun e =>
       match e with
       | TimeoutExpired =>
           new_StaticAnalysisResult (lit "bandit") [] 5 (lit "Bandit analysis timed out")
       | _ =>
           new_StaticAnalysisResult (lit "bandit") [] 5
             (lit "Bandit analysis failed: " ++ exn_str e)
       end).

(** [results.append(run(...))] when the tool is enabled *)
Definition run_if (enabled : bool) (run : result StaticAnalysisResult)
  (results : list StaticAnalysisResult) : result (list StaticAnalysisResult) :=
  if enabled then r <- run ;; Return (results ++ [r]) else Return results.

(** [StaticAnalyzer.analyze_code]: the tools of the language, in order. *)
Definition analyze_code (w : World) (code : str) (language : ProgrammingLanguage)
  (file_name : option str) : result (list StaticAnalysisResult) :=
  _ <- temp_file w code ;;
  match language with
  | PYTHON =>
      results <- run_if (PYLINT_ENABLED (settings w)) (_run_pylint w code) [] ;;
      run_if (BANDIT_ENABLED (settings w)) (_run_bandit w code) results
  | JAVASCRIPT | TYPESCRIPT =>
      run_if (ESLINT_ENABLED (settings w)) (_run_eslint w code) []
  | _ => Return []
  end.

(** [_get_file_extension]: the suffix of the temporary file.  Every
    language is a key of the dictionary, so the default [.txt] is never
    returned. *)
Definition _get_file_extension (language : ProgrammingLanguage) : str :=
  match language with
  | PYTHON => lit ".py"
  | JAVASCRIPT => lit ".js"
  | TYPESCRIPT => lit ".ts"
  | JAVA => lit ".java"
  | CPP => lit ".cpp"
  | C => lit ".c"
  | GO => lit ".go"
  | RUST => lit ".rs"
  | PHP => lit ".php"
  | RUBY => lit ".rb"
  end.

End StaticAnalyzer.

(* ===================================================================== *)
(** * app/core/ai_engine.py *)
(* ===================================================================== *)
Module AIEngine.

Import PyStr Exc Rounding ReviewModel Env.
Local Open Scope Q_scope.

(** ** The fixed dictionaries of the two heuristic analyzers *)

Definition nl : str := ["010"%char].
Definition dq : str := ["034"%char].

(** the lines of a text, joined by newlines *)
Fixpoint text (ls : list str) : str :=
  match ls with
  | [] => []
  | [l] => l
  | l :: ls' => l ++ nl ++ text ls'
  end.

Definition iterative_code : str :=
  text [lit "def calculate_fibonacci(n):";
        lit "    if n <= 1:";
        lit "        return n";
        lit "    a, b = 0, 1";
        lit "    for _ in range(2, n + 1):";
        lit "        a, b = b, a + b";
        lit "    return b"].

Definition memoized_code : str :=
  text [lit "from functools import lru_cache";
        [];
        lit "@lru_cache(maxsize=None)";
        lit "def calculate_fibonacci(n):";
        lit "    if n <= 1:";
        lit "        return n";
        lit "    return calculate_fibonacci(n-1) + calculate_fibonacci(n-2)"].

Definition validated_main_code : str :=
  text [lit "def main():";
        lit "    try:";
        lit "        number = int(input(" ++ dq ++ lit "Enter a number: " ++ dq ++ lit "))";
        lit "        if number < 0:";
        lit "            print(" ++ dq ++ lit "Please enter a non-negative number" ++ dq ++ lit ")";
        lit "            return";
        lit "        if number > 1000:";
        lit "            print(" ++ dq
          ++ lit "Number too large, this may cause performance issues" ++ dq ++ lit ")";
        lit "            return";
        lit "        result = calculate_fibonacci(number)";
        lit "        print(f" ++ dq ++ lit "The {number}th Fibonacci number is {result}"
          ++ dq ++ lit ")";
        lit "    except ValueError:";
        lit "        print(" ++ dq ++ lit "Please enter a valid number" ++ dq ++ lit ")";
        lit "    except Exception as e:";
        lit "        print(f" ++ dq ++ lit "An error occurred: {e}" ++ dq ++ lit ")"].

Definition recursive_fibonacci_issue : IssueData :=
  {| id_type := Some (lit "performance_issue");
     id_severity := Some (lit "high");
     id_line := Some 3%Z;
     id_message := Some (lit "Recursive Fibonacci has exponential time complexity O(2^n)");
     id_suggestion :=
       Some (lit "Use iterative approach or memoization for better performance") |}.

Definition iterative_suggestion : SuggestionData :=
  {| sd_type := Some (lit "performance_optimization");
     sd_description := Some (lit "Replace recursive implementation with iterative approach");
     sd_code := Some iterative_code;
     sd_refactored_code := None;
     sd_reason :=
       Some (lit "Iterative approach has O(n) time complexity vs O(2^n) for recursive");
     sd_confidence := None |}.

Definition memoization_suggestion : SuggestionData :=
  {| sd_type := Some (lit "memoization");
     sd_description := Some (lit "Add memoization to recursive function");
     sd_code := Some memoized_code;
     sd_refactored_code := None;
     sd_reason :=
       Some (lit "Memoization reduces time complexity to O(n) while keeping recursive structure");
     sd_confidence := None |}.

Definition input_validation_suggestion : SuggestionData :=
  {| sd_type := Some (lit "input_validation");
     sd_description := Some (lit "Add proper input validation and error handling");
     sd_code := Some validated_main_code;
     sd_refactored_code := None;
     sd_reason := Some (lit "Prevents crashes from invalid input and provides user feedback");
     sd_confidence := None |}.

Definition efficiency_note : NoteData :=
  {| nd_area := Some (lit "algorithm_efficiency");
     nd_issue := Some (lit "Exponential time complexity");
     nd_suggestion := Some (lit "Use iterative or memoized approach");
     nd_impact_level := None |}.

Definition input_validation_concern (description mitigation : string) : ConcernData :=
  {| cd_type := Some (lit "input_validation");
     cd_severity := Some (lit "medium");
     cd_description := Some (lit description);
     cd_mitigation := Some (lit mitigation);
     cd_cwe_id := None |}.

(** [any(keyword in text for keyword in keywords)] *)
Definition any_keyword (keywords : list string) (text : str) : bool :=
  existsb (fun keyword => contains (lit keyword) text) keywords.

(** ** [_parse_text_response] *)

(** The four lists the line scan fills. *)
Record findings : Type := {
  f_issues : list IssueData;
  f_suggestions : list SuggestionData;
  f_security_concerns : list ConcernData;
  f_performance_notes : list NoteData
}.

Definition no_findings : findings :=
  {| f_issues := []; f_suggestions := []; f_security_concerns := [];
     f_performance_notes := [] |}.

(** One turn of [for line in lines]. *)
Definition scan_line (content : str) (acc : findings) (line : str) : findings :=
  let line := strip line in
  if negb (nonempty line) then acc
  else
    let acc :=
      if any_keyword ["performance"; "slow"; "inefficient"; "complexity"; "recursive"]%string
           (lower line)
      then
        if contains (lit "fibonacci") (lower content) && contains (lit "recursive") (lower line)
        then {| f_issues := f_issues acc ++ [recursive_fibonacci_issue];
                f_suggestions := f_suggestions acc ++ [iterative_suggestion];
                f_security_concerns := f_security_concerns acc;
                f_performance_notes := f_performance_notes acc ++ [efficiency_note] |}
        else acc
      else acc in
    if any_keyword ["input"; "validation"; "security"; "vulnerability"]%string (lower line)
    then {| f_issues := f_issues acc;
            f_suggestions := f_suggestions acc;
            f_security_concerns :=
              f_security_concerns acc
              ++ [input_validation_concern
                    "No validation for negative numbers or large inputs"
                    "Add input validation and limits"];
            f_performance_notes := f_performance_notes acc |}
    else acc.

(** [r'\{.*\}'] under [re.DOTALL] *)
Definition json_like : Re.regex :=
  [Re.one (Re.chr "{"%char); Re.star Re.any; Re.one (Re.chr "}"%char)].

(** The first part of [_parse_text_response]: the embedded JSON fragment,
    when there is one and it decodes. *)
Definition embedded_json (w : World) (content : str) : option ai_json :=
  match Re.search json_like content with
  | Some json_str => loads_ai w json_str
  | None => None
  end.

(** The second part: the structured response made from the text. *)
Definition text_findings (content : str) : findings :=
  fold_left (scan_line content) (split "010"%char content) no_findings.

Definition text_score (content : str) : Q :=
  if contains (lit "performance") (lower content)
     && contains (lit "recursive") (lower content)
  then 3 else 5.

Definition heuristic_response (content : str) : AIData :=
  let found := text_findings content in
  {| ad_score := Some (text_score content);
     ad_issues := Some (f_issues found);
     ad_suggestions := Some (f_suggestions found);
     ad_security_concerns := Some (f_security_concerns found);
     ad_performance_notes := Some (f_performance_notes found);
     ad_readability_score := Some 7;
     ad_maintainability_score := Some 6;
     ad_summary :=
       Some (if 500 <? length content then firstn 500 content ++ lit "..." else content);
     ad_raw_response := Some content |}.

Definition _parse_text_response (w : World) (content : str) : ai_json :=
  match embedded_json w content with
  | Some j => j
  | None => JDict (heuristic_response content)
  end.

(** ** [_get_fallback_suggestions]: pattern matching on the code, no provider *)

Definition fallback_recursion (code language : str) : bool :=
  str_eqb (lower language) (lit "python")
  && (contains (lit "fibonacci") (lower code) && contains (lit "def") code
      && contains (lit "return") code)
  && (1 <? count (lit "calculate_fibonacci") code).

Definition fallback_input (code language : str) : bool :=
  str_eqb (lower language) (lit "python")
  && (contains (lit "input(") code && contains (lit "int(") code).

Definition _get_fallback_suggestions (code language : str) : AIData :=
  let issues := if fallback_recursion code language then [recursive_fibonacci_issue] else [] in
  let suggestions :=
    (if fallback_recursion code language
     then [iterative_suggestion; memoization_suggestion] else [])
    ++ (if fallback_input code language then [input_validation_suggestion] else []) in
  let security_concerns :=
    if fallback_input code language
    then [input_validation_concern "No validation for user input"
            "Add try-catch block and input validation"]
    else [] in
  let performance_notes :=
    if fallback_recursion code language then [efficiency_note] else [] in
  {| ad_score := Some (match issues with [] => 8 | _ :: _ => 6 end);
     ad_issues := Some issues;
     ad_suggestions := Some suggestions;
     ad_security_concerns := Some security_concerns;
     ad_performance_notes := Some performance_notes;
     ad_readability_score := Some 7;
     ad_maintainability_score := Some 6;
     ad_summary :=
       Some (lit "Code analysis completed with specific suggestions for improvement.");
     ad_raw_response := Some (lit "Fallback analysis") |}.

(** ** The providers

    [AIEngine.__init__] creates a client for every provider whose API key
    is set.  The prompt is a fixed template filled with the code, the
    language and the context, so a request is identified with these
    three. *)
Definition openai_client (w : World) : bool := truthy (OPENAI_API_KEY (settings w)).
Definition cohere_client (w : World) : bool := truthy (COHERE_API_KEY (settings w)).
Definition anthropic_client (w : World) : bool := truthy (ANTHROPIC_API_KEY (settings w)).

(** A computation together with the providers it sent a request to, in
    the order of the requests. *)
Definition traced (A : Type) : Type := (list Provider * result A)%type.

Definition _analyze_with_openai (w : World) (code language : str) (context : option str)
  : traced ai_json :=
  ([OpenAI],
   content <- provider_call w OpenAI code language context ;;
   match loads_ai w content with
   | Some j => Return j
   | None => Return (_parse_text_response w content)
   end).

Definition _analyze_with_cohere (w : World) (code language : str) (context : option str)
  : traced ai_json :=
  ([Cohere],
   content <- provider_call w Cohere code language context ;;
   Return (_parse_text_response w content)).

Definition _analyze_with_anthropic (w : World) (code language : str) (context : option str)
  : traced ai_json :=
  ([Anthropic],
   content <- provider_call w Anthropic code language context ;;
   Return (_parse_text_response w content)).

(** The body of the [try] in [analyze_code]. *)
Definition analyze_code_try (w : World) (code language : str) (context : option str)
  : traced ai_json :=
  if openai_client w then _analyze_with_openai w code language context
  else if cohere_client w then _analyze_with_cohere w code language context
  else if anthropic_client w then _analyze_with_anthropic w code language context
  else ([], Raise (ValueError (lit "No AI provider configured"))).

(** [AIEngine.analyze_code] *)
Definition analyze_code (w : World) (code language : str) (context : option str)
  : traced ai_json :=
  let attempt := analyze_code_try w code language context in
  (fst attempt,
   try_except (snd attempt)
     (fun _ => Return (JDict (_get_fallback_suggestions code language)))).

(** [generate_refactored_code].  [completion] is the chat request made
    for (code, language, improvement type): the content of the first
    choice, or the exception raised on the way to it. *)
Definition generate_refactored_code (w : World)
  (completion : str -> str -> str -> result str) (code language improvement_type : str)
  : str :=
  match
    (if openai_client w then
       content <- completion code language improvement_type ;;
       Return (strip content)
     else Return code)
  with
  | Return refactored => refactored
  | Raise _ => code
  end.

End AIEngine.

(* ===================================================================== *)
(** * app/utils/code_utils.py *)
(* ===================================================================== *)
Module CodeUtils.

Import PyStr Exc Rounding ReviewModel Env.
Local Open Scope Q_scope.

(** ** [sanitize_code] *)

Definition quote : ascii -> bool := Re.oneof ["034"%char; "'"%char].
Definition not_quote : ascii -> bool := Re.noneof ["034"%char; "'"%char].

(** The common end of the five patterns: whitespace, an equals sign,
    whitespace, a quote (single or double), one or more characters that
    are not quotes, a quote. *)
Definition assigned_literal : Re.regex :=
  [Re.star Re.space; Re.one (Re.chr "="%char); Re.star Re.space;
   Re.one quote; Re.plus not_quote; Re.one quote].

Definition sensitive_patterns : list Re.regex :=
  [ Re.iword "api" ++ [Re.opt (Re.oneof (lit "_-"))] ++ Re.iword "key" ++ assigned_literal;
    Re.iword "password" ++ assigned_literal;
    Re.iword "secret" ++ assigned_literal;
    Re.iword "token" ++ assigned_literal;
    Re.iword "key" ++ assigned_literal ].

Definition REDACTED : str := lit "***REDACTED***".

Definition sanitize_code (code : str) : str :=
  fold_left (fun sanitized_code pattern => Re.sub pattern REDACTED sanitized_code)
    sensitive_patterns code.

(** ** [calculate_overall_score] *)

Definition calculate_overall_score (static_scores : list Q) (ai_score : Q) : Q :=
  if negb (nonempty static_scores) && Qeqb ai_score 0 then 5
  else
    let static_avg :=
      if nonempty static_scores
      then Qsum static_scores / inject_Z (Z.of_nat (length static_scores))
      else 5 in
    let overall_score := static_avg * (6 # 10) + ai_score * (4 # 10) in
    round2 overall_score.

(** ** [generate_summary] *)

Definition count_severity (sev : SeverityLevel) (issues : list CodeIssue) : nat :=
  length (filter (fun i => severity_eqb (issue_severity i) sev) issues).

(** [sep.join(parts)] *)
Fixpoint join (sep : str) (parts : list str) : str :=
  match parts with
  | [] => []
  | [p] => p
  | p :: ps => p ++ sep ++ join sep ps
  end.

Definition generate_summary (issues : list CodeIssue) (suggestions : list CodeSuggestion)
  (score : Q) : str :=
  let total_issues := length issues in
  let critical_issues := count_severity CRITICAL issues in
  let high_issues := count_severity HIGH issues in
  let quality :=
    if Qleb 8 score then lit "Code quality is excellent"
    else if Qleb 6 score then lit "Code quality is good with minor improvements needed"
    else if Qleb 4 score then lit "Code quality needs improvement"
    else lit "Code quality requires significant attention" in
  let found :=
    if 0 <? total_issues then
      [lit "Found " ++ str_of_nat total_issues ++ lit " issues"]
      ++ (if 0 <? critical_issues then
            [lit "including " ++ str_of_nat critical_issues ++ lit " critical issues"]
          else if 0 <? high_issues then
            [lit "including " ++ str_of_nat high_issues ++ lit " high-priority issues"]
          else [])
    else [] in
  let generated :=
    match suggestions with
    | [] => []
    | _ :: _ =>
        [lit "Generated " ++ str_of_nat (length suggestions) ++ lit " improvement suggestions"]
    end in
  join (lit ". ") ([quality] ++ found ++ generated) ++ lit ".".

(** ** [detect_language_from_filename] *)

Definition extension_map : list (string * string) :=
  [(".py", "python"); (".js", "javascript"); (".ts", "typescript");
   (".jsx", "javascript"); (".tsx", "typescript"); (".java", "java");
   (".cpp", "cpp"); (".cc", "cpp"); (".cxx", "cpp"); (".c", "c"); (".go", "go");
   (".rs", "rust"); (".php", "php"); (".rb", "ruby"); (".swift", "swift");
   (".kt", "kotlin"); (".scala", "scala"); (".r", "r"); (".m", "objective-c");
   (".mm", "objective-cpp"); (".cs", "csharp"); (".vb", "vbnet"); (".pl", "perl");
   (".sh", "bash"); (".ps1", "powershell"); (".sql", "sql"); (".html", "html");
   (".css", "css"); (".scss", "scss"); (".sass", "sass"); (".less", "less");
   (".xml", "xml"); (".yaml", "yaml"); (".yml", "yaml"); (".json", "json");
   (".toml", "toml"); (".ini", "ini"); (".cfg", "ini"); (".conf", "ini")]%string.

(** [d.get(key)] on a dictionary of string literals *)
Definition dict_get (d : list (string * string)) (key : str) : option str :=
  match find (fun entry => str_eqb (lit (fst entry)) key) d with
  | Some entry => Some (lit (snd entry))
  | None => None
  end.

Definition detect_language_from_filename (filename : str) : option str :=
  if negb (nonempty filename) then None
  else if contains (lit ".") filename then
    let extension := lit "." ++ lower (last (split "."%char filename) []) in
    dict_get extension_map extension
  else None.

(** ** [extract_code_metrics] *)

(** [\b] between two neighbours: one of them is a word character and the
    other is not; past the ends of the text there is no word character. *)
Definition is_word (c : option ascii) : bool :=
  match c with Some x => Re.wordchar x | None => false end.

Definition boundary (before after : option ascii) : bool :=
  xorb (is_word before) (is_word after).

(** [keyword] at the start of [s], under [re.IGNORECASE] *)
Fixpoint istartswith (keyword s : str) : bool :=
  match keyword, s with
  | [], _ => true
  | x :: keyword', y :: s' => Re.ichr x y && istartswith keyword' s'
  | _ :: _, [] => false
  end.

(** Does [\bkeyword\b] match at the start of [s], after the character
    [before]? *)
Definition keyword_here (keyword : str) (before : option ascii) (s : str) : bool :=
  boundary before (hd_error s)
  && istartswith keyword s
  && boundary (hd_error (skipn (length keyword - 1) s)) (hd_error (skipn (length keyword) s)).

(** [len(re.findall(r'\b' + re.escape(keyword) + r'\b', code, re.IGNORECASE))]
    for a non-empty keyword: the scan from the left, [before] being the
    character passed last and [skip] the number of characters of the last
    match still to be passed. *)
Fixpoint keyword_matches (keyword : str) (skip : nat) (before : option ascii) (s : str)
  : nat :=
  match s with
  | [] => 0%nat
  | c :: s' =>
      match skip with
      | S k => keyword_matches keyword k (Some c) s'
      | O =>
          if keyword_here keyword before s
          then S (keyword_matches keyword (length keyword - 1) (Some c) s')
          else keyword_matches keyword 0%nat (Some c) s'
      end
  end.

Definition complexity_keywords : list string :=
  ["if"; "elif"; "else"; "for"; "while"; "try"; "except"; "finally";
   "and"; "or"; "case"; "when"; "switch"; "catch"; "&&"; "||"]%string.

Definition _calculate_complexity (code : str) : nat :=
  fold_left
    (fun complexity keyword =>
       (complexity + keyword_matches (lit keyword) 0 None code)%nat)
    complexity_keywords 1%nat.

(** [\s+], [\w+], [\s*] and an opening parenthesis *)
Definition spaces : Re.atom := Re.plus Re.space.
Definition maybe_spaces : Re.atom := Re.star Re.space.
Definition identifier : Re.atom := Re.plus Re.wordchar.
Definition paren : Re.atom := Re.one (Re.chr "("%char).

Definition function_patterns : list Re.regex :=
  [ Re.iword "def" ++ [spaces; identifier; maybe_spaces; paren];
    Re.iword "function" ++ [spaces; identifier; maybe_spaces; paren];
    [identifier; maybe_spaces; Re.one (Re.chr ":"%char); maybe_spaces]
      ++ Re.iword "function" ++ [maybe_spaces; paren];
    Re.iword "public" ++ [spaces; identifier; spaces; identifier; maybe_spaces; paren];
    Re.iword "private" ++ [spaces; identifier; spaces; identifier; maybe_spaces; paren];
    Re.iword "protected" ++ [spaces; identifier; spaces; identifier; maybe_spaces; paren];
    Re.iword "fn" ++ [spaces; identifier; maybe_spaces; paren];
    Re.iword "func" ++ [spaces; identifier; maybe_spaces; paren] ].

Definition class_patterns : list Re.regex :=
  [ Re.iword "class" ++ [spaces; identifier];
    Re.iword "interface" ++ [spaces; identifier];
    Re.iword "struct" ++ [spaces; identifier];
    Re.iword "enum" ++ [spaces; identifier] ].

Definition import_patterns : list Re.regex :=
  [ Re.iword "import" ++ [spaces];
    Re.iword "from" ++ [spaces; identifier; spaces] ++ Re.iword "import";
    Re.iword "require" ++ [maybe_spaces; paren];
    Re.iword "#include" ++ [maybe_spaces; Re.one (Re.chr "<"%char)];
    Re.iword "#include" ++ [maybe_spaces; Re.one (Re.chr "034"%char)];
    Re.iword "using" ++ [spaces] ].

(** The loop the three counters share. *)
Definition count_matches (patterns : list Re.regex) (code : str) : nat :=
  fold_left (fun count pattern => (count + length (Re.findall pattern code))%nat)
    patterns 0%nat.

Definition _count_functions (code : str) : nat := count_matches function_patterns code.

Definition _count_classes (code : str) : nat := count_matches class_patterns code.

Definition _count_imports (code : str) : nat := count_matches import_patterns code.

(** The dictionary of metrics, a field per key. *)
Record CodeMetrics : Type := {
  total_lines : nat;
  non_empty_lines : nat;
  comment_lines : nat;
  blank_lines : nat;
  max_line_length : nat;
  average_line_length : Q;
  cyclomatic_complexity : nat;
  function_count : nat;
  class_count : nat;
  import_count : nat
}.

Definition extract_code_metrics (code : str) : CodeMetrics :=
  let lines := split "010"%char code in
  {| total_lines := length lines;
     non_empty_lines := length (filter (fun line => nonempty (strip line)) lines);
     comment_lines :=
       length (filter (fun line => startswith (lit "#") (strip line)
                                   || startswith (lit "//") (strip line)) lines);
     blank_lines := length (filter (fun line => negb (nonempty (strip line))) lines);
     max_line_length :=
       if nonempty lines then list_max (map (@length ascii) lines) else 0%nat;
     average_line_length :=
       if nonempty lines
       then inject_Z (Z.of_nat (list_sum (map (@length ascii) lines)))
            / inject_Z (Z.of_nat (length lines))
       else 0;
     cyclomatic_complexity := _calculate_complexity code;
     function_count := _count_functions code;
     class_count := _count_classes code;
     import_count := _count_imports code |}.

(** ** [format_code_score] *)

Definition format_code_score (score : Q) : str :=
  if Qleb 9 score then lit "Excellent"
  else if Qleb 7 score then lit "Good"
  else if Qleb 5 score then lit "Fair"
  else if Qleb 3 score then lit "Poor"
  else lit "Critical".

(** ** [group_issues_by_type]

    The dictionary of groups keeps its keys in the order of insertion.
    Every [CodeIssue] has a [type], so the default key is not used. *)
Definition groups : Type := list (IssueType * list CodeIssue).

(** The body of the loop: the key is added with an empty list when it is
    new, then the issue is appended to the list of its key. *)
Fixpoint grouped_append (key : IssueType) (issue : CodeIssue) (grouped : groups) : groups :=
  match grouped with
  | [] => [(key, [issue])]
  | (k, members) :: rest =>
      if issue_type_eqb k key then (k, members ++ [issue]) :: rest
      else (k, members) :: grouped_append key issue rest
  end.

Definition group_issues_by_type (issues : list CodeIssue) : groups :=
  fold_left (fun grouped issue => grouped_append (issue_type issue) issue grouped) issues [].

End CodeUtils.

(* ===================================================================== *)
(** * app/presenters/review_presenter.py *)
(* ===================================================================== *)
Module ReviewPresenter.

Import PyStr Exc Rounding ReviewModel Env.
Local Open Scope Q_scope.

Definition get_or {A : Type} (v : option A) (default : A) : A :=
  StaticAnalyzer.get_or v default.

(** ** Conversion of the AI dictionary into the models *)

Definition _convert_ai_issue (issue_data : IssueData) : result CodeIssue :=
  type <- issue_type_of_str (get_or (id_type issue_data) (lit "style_violation")) ;;
  severity <- severity_of_str (get_or (id_severity issue_data) (lit "medium")) ;;
  Return {| issue_type := type; issue_severity := severity;
            issue_line := id_line issue_data; issue_column := None;
            issue_message := get_or (id_message issue_data) [];
            issue_suggestion := id_suggestion issue_data;
            issue_rule_id := None; issue_tool := Some (lit "ai_engine") |}.

Definition _convert_ai_suggestion (suggestion_data : SuggestionData) : result CodeSuggestion :=
  new_CodeSuggestion
    (get_or (sd_type suggestion_data) (lit "improvement"))
    (get_or (sd_description suggestion_data) [])
    (sd_refactored_code suggestion_data)
    (get_or (sd_reason suggestion_data) [])
    (get_or (sd_confidence suggestion_data) (8 # 10)).

Definition _convert_security_concern (concern_data : ConcernData) : result SecurityConcern :=
  severity <- severity_of_str (get_or (cd_severity concern_data) (lit "medium")) ;;
  Return {| concern_type := get_or (cd_type concern_data) (lit "vulnerability");
            concern_severity := severity;
            concern_description := get_or (cd_description concern_data) [];
            concern_mitigation := get_or (cd_mitigation concern_data) [];
            concern_cwe_id := cd_cwe_id concern_data |}.

Definition _convert_performance_note (note_data : NoteData) : PerformanceNote :=
  {| note_area := get_or (nd_area note_data) (lit "general");
     note_issue := get_or (nd_issue note_data) [];
     note_suggestion := get_or (nd_suggestion note_data) [];
     note_impact_level := get_or (nd_impact_level note_data) (lit "medium") |}.

Definition _convert_ai_analysis (ai_data : ai_json) : result AIAnalysisResult :=
  match ai_data with
  | JOther => Raise (OtherException (lit "object has no attribute 'get'"))
  | JDict d =>
      issues <- mapM _convert_ai_issue (get_or (ad_issues d) []) ;;
      suggestions <- mapM _convert_ai_suggestion (get_or (ad_suggestions d) []) ;;
      security_concerns <-
        mapM _convert_security_concern (get_or (ad_security_concerns d) []) ;;
      new_AIAnalysisResult
        (get_or (ad_score d) 5)
        issues suggestions security_concerns
        (map _convert_performance_note (get_or (ad_performance_notes d) []))
        (get_or (ad_readability_score d) 5)
        (get_or (ad_maintainability_score d) 5)
        (get_or (ad_summary d) [])
        (ad_raw_response d)
  end.

(** ** Combination of the results *)

Definition _combine_issues (static_results : list StaticAnalysisResult)
  (ai_result : option AIAnalysisResult) : list CodeIssue :=
  let all_issues := fold_left (fun acc r => acc ++ sa_issues r) static_results [] in
  match ai_result with
  | Some r => all_issues ++ ai_issues r
  | None => all_issues
  end.

Definition _extract_suggestions (ai_result : option AIAnalysisResult) : list CodeSuggestion :=
  match ai_result with Some r => ai_suggestions r | None => [] end.

Definition _extract_security_concerns (ai_result : option AIAnalysisResult)
  : list SecurityConcern :=
  match ai_result with Some r => ai_security_concerns r | None => [] end.

Definition _extract_performance_notes (ai_result : option AIAnalysisResult)
  : list PerformanceNote :=
  match ai_result with Some r => ai_performance_notes r | None => [] end.

(** [counts[severity]] after the loop of [_count_issues_by_severity] *)
Definition _count_issues_by_severity (issues : list CodeIssue) (severity : SeverityLevel)
  : nat :=
  fold_left (fun n issue => if severity_eqb (issue_severity issue) severity then S n else n)
    issues 0%nat.

Definition _generate_review_summary (issues : list CodeIssue)
  (suggestions : list CodeSuggestion) (score : Q) : str :=
  CodeUtils.generate_summary issues suggestions score.

(** ** [_generate_recommendations] *)

(** One turn of [for area in focus_areas]. *)
Definition focus_step (recommendations : list str) (area : str) : list str :=
  if str_eqb area (lit "performance") then
    recommendations ++ [lit "Consider performance optimizations"]
  else if str_eqb area (lit "readability") then
    recommendations ++ [lit "Improve code readability and documentation"]
  else if str_eqb area (lit "security") then
    recommendations ++ [lit "Conduct thorough security review"]
  else recommendations.

Definition critical_line (n : nat) : str :=
  lit "Address " ++ str_of_nat n ++ lit " critical issues immediately".

Definition security_line (n : nat) : str :=
  lit "Review and fix " ++ str_of_nat n ++ lit " security vulnerabilities".

Definition suggestions_line (n : nat) : str :=
  lit "Implement " ++ str_of_nat n ++ lit " improvement suggestions".

Definition _generate_recommendations (issues : list CodeIssue)
  (suggestions : list CodeSuggestion) (focus_areas : option (list str)) : list str :=
  let recommendations := [] in
  let critical_issues := filter (fun i => severity_eqb (issue_severity i) CRITICAL) issues in
  let recommendations :=
    if nonempty critical_issues
    then recommendations ++ [critical_line (length critical_issues)]
    else recommendations in
  let security_issues :=
    filter (fun i => issue_type_eqb (issue_type i) SECURITY_VULNERABILITY) issues in
  let recommendations :=
    if nonempty security_issues
    then recommendations ++ [security_line (length security_issues)]
    else recommendations in
  let recommendations :=
    match focus_areas with
    | Some areas => fold_left focus_step areas recommendations
    | None => recommendations
    end in
  let recommendations :=
    if nonempty suggestions
    then recommendations ++ [suggestions_line (length suggestions)]
    else recommendations in
  firstn 5 recommendations.

(** ** [review_code]

    The presenter's state is [self.review_history]; a function that
    changes it returns the new history next to its result. *)
Definition history : Type := list ReviewHistory.

Definition _validate_review_request (w : World) (request : CodeReviewRequest)
  : result unit :=
  if negb (nonempty (strip (req_code request))) then
    Raise (ValueError (lit "Code cannot be empty"))
  else if (Z.of_nat (MAX_FILE_SIZE_MB (settings w)) * 1024 * 1024
           <? Z.of_nat (length (req_code request)))%Z then
    Raise (ValueError
             (lit "Code size exceeds maximum limit of "
              ++ str_of_nat (MAX_FILE_SIZE_MB (settings w)) ++ lit "MB"))
  else Return tt.

(** The static phase: the results, or [[]] when the analyzer raises. *)
Definition static_phase (w : World) (request : CodeReviewRequest) (sanitized_code : str)
  : list StaticAnalysisResult :=
  if req_include_static_analysis request then
    match StaticAnalyzer.analyze_code w sanitized_code (req_language request)
            (req_file_name request) with
    | Return static_results => static_results
    | Raise _ => []
    end
  else [].

(** The AI phase: the converted result, or [None] when the engine or the
    conversion raises. *)
Definition ai_phase (w : World) (request : CodeReviewRequest) (sanitized_code : str)
  : option AIAnalysisResult :=
  if req_include_ai_analysis request then
    match
      (ai_analysis_data <-
         snd (AIEngine.analyze_code w sanitized_code
                (language_value (req_language request)) (req_context request)) ;;
       _convert_ai_analysis ai_analysis_data)
    with
    | Return ai_result => Some ai_result
    | Raise _ => None
    end
  else None.

Definition tools_used_of (static_results : list StaticAnalysisResult)
  (ai_result : option AIAnalysisResult) : list str :=
  map sa_tool static_results
  ++ match ai_result with Some _ => [lit "ai_engine"] | None => [] end.

(** [static_scores], [ai_score] and [overall_score] of [review_code] *)
Definition overall_score_of (static_results : list StaticAnalysisResult)
  (ai_result : option AIAnalysisResult) : Q :=
  let static_scores := map sa_score static_results in
  let ai_score := match ai_result with Some r => ai_score r | None => 5 end in
  CodeUtils.calculate_overall_score static_scores ai_score.

Definition _store_review_history (review_history : history) (response : CodeReviewResponse)
  : history :=
  let history_item :=
    {| hist_file_name := resp_file_name response;
       hist_language := resp_language response;
       hist_overall_score := resp_overall_score response;
       hist_total_issues := resp_total_issues response;
       hist_summary := resp_summary response |} in
  let review_history := review_history ++ [history_item] in
  if (100 <? length review_history)%nat
  then skipn (length review_history - 100) review_history
  else review_history.

Definition review_code (w : World) (review_history : history) (request : CodeReviewRequest)
  : result CodeReviewResponse * history :=
  let outcome :=
    _ <- _validate_review_request w request ;;
    let sanitized_code := CodeUtils.sanitize_code (req_code request) in
    let static_results := static_phase w request sanitized_code in
    let ai_result := ai_phase w request sanitized_code in
    let all_issues := _combine_issues static_results ai_result in
    let all_suggestions := _extract_suggestions ai_result in
    let security_concerns := _extract_security_concerns ai_result in
    let overall_score := overall_score_of static_results ai_result in
    let summary := _generate_review_summary all_issues all_suggestions overall_score in
    let recommendations :=
      _generate_recommendations all_issues all_suggestions (req_focus_areas request) in
    new_CodeReviewResponse (req_language request) (req_file_name request)
      (hd_error static_results) ai_result overall_score
      (length all_issues) (_count_issues_by_severity all_issues CRITICAL)
      (length security_concerns) summary recommendations
      (tools_used_of static_results ai_result) in
  match outcome with
  | Return response => (Return response, _store_review_history review_history response)
  | Raise e => (Raise e, review_history)
  end.

(** ** [batch_review] *)

(** [file_data[key]] *)
Definition item (key : string) (v : option str) : result str :=
  match v with
  | Some s => Return s
  | None => Raise (KeyError (lit key))
  end.

(** The request made for one file of the batch. *)
Definition individual_request (request : BatchReviewRequest) (file_data : FileData)
  : result CodeReviewRequest :=
  code <- item "code" (fd_code file_data) ;;
  language_name <- item "language" (fd_language file_data) ;;
  language <- language_of_str language_name ;;
  new_CodeReviewRequest code language (fd_file_name file_data) (fd_context file_data)
    (batch_include_static_analysis request) (batch_include_ai_analysis request)
    (batch_focus_areas request).

(** The loop variables of [batch_review], with the history. *)
Record batch_state : Type := {
  reviews : list CodeReviewResponse;
  successful_reviews : nat;
  failed_reviews : nat;
  stored : history
}.

(** One turn of [for file_data in request.files]. *)
Definition batch_step (w : World) (request : BatchReviewRequest) (st : batch_state)
  (file_data : FileData) : batch_state :=
  match individual_request request file_data with
  | Raise _ =>
      {| reviews := reviews st; successful_reviews := successful_reviews st;
         failed_reviews := S (failed_reviews st); stored := stored st |}
  | Return individual =>
      match review_code w (stored st) individual with
      | (Return review_response, review_history) =>
          {| reviews := reviews st ++ [review_response];
             successful_reviews := S (successful_reviews st);
             failed_reviews := failed_reviews st; stored := review_history |}
      | (Raise _, review_history) =>
          {| reviews := reviews st; successful_reviews := successful_reviews st;
             failed_reviews := S (failed_reviews st); stored := review_history |}
      end
  end.

(** [f"{x:.1f}"] *)
Definition format_1f (x : Q) : str :=
  let tenths := round_half_even (x * 10) in
  let digits := Z.to_nat (Z.abs tenths) in
  (if (tenths <? 0)%Z then lit "-" else [])
  ++ str_of_nat (digits / 10) ++ lit "." ++ str_of_nat (digits mod 10).

Definition _generate_batch_summary (reviews : list CodeReviewResponse)
  (successful failed : nat) : str :=
  let head :=
    lit "Batch review completed: " ++ str_of_nat successful ++ lit " successful, "
    ++ str_of_nat failed ++ lit " failed" in
  if negb (nonempty reviews) then head
  else
    let avg_score :=
      Qsum (map resp_overall_score reviews) / inject_Z (Z.of_nat (length reviews)) in
    let total_issues := fold_left Nat.add (map resp_total_issues reviews) 0%nat in
    head ++ lit ". Average score: " ++ format_1f avg_score
    ++ lit ", Total issues: " ++ str_of_nat total_issues.

Definition batch_review (w : World) (review_history : history) (request : BatchReviewRequest)
  : BatchReviewResponse * history :=
  let st :=
    fold_left (batch_step w request) (batch_files request)
      {| reviews := []; successful_reviews := 0; failed_reviews := 0;
         stored := review_history |} in
  ({| bresp_total_files := length (batch_files request);
      bresp_successful_reviews := successful_reviews st;
      bresp_failed_reviews := failed_reviews st;
      bresp_reviews := reviews st;
      bresp_overall_summary :=
        _generate_batch_summary (reviews st) (successful_reviews st) (failed_reviews st) |},
   stored st).

(** The histories a presenter can hold: it starts with the empty one, and
    [review_code] and [batch_review] are the only methods that change it. *)
Inductive produced : history -> Prop :=
| produced_start : produced []
| produced_review (w : World) (h : history) (request : CodeReviewRequest) :
    produced h -> produced (snd (review_code w h request))
| produced_batch (w : World) (h : history) (request : BatchReviewRequest) :
    produced h -> produced (snd (batch_review w h request)).

(** ** [get_dashboard_metrics]

    The dashboard is the one place that reads the timestamps, so it takes
    the history with the timestamp of every entry. *)

(** [d[key] = d.get(key, 0) + 1] *)
Fixpoint count_up (key : str) (d : list (str * nat)) : list (str * nat) :=
  match d with
  | [] => [(key, 1%nat)]
  | (k, n) :: rest =>
      if str_eqb k key then (k, S n) :: rest else (k, n) :: count_up key rest
  end.

(** [sorted(entries, key=lambda x: x.timestamp, reverse=True)]: a stable
    sort, the newest entry first; entries of one timestamp keep their
    order. *)
Fixpoint insert_by_timestamp (x : Timed) (sorted : list Timed) : list Timed :=
  match sorted with
  | [] => [x]
  | y :: rest =>
      if (timestamp y <=? timestamp x)%Z then x :: sorted
      else y :: insert_by_timestamp x rest
  end.

Definition sorted_newest_first (entries : list Timed) : list Timed :=
  fold_right insert_by_timestamp [] entries.

(** [word in review.summary.lower()] *)
Definition mentions (word : string) (review : ReviewHistory) : bool :=
  contains (lit word) (lower (hist_summary review)).

Definition get_dashboard_metrics (timed_history : list Timed) : DashboardMetrics :=
  let review_history := map snd timed_history in
  if negb (nonempty review_history) then
    {| dash_total_reviews := 0; dash_average_score := 0;
       dash_most_common_issues := []; dash_language_distribution := [];
       dash_security_issues_count := 0; dash_performance_issues_count := 0;
       dash_recent_reviews := [] |}
  else
    let total_reviews := length review_history in
    let average_score :=
      Qsum (map hist_overall_score review_history) / inject_Z (Z.of_nat total_reviews) in
    let language_distribution :=
      fold_left (fun d review => count_up (language_value (hist_language review)) d)
        review_history [] in
    let most_common_issues :=
      [(lit "style_violation", 15%nat); (lit "security_vulnerability", 8%nat);
       (lit "performance_issue", 5%nat)] in
    let recent_reviews := firstn 10 (sorted_newest_first timed_history) in
    {| dash_total_reviews := total_reviews;
       dash_average_score := round2 average_score;
       dash_most_common_issues := most_common_issues;
       dash_language_distribution := language_distribution;
       dash_security_issues_count :=
         list_sum (map hist_total_issues (filter (mentions "security") review_history));
       dash_performance_issues_count :=
         list_sum (map hist_total_issues (filter (mentions "performance") review_history));
       dash_recent_reviews := recent_reviews |}.

End ReviewPresenter.

(* ===================================================================== *)
(** * app/core/config.py *)
(* ===================================================================== *)
Module Config.

Import PyStr Exc ReviewModel Env.

Definition validate_settings (settings : Settings) : result bool :=
  if negb (truthy (OPENAI_API_KEY settings)) && negb (truthy (COHERE_API_KEY settings))
     && negb (truthy (ANTHROPIC_API_KEY settings))
  then Raise (ValueError
                (lit "At least one AI API key must be configured (OpenAI, Cohere, or Anthropic)"))
  else Return true.

End Config.

(* ===================================================================== *)
(** * app/routers/review_router.py *)
(* ===================================================================== *)
Module ReviewRouter.

Import PyStr Exc Rounding ReviewModel Env.

(** What an endpoint answers: the value it returns, or the
    [HTTPException] it raises. *)
Inductive answer (A : Type) : Type :=
| OK (a : A)
| HTTPException (status_code : nat) (detail : str).

Arguments OK {A} a.
Arguments HTTPException {A} status_code detail.

Definition status_code_of {A : Type} (a : answer A) : nat :=
  match a with OK _ => 200 | HTTPException status_code _ => status_code end.

(** What the body of an endpoint's [try] can raise: an exception of the
    application, or an [HTTPException] of the endpoint's own.  The
    second is an [Exception] and no [ValueError]. *)
Inductive raised : Type :=
| Python (e : exn)
| Http (status_code : nat) (detail : str).

(** [except ValueError]: pydantic's [ValidationError] and
    [json.JSONDecodeError] are subclasses of [ValueError]. *)
Definition is_ValueError (e : raised) : bool :=
  match e with
  | Python (ValueError _) | Python (ValidationError _) | Python JSONDecodeError => true
  | _ => false
  end.

(** The two [except] clauses the endpoints share.  [http_str] is [str] on
    an [HTTPException], which the framework defines. *)
Definition handle {A : Type} (http_str : nat -> str -> str) (failed : string) (e : raised)
  : answer A :=
  let text :=
    match e with
    | Python e => exn_str e
    | Http status_code detail => http_str status_code detail
    end in
  if is_ValueError e then HTTPException 400 text
  else HTTPException 500 (lit failed ++ lit ": " ++ text).

(** The condition of the warning that [review_code] logs before the
    review. *)
Definition language_mismatch (request : CodeReviewRequest) : bool :=
  match req_file_name request with
  | Some file_name =>
      if nonempty file_name then
        match CodeUtils.detect_language_from_filename file_name with
        | Some detected_lang =>
            nonempty detected_lang
            && negb (str_eqb detected_lang (language_value (req_language request)))
        | None => false
        end
      else false
  | None => false
  end.

(** [POST /review] *)
Definition review_code (http_str : nat -> str -> str) (w : World)
  (review_history : ReviewPresenter.history) (request : CodeReviewRequest)
  : answer CodeReviewResponse * ReviewPresenter.history :=
  match ReviewPresenter.review_code w review_history request with
  | (Return response, review_history) => (OK response, review_history)
  | (Raise e, review_history) =>
      (handle http_str "Code review failed" (Python e), review_history)
  end.

(** [POST /review/batch] *)
Definition batch_review (http_str : nat -> str -> str) (w : World)
  (review_history : ReviewPresenter.history) (request : BatchReviewRequest)
  : answer BatchReviewResponse * ReviewPresenter.history :=
  if (50 <? length (batch_files request))%nat then
    (handle http_str "Batch review failed"
       (Http 400 (lit "Batch size cannot exceed 50 files")),
     review_history)
  else
    let (response, review_history) :=
      ReviewPresenter.batch_review w review_history request in
    (OK response, review_history).

(** [GET /languages] *)
Definition get_supported_languages : list str := map language_value all_languages.

(** [POST /refactor]: the dictionary it returns *)
Record Refactoring : Type := {
  original_code : str;
  refactored_code : str;
  improvement_type : str;
  language : str
}.

Definition refactor_code (http_str : nat -> str -> str) (w : World)
  (completion : str -> str -> str -> result str) (code : str)
  (language : ProgrammingLanguage) (improvement_type : str) : answer Refactoring :=
  if negb (nonempty (strip code)) then
    HTTPException 500
      (lit "Code refactoring failed: " ++ http_str 400%nat (lit "Code cannot be empty"))
  else
    let refactored_code :=
      AIEngine.generate_refactored_code w completion code (language_value language)
        improvement_type in
    OK {| original_code := code; refactored_code := refactored_code;
          improvement_type := improvement_type; language := language_value language |}.

End ReviewRouter.

(* ===================================================================== *)
(** * The vocabulary of the specification, and example worlds *)
(* ===================================================================== *)
Module Spec.

Import PyStr Exc Rounding ReviewModel Env.
Local Open Scope Q_scope.

(** ** Static tools *)

(** The runner of a tool, as [StaticAnalyzer.analyze_code] calls it. *)
Definition run_tool (w : World) (t : Tool) (file_path : str) : result StaticAnalysisResult :=
  match t with
  | Pylint => StaticAnalyzer._run_pylint w file_path
  | Eslint => StaticAnalyzer._run_eslint w file_path
  | Bandit => StaticAnalyzer._run_bandit w file_path
  end.

(** The [tool] field and the name used in the summaries. *)
Definition tool_field (t : Tool) : str :=
  match t with Pylint => lit "pylint" | Eslint => lit "eslint" | Bandit => lit "bandit" end.

Definition tool_title (t : Tool) : str :=
  match t with Pylint => lit "Pylint" | Eslint => lit "ESLint" | Bandit => lit "Bandit" end.

(** The neutral result of a tool that did not complete. *)
Definition neutral (t : Tool) (summary : str) : StaticAnalysisResult :=
  {| sa_tool := tool_field t; sa_issues := []; sa_score := 5; sa_summary := summary |}.

(** The status of a source result.  The models have no such field: a
    runner records the outcome in the summary, where [status_of] reads
    it. *)
Inductive Status : Type := ok | timed_out | failed.

Definition status_of (t : Tool) (r : StaticAnalysisResult) : Status :=
  if str_eqb (sa_summary r) (tool_title t ++ lit " analysis timed out") then timed_out
  else if startswith (tool_title t ++ lit " analysis failed: ") (sa_summary r) then failed
  else ok.

(** The severity weights as the specification words them. *)
Definition spec_weight (s : SeverityLevel) : Q :=
  match s with
  | CRITICAL => 3
  | HIGH => 2
  | MEDIUM => 1
  | LOW => 1 # 2
  end.

(** The per-tool score as the specification words it: 10 less the weight
    of the severity of every reported issue, floored at 0. *)
Definition spec_tool_score (issues : list CodeIssue) : Q :=
  Qmax 0 (10 - Qsum (map (fun i => spec_weight (issue_severity i)) issues)).

(** The weights the runners use, keyed on the tool's own classification
    of a report entry; a class that is not listed weighs nothing. *)
Definition pylint_weights : list (string * Q) :=
  [("error", 2); ("fatal", 2); ("warning", 1); ("refactor", 1 # 2)]%string.

Definition bandit_weights : list (string * Q) :=
  [("HIGH", 3); ("MEDIUM", 2); ("LOW", 1)]%string.

Definition weight_of (table : list (string * Q)) (class : option str) : Q :=
  match class with
  | Some c =>
      match find (fun e => str_eqb c (lit (fst e))) table with
      | Some e => snd e
      | None => 0
      end
  | None => 0
  end.

(** The deductions of the report a tool printed, entry by entry, when the
    output is a report of the tool's schema. *)
Definition report_deductions (w : World) (t : Tool) (stdout : str) : option (list Q) :=
  match t with
  | Pylint =>
      match loads_pylint w stdout with
      | Decoded items => Some (map StaticAnalyzer.pylint_deduction items)
      | _ => None
      end
  | Eslint =>
      match loads_eslint w stdout with
      | Decoded files =>
          Some (flat_map
                  (fun f => map StaticAnalyzer.eslint_deduction
                              (StaticAnalyzer.get_or (ef_messages f) []))
                  files)
      | _ => None
      end
  | Bandit =>
      match loads_bandit w stdout with
      | Decoded data =>
          Some (map StaticAnalyzer.bandit_deduction
                  (StaticAnalyzer.get_or (bd_results data) []))
      | _ => None
      end
  end.

(** The tool completed and printed a report with these deductions. *)
Definition reports (w : World) (t : Tool) (file_path : str) (ds : list Q) : Prop :=
  exists stdout,
    subprocess_run w t file_path = Return stdout
    /\ nonempty stdout = true
    /\ report_deductions w t stdout = Some ds.

(** The tool completed and printed text that is not JSON, from which the
    runner recovers these issues. *)
Definition prints_text (w : World) (t : Tool) (file_path : str) (issues : list CodeIssue)
  : Prop :=
  exists stdout,
    subprocess_run w t file_path = Return stdout
    /\ nonempty stdout = true
    /\ match t with
       | Pylint =>
           loads_pylint w stdout = NotJSON
           /\ issues = StaticAnalyzer._parse_pylint_text_output stdout
       | Eslint =>
           loads_eslint w stdout = NotJSON
           /\ issues = StaticAnalyzer._parse_eslint_text_output stdout
       | Bandit =>
           loads_bandit w stdout = NotJSON
           /\ issues = StaticAnalyzer._parse_bandit_text_output stdout
       end.

(** The turn of a scoring loop that adds the issue [issue_of x] and
    subtracts [deduction x]. *)
Definition loop_step {A : Type} (issue_of : A -> CodeIssue) (deduction : A -> Q)
  (st : StaticAnalyzer.loop_state) (x : A) : StaticAnalyzer.loop_state :=
  (fst st ++ [issue_of x], snd st - deduction x).

(** ** Text recovery *)

(** The lines for which the text extractor adds its performance issue. *)
Definition recursion_hit (content line : str) : bool :=
  contains (lit "fibonacci") (lower content)
  && contains (lit "recursive") (lower (strip line)).

(** ** Aggregation *)

(** [mean(xs, default)] *)
Definition mean_or (default : Q) (xs : list Q) : Q :=
  match xs with
  | [] => default
  | _ :: _ => Qsum xs / inject_Z (Z.of_nat (length xs))
  end.

(** The overall score as the specification words it:
    [0.6 * mean(static_scores, default=5.0) + 0.4 * (ai_score if present else 5.0)],
    rounded to two places. *)
Definition spec_overall_score (static_scores : list Q) (ai : option Q) : Q :=
  round2 ((6 # 10) * mean_or 5 static_scores
          + (4 # 10) * match ai with Some a => a | None => 5 end).

(** A score brought into the declared range. *)
Definition clamp (x : Q) : Q := if Qleb x 0 then 0 else if Qleb 10 x then 10 else x.

(** The overall score of an aggregator that clamps its constituents first. *)
Definition spec_clamped_score (static_scores : list Q) (ai : option Q) : Q :=
  spec_overall_score (map clamp static_scores) (option_map clamp ai).

(** ** Recommendations *)

(** The focus areas the validator of the model recognizes. *)
Definition recognized_areas : list string :=
  ["security"; "performance"; "readability"; "maintainability"; "style";
   "documentation"]%string.

Definition recognized (area : str) : bool :=
  existsb (fun a => str_eqb area (lit a)) recognized_areas.

(** The length of the list as the specification words it: a line for the
    critical issues, a line for the security issues, a line per requested
    area of the recognized set, a line for the suggestions, at most five. *)
Definition spec_recommendation_count (issues : list CodeIssue)
  (suggestions : list CodeSuggestion) (focus_areas : list str) : nat :=
  Nat.min 5
    ((if 0 <? CodeUtils.count_severity CRITICAL issues then 1 else 0)
     + (if nonempty (filter (fun i => issue_type_eqb (issue_type i) SECURITY_VULNERABILITY)
                       issues) then 1 else 0)
     + length (filter recognized focus_areas)
     + (if nonempty suggestions then 1 else 0))%nat.

(** The four parts of the list, in the order of their priority. *)
Definition critical_part (issues : list CodeIssue) : list str :=
  let n := CodeUtils.count_severity CRITICAL issues in
  if (0 <? n)%nat then [ReviewPresenter.critical_line n] else [].

Definition security_part (issues : list CodeIssue) : list str :=
  let n :=
    length (filter (fun i => issue_type_eqb (issue_type i) SECURITY_VULNERABILITY) issues) in
  if (0 <? n)%nat then [ReviewPresenter.security_line n] else [].

(** The line of a focus area: three areas have one. *)
Definition area_line (area : str) : list str :=
  if str_eqb area (lit "performance") then [lit "Consider performance optimizations"]
  else if str_eqb area (lit "readability")
       then [lit "Improve code readability and documentation"]
  else if str_eqb area (lit "security") then [lit "Conduct thorough security review"]
  else [].

Definition focus_part (focus_areas : option (list str)) : list str :=
  match focus_areas with
  | Some areas => flat_map area_line areas
  | None => []
  end.

Definition suggestions_part (suggestions : list CodeSuggestion) : list str :=
  let n := length suggestions in
  if (0 <? n)%nat then [ReviewPresenter.suggestions_line n] else [].

(** ** The provider chain *)

Definition client (w : World) (p : Provider) : bool :=
  match p with
  | OpenAI => AIEngine.openai_client w
  | Cohere => AIEngine.cohere_client w
  | Anthropic => AIEngine.anthropic_client w
  end.

(** The configured providers, in the order of their priority. *)
Definition configured (w : World) : list Provider :=
  filter (client w) [OpenAI; Cohere; Anthropic].

(** What the engine makes of the text a provider answered. *)
Definition recover (w : World) (p : Provider) (content : str) : ai_json :=
  match p with
  | OpenAI =>
      match loads_ai w content with
      | Some j => j
      | None => AIEngine._parse_text_response w content
      end
  | _ => AIEngine._parse_text_response w content
  end.

(** The chain as the specification words it: the providers are tried in
    order, a provider whose call raises is skipped and the next one is
    tried, the fallback analyzer answers when none is left. *)
Fixpoint spec_chain (w : World) (providers : list Provider) (code language : str)
  (context : option str) : AIEngine.traced ai_json :=
  match providers with
  | [] => ([], Return (JDict (AIEngine._get_fallback_suggestions code language)))
  | p :: rest =>
      match provider_call w p code language context with
      | Return content => ([p], Return (recover w p content))
      | Raise _ =>
          let next := spec_chain w rest code language context in
          (p :: fst next, snd next)
      end
  end.

Definition spec_analyze (w : World) (code language : str) (context : option str)
  : AIEngine.traced ai_json :=
  spec_chain w (configured w) code language context.

(** ** Batches *)

(** A sample of a batch fails when its request cannot be built (a key is
    missing, the code is empty, the language is unknown) or does not pass
    the validation of [review_code] (blank or oversized code). *)
Definition sample_fails (w : World) (request : BatchReviewRequest) (file_data : FileData)
  : bool :=
  match ReviewPresenter.individual_request request file_data with
  | Raise _ => true
  | Return individual =>
      negb (returns (ReviewPresenter._validate_review_request w individual))
  end.

(** The review of one sample of the batch on its own, with an empty
    history; [None] when it raises. *)
Definition review_alone (w : World) (request : BatchReviewRequest) (file_data : FileData)
  : option CodeReviewResponse :=
  match ReviewPresenter.individual_request request file_data with
  | Raise _ => None
  | Return individual =>
      match fst (ReviewPresenter.review_code w [] individual) with
      | Return response => Some response
      | Raise _ => None
      end
  end.

Definition to_list {A : Type} (v : option A) : list A :=
  match v with Some a => [a] | None => [] end.

(** ** Sanitization *)

(** A character that is neither a quote nor the star of the replacement. *)
Definition plain (c : ascii) : bool :=
  negb (CodeUtils.quote c) && negb (chr_eqb c "*"%char).

(** The end of every sensitive pattern: a quoted, non-empty literal. *)
Definition quoted_literal : Re.regex :=
  [Re.one CodeUtils.quote; Re.plus CodeUtils.not_quote; Re.one CodeUtils.quote].

(** The shape the five patterns share: a part [pre] that begins with a
    required character and takes plain characters only (the keyword, the
    whitespace and the equals sign), then the quoted literal. *)
Definition sensitive_shape (pre p : Re.regex) : Prop :=
  p = pre ++ quoted_literal
  /\ (exists f pre', pre = Re.one f :: pre')
  /\ Forall (fun a => forall c, Re.cls a c = true -> plain c = true) pre.

Definition shaped (p : Re.regex) : Prop := exists pre, sensitive_shape pre p.

(** [t] begins with a quoted literal and [r] is the text after it. *)
Definition literal (t r : str) : Prop :=
  exists q0 a A q,
    t = q0 :: a :: A ++ q :: r
    /\ CodeUtils.quote q0 = true /\ CodeUtils.not_quote a = true
    /\ forallb CodeUtils.not_quote A = true /\ CodeUtils.quote q = true.

(** [v] starts outside quotes and holds a quote: after an opening quote it
    makes a literal. *)
Definition opens_literal (v : str) : Prop :=
  exists a A q r,
    v = a :: A ++ q :: r
    /\ CodeUtils.not_quote a = true /\ forallb CodeUtils.not_quote A = true
    /\ CodeUtils.quote q = true.

(** One turn of the loop of [sanitize_code]. *)
Definition redact (p : Re.regex) (code : str) : str := Re.sub p CodeUtils.REDACTED code.

(** The five patterns without their quoted literal. *)
Definition sensitive_prefixes : list Re.regex :=
  map (fun p => firstn (length p - 3) p) CodeUtils.sensitive_patterns.

(** None of the sensitive patterns matches anywhere in the text. *)
Definition clean (code : str) : Prop :=
  forall p, In p CodeUtils.sensitive_patterns -> Re.found p code = false.

(** ** Example worlds *)

Definition default_settings : Settings :=
  {| OPENAI_API_KEY := None; COHERE_API_KEY := None; ANTHROPIC_API_KEY := None;
     PYLINT_ENABLED := true; ESLINT_ENABLED := true; BANDIT_ENABLED := true;
     MAX_FILE_SIZE_MB := 10 |}.

(** No provider is configured and no tool is installed. *)
Definition offline_world : World :=
  {| settings := default_settings;
     temp_file := fun _ => Return tt;
     subprocess_run := fun _ _ => Raise (OtherException (lit "No such file or directory"));
     loads_pylint := fun _ => NotJSON;
     loads_eslint := fun _ => NotJSON;
     loads_bandit := fun _ => NotJSON;
     provider_call := fun _ _ _ _ => Raise (OtherException (lit "Connection error."));
     loads_ai := fun _ => None |}.

(** The same world with another behaviour of the tool processes. *)
Definition with_tools (run : Tool -> str -> result str)
  (pylint_json : str -> decoded (list PylintItem)) (w : World) : World :=
  {| settings := settings w;
     temp_file := temp_file w;
     subprocess_run := run;
     loads_pylint := pylint_json;
     loads_eslint := loads_eslint w;
     loads_bandit := loads_bandit w;
     provider_call := provider_call w;
     loads_ai := loads_ai w |}.

(** Every tool runs into its timeout. *)
Definition slow_tools_world : World :=
  with_tools (fun _ _ => Raise TimeoutExpired) (fun _ => NotJSON) offline_world.

(** Pylint reports one message of type fatal. *)
Definition fatal_item : PylintItem :=
  {| pl_type := Some (lit "fatal"); pl_line := Some 1%Z; pl_column := Some 0%Z;
     pl_message := Some (lit "Cannot import module"); pl_message_id := Some (lit "F0001") |}.

Definition fatal_world : World :=
  with_tools (fun _ _ => Return (lit "[{...}]")) (fun _ => Decoded [fatal_item])
    offline_world.

(** Pylint reports the fatal message and a warning. *)
Definition warning_item : PylintItem :=
  {| pl_type := Some (lit "warning"); pl_line := Some 2%Z; pl_column := Some 0%Z;
     pl_message := Some (lit "Unused import os"); pl_message_id := Some (lit "W0611") |}.

Definition fatal_warning_world : World :=
  with_tools (fun _ _ => Return (lit "[{...}, {...}]"))
    (fun _ => Decoded [fatal_item; warning_item]) offline_world.

(** Pylint prints its report as text. *)
Definition text_report_world : World :=
  with_tools (fun _ _ => Return (lit "a.py:2: warning : Unused import os"))
    (fun _ => NotJSON) offline_world.

(** The same world with provider keys and another behaviour of the
    providers. *)
Definition with_providers (openai cohere anthropic : option str)
  (call : Provider -> str -> str -> option str -> result str)
  (json : str -> option ai_json) (w : World) : World :=
  {| settings :=
       {| OPENAI_API_KEY := openai; COHERE_API_KEY := cohere;
          ANTHROPIC_API_KEY := anthropic;
          PYLINT_ENABLED := PYLINT_ENABLED (settings w);
          ESLINT_ENABLED := ESLINT_ENABLED (settings w);
          BANDIT_ENABLED := BANDIT_ENABLED (settings w);
          MAX_FILE_SIZE_MB := MAX_FILE_SIZE_MB (settings w) |};
     temp_file := temp_file w;
     subprocess_run := subprocess_run w;
     loads_pylint := loads_pylint w;
     loads_eslint := loads_eslint w;
     loads_bandit := loads_bandit w;
     provider_call := call;
     loads_ai := json |}.

(** A dictionary with a score and nothing else. *)
Definition only_score (score : Q) : AIData :=
  {| ad_score := Some score; ad_issues := None; ad_suggestions := None;
     ad_security_concerns := None; ad_performance_notes := None;
     ad_readability_score := None; ad_maintainability_score := None;
     ad_summary := None; ad_raw_response := None |}.

(** OpenAI is configured and answers every request with a JSON object
    holding the given score. *)
Definition scoring_world (score : Q) : World :=
  with_providers (Some (lit "sk-test")) None None
    (fun _ _ _ _ => Return (lit "{...}"))
    (fun _ => Some (JDict (only_score score)))
    offline_world.

(** Every provider is configured and every call fails. *)
Definition unreachable_world : World :=
  with_providers (Some (lit "sk-test")) (Some (lit "co-test")) (Some (lit "ant-test"))
    (fun _ _ _ _ => Raise (OtherException (lit "Connection error.")))
    (fun _ => None)
    offline_world.

(** OpenAI and Cohere are configured; OpenAI is down, Cohere answers in
    plain text. *)
Definition failover_world : World :=
  with_providers (Some (lit "sk-test")) (Some (lit "co-test")) None
    (fun p _ _ _ =>
       match p with
       | OpenAI => Raise (OtherException (lit "Rate limit reached"))
       | _ => Return (lit "The code looks fine.")
       end)
    (fun _ => None)
    offline_world.

(** Cohere is configured and answers every request with the given text,
    which is not JSON. *)
Definition text_world (answer : str) : World :=
  with_providers None (Some (lit "co-test")) None
    (fun _ _ _ _ => Return answer)
    (fun _ => None)
    offline_world.

(** A recursive Fibonacci function. *)
Definition fibonacci_code : str :=
  AIEngine.text
    [lit "def calculate_fibonacci(n):";
     lit "    if n <= 1:";
     lit "        return n";
     lit "    return calculate_fibonacci(n-1) + calculate_fibonacci(n-2)"].

(** A batch of three samples, the second with empty code. *)
Definition sample (code : string) : FileData :=
  {| fd_code := Some (lit code); fd_language := Some (lit "python");
     fd_file_name := None; fd_context := None |}.

Definition three_samples : BatchReviewRequest :=
  {| batch_files := [sample "print(1)"; sample ""; sample "x = 2"];
     batch_include_static_analysis := true;
     batch_include_ai_analysis := true;
     batch_focus_areas := None |}.

(** A request to review Python code. *)
Definition python_request : CodeReviewRequest :=
  {| req_code := lit "print(1)";
     req_language := PYTHON;
     req_context := None;
     req_file_name := None;
     req_include_static_analysis := true;
     req_include_ai_analysis := true;
     req_focus_areas := Some [lit "security"] |}.

(** A request to review Go code (no static tool applies). *)
Definition go_request : CodeReviewRequest :=
  {| req_code := lit "package main";
     req_language := GO;
     req_context := None;
     req_file_name := None;
     req_include_static_analysis := true;
     req_include_ai_analysis := true;
     req_focus_areas := None |}.

End Spec.

(* ===================================================================== *)
(** * The vocabulary of the further properties *)
(* ===================================================================== *)
Module Terms.

Import PyStr Exc Rounding ReviewModel Env.

(** ** Sanitization *)

(** The words the sensitive patterns begin with or hold. *)
Definition sensitive_words : list string := ["key"; "password"; "secret"; "token"]%string.

(** The number of quote characters of a text. *)
Definition quotes (code : str) : nat := length (filter CodeUtils.quote code).

(** ** The history *)

(** The entry that records a response. *)
Definition history_entry (response : CodeReviewResponse) : ReviewHistory :=
  {| hist_file_name := resp_file_name response;
     hist_language := resp_language response;
     hist_overall_score := resp_overall_score response;
     hist_total_issues := resp_total_issues response;
     hist_summary := resp_summary response |}.

(** A summary as [generate_summary] writes them. *)
Definition generated (summary : str) : Prop :=
  exists issues suggestions score,
    summary = CodeUtils.generate_summary issues suggestions score.

(** What every entry of a history made by reviews satisfies. *)
Definition recorded (entry : ReviewHistory) : Prop :=
  in_range (hist_overall_score entry) = true /\ generated (hist_summary entry).

(** A text that is not empty, does not end with the character [a] and in
    which [a] is nowhere followed by [b], all that in lower case.  Texts
    of this kind can be put one after the other. *)
Definition free_of (a b : ascii) (s : str) : Prop :=
  contains [a; b] (lower s) = false /\ s <> [] /\ last (lower s) " "%char <> a.

(** [d.get(key, 0)] on a dictionary of counts *)
Definition dict_count (key : str) (d : list (str * nat)) : nat :=
  match find (fun entry => str_eqb (fst entry) key) d with
  | Some entry => snd entry
  | None => 0
  end.

(** The order of the recent reviews: [x] is at least as new as [y]. *)
Definition newer_first (x y : Timed) : Prop := (timestamp y <= timestamp x)%Z.

(** ** The parts of a response *)

(** The tools [StaticAnalyzer.analyze_code] runs for a language, in the
    order of their runs. *)
Definition enabled_tools (s : Settings) (language : ProgrammingLanguage) : list Tool :=
  match language with
  | PYTHON =>
      (if PYLINT_ENABLED s then [Pylint] else [])
      ++ (if BANDIT_ENABLED s then [Bandit] else [])
  | JAVASCRIPT | TYPESCRIPT => if ESLINT_ENABLED s then [Eslint] else []
  | _ => []
  end.

(** The static tools behind a response: those of the language, when the
    request asks for the static analysis and the temporary file can be
    written. *)
Definition static_tools (w : World) (request : CodeReviewRequest) : list Tool :=
  if req_include_static_analysis request
     && returns (temp_file w (CodeUtils.sanitize_code (req_code request)))
  then enabled_tools (settings w) (req_language request)
  else [].

(** The issues of an optional result. *)
Definition static_issues (r : option StaticAnalysisResult) : list CodeIssue :=
  match r with Some r => sa_issues r | None => [] end.

Definition ai_issues_of (r : option AIAnalysisResult) : list CodeIssue :=
  match r with Some r => ai_issues r | None => [] end.

(** ** Ratings *)

(** The place of a rating in the order Critical, Poor, Fair, Good,
    Excellent. *)
Definition rating_rank (rating : str) : nat :=
  if str_eqb rating (lit "Excellent") then 4
  else if str_eqb rating (lit "Good") then 3
  else if str_eqb rating (lit "Fair") then 2
  else if str_eqb rating (lit "Poor") then 1
  else 0.

(** ** Text reports *)

(** What an issue read from a text report carries: the name of the tool,
    its message as the suggestion, and neither a rule nor a column. *)
Definition read_from_text (tool : str) (issue : CodeIssue) : Prop :=
  issue_tool issue = Some tool
  /\ issue_suggestion issue = Some (issue_message issue)
  /\ issue_rule_id issue = None
  /\ issue_column issue = None.

(** ** Groups of issues *)

(** [grouped.get(key, [])] *)
Definition group_of (key : IssueType) (grouped : CodeUtils.groups) : list CodeIssue :=
  match find (fun entry => issue_type_eqb (fst entry) key) grouped with
  | Some entry => snd entry
  | None => []
  end.

(** The issues of a type, in the order of the list. *)
Definition of_type (key : IssueType) (issues : list CodeIssue) : list CodeIssue :=
  filter (fun issue => issue_type_eqb (issue_type issue) key) issues.

(** ** What leaves the presenter *)

(** Two worlds that differ at most in what the tools and the providers do
    with a text in which a sensitive pattern matches. *)
Definition same_on_clean (w w' : World) : Prop :=
  settings w = settings w'
  /\ (forall stdout, loads_pylint w stdout = loads_pylint w' stdout)
  /\ (forall stdout, loads_eslint w stdout = loads_eslint w' stdout)
  /\ (forall stdout, loads_bandit w stdout = loads_bandit w' stdout)
  /\ (forall content, loads_ai w content = loads_ai w' content)
  /\ forall code,
       Spec.clean code ->
       temp_file w code = temp_file w' code
       /\ (forall t, subprocess_run w t code = subprocess_run w' t code)
       /\ (forall p language context,
             provider_call w p code language context
             = provider_call w' p code language context).

(** ** Examples *)

(** The history after one review, every entry stamped with the time 0. *)
Definition one_review : list Timed :=
  map (pair 0%Z)
    (snd (ReviewPresenter.review_code Spec.offline_world [] Spec.python_request)).

(** OpenAI answers with an issue whose severity is capitalized. *)
Definition capitalized_issue : IssueData :=
  {| id_type := Some (lit "performance_issue");
     id_severity := Some (lit "High");
     id_line := Some 3%Z;
     id_message := Some (lit "Nested loops over the same list");
     id_suggestion := None |}.

Definition capitalized_answer : AIData :=
  {| ad_score := Some 7; ad_issues := Some [capitalized_issue]; ad_suggestions := None;
     ad_security_concerns := None; ad_performance_notes := None;
     ad_readability_score := None; ad_maintainability_score := None;
     ad_summary := None; ad_raw_response := None |}.

Definition capitalized_world : World :=
  Spec.with_providers (Some (lit "sk-test")) None None
    (fun _ _ _ _ => Return (lit "{...}"))
    (fun _ => Some (JDict capitalized_answer))
    Spec.offline_world.

(** Every provider is configured and answers only when it is sent a text
    with a password in it. *)
Definition password_pattern : Re.regex :=
  Re.iword "password" ++ CodeUtils.assigned_literal.

Definition eavesdropping_world : World :=
  Spec.with_providers (Some (lit "sk-test")) (Some (lit "co-test")) (Some (lit "ant-test"))
    (fun _ code _ _ =>
       if Re.found password_pattern code then Return (lit "{...}")
       else Raise (OtherException (lit "Connection error.")))
    (fun _ => None)
    Spec.offline_world.

End Terms.

Import PyStr Exc Rounding ReviewModel Env.

(* ===================================================================== *)
(** * Facts about the rational scores *)
(* ===================================================================== *)
Module QFacts.
Local Open Scope Q_scope.

Lemma Qleb_le (a b : Q) : Qleb a b = true <-> a <= b.
Proof. unfold Qleb. apply Qle_bool_iff. Qed.

Lemma fold_Qplus_shift (xs : list Q) (a : Q) :
  fold_left Qplus xs a == a + fold_left Qplus xs 0.
Proof.
  revert a. induction xs as [|x xs IH]; intros a; simpl.
  - ring.
  - rewrite (IH (a + x)), (IH (0 + x)). ring.
Qed.

Lemma Qsum_cons (x : Q) (xs : list Q) : Qsum (x :: xs) == x + Qsum xs.
Proof.
  unfold Qsum. simpl. rewrite fold_Qplus_shift. ring.
Qed.

Lemma Qsum_app (xs ys : list Q) : Qsum (xs ++ ys) == Qsum xs + Qsum ys.
Proof.
  induction xs as [|x xs IH]; simpl.
  - unfold Qsum at 2. simpl. ring.
  - rewrite !Qsum_cons, IH. ring.
Qed.

Lemma Qsum_nonneg (xs : list Q) : (forall x, In x xs -> 0 <= x) -> 0 <= Qsum xs.
Proof.
  induction xs as [|x xs IH]; intros H.
  - unfold Qsum. simpl. apply Qle_refl.
  - rewrite Qsum_cons.
    assert (0 <= x) by (apply H; left; reflexivity).
    assert (0 <= Qsum xs) by (apply IH; intros y Hy; apply H; right; exact Hy).
    lra.
Qed.

Lemma Qmax_case (a b : Q) : (a <= b /\ Qmax a b = b) \/ (b < a /\ Qmax a b = a).
Proof.
  unfold Qmax. destruct (Qle_bool a b) eqn:E.
  - left. split; [apply Qle_bool_iff; exact E | reflexivity].
  - right. split; [|reflexivity].
    apply Qnot_le_lt. intro H. apply Qle_bool_iff in H. congruence.
Qed.

Lemma Qmax_floor (x : Q) : 0 <= Qmax 0 x.
Proof. destruct (Qmax_case 0 x) as [[H E]|[H E]]; rewrite E; lra. Qed.

Lemma Qmax_ceiling (x b : Q) : 0 <= b -> x <= b -> Qmax 0 x <= b.
Proof. intros Hb Hx. destruct (Qmax_case 0 x) as [[H E]|[H E]]; rewrite E; lra. Qed.

Lemma Qmax_mono (x y : Q) : x <= y -> Qmax 0 x <= Qmax 0 y.
Proof.
  intros Hxy.
  destruct (Qmax_case 0 x) as [[H E]|[H E]]; rewrite E;
    destruct (Qmax_case 0 y) as [[H' E']|[H' E']]; rewrite E'; lra.
Qed.

Lemma in_range_iff (x : Q) : in_range x = true <-> 0 <= x <= 10.
Proof.
  unfold in_range. rewrite andb_true_iff, !Qleb_le. reflexivity.
Qed.

End QFacts.

(* ===================================================================== *)
(** * Facts about the scoring loops *)
(* ===================================================================== *)
Module StaticFacts.
Local Open Scope Q_scope.
Import StaticAnalyzer Spec QFacts.

(** The scoring loops subtract one deduction and add one issue per entry. *)
Section Loop.
Variables (A : Type) (issue_of : A -> CodeIssue) (deduction : A -> Q).

Lemma loop_score (xs : list A) (st : loop_state) :
  snd (fold_left (loop_step issue_of deduction) xs st)
  == snd st - Qsum (map deduction xs).
Proof.
  revert st. induction xs as [|x xs IH]; intros st; simpl.
  - unfold Qsum; simpl. ring.
  - rewrite IH, Qsum_cons. unfold loop_step; simpl. ring.
Qed.

Lemma loop_issues (xs : list A) (st : loop_state) :
  fst (fold_left (loop_step issue_of deduction) xs st) = fst st ++ map issue_of xs.
Proof.
  revert st. induction xs as [|x xs IH]; intros st; simpl.
  - now rewrite app_nil_r.
  - rewrite IH. unfold loop_step; simpl. now rewrite <- app_assoc.
Qed.

End Loop.

Lemma eslint_loop_score (files : list EslintFile) (st : loop_state) :
  snd (fold_left eslint_file_step files st)
  == snd st - Qsum (flat_map (fun f => map eslint_deduction (get_or (ef_messages f) [])) files).
Proof.
  revert st. induction files as [|f files IH]; intros st; simpl.
  - unfold Qsum; simpl. ring.
  - rewrite IH, Qsum_app. unfold eslint_file_step.
    change eslint_step with (loop_step eslint_issue eslint_deduction).
    rewrite (loop_score eslint_issue eslint_deduction). ring.
Qed.

Lemma eslint_loop_issues (files : list EslintFile) (st : loop_state) :
  fst (fold_left eslint_file_step files st)
  = fst st ++ flat_map (fun f => map eslint_issue (get_or (ef_messages f) [])) files.
Proof.
  revert st. induction files as [|f files IH]; intros st; simpl.
  - now rewrite app_nil_r.
  - rewrite IH. unfold eslint_file_step.
    change eslint_step with (loop_step eslint_issue eslint_deduction).
    rewrite (loop_issues eslint_issue eslint_deduction). now rewrite <- app_assoc.
Qed.

Lemma pylint_deduction_table (item : PylintItem) :
  pylint_deduction item = weight_of pylint_weights (pl_type item).
Proof.
  unfold pylint_deduction, weight_of, same. destruct (pl_type item) as [t|]; [|reflexivity].
  simpl.
  repeat match goal with
         | |- context [str_eqb t ?x] => destruct (str_eqb t x); simpl
         end; reflexivity.
Qed.

Lemma bandit_deduction_table (item : BanditItem) :
  bandit_deduction item
  = weight_of bandit_weights (Some (get_or (bi_issue_severity item) (lit "MEDIUM"))).
Proof.
  unfold bandit_deduction, weight_of, same. simpl.
  repeat match goal with
         | |- context [str_eqb ?t ?x] => destruct (str_eqb t x); simpl
         end; reflexivity.
Qed.

Lemma weight_of_nonneg (table : list (string * Q)) (class : option str) :
  (forall e, In e table -> 0 <= snd e) -> 0 <= weight_of table class.
Proof.
  intros H. unfold weight_of. destruct class as [c|]; [|apply Qle_refl].
  destruct (find _ table) as [e|] eqn:E; [|apply Qle_refl].
  apply find_some in E. apply H, E.
Qed.

Lemma pylint_deduction_nonneg (item : PylintItem) : 0 <= pylint_deduction item.
Proof.
  rewrite pylint_deduction_table. apply weight_of_nonneg.
  intros e He. simpl in He.
  repeat (destruct He as [<-|He]; [simpl; lra|]). destruct He.
Qed.

Lemma bandit_deduction_nonneg (item : BanditItem) : 0 <= bandit_deduction item.
Proof.
  rewrite bandit_deduction_table. apply weight_of_nonneg.
  intros e He. simpl in He.
  repeat (destruct He as [<-|He]; [simpl; lra|]). destruct He.
Qed.

Lemma eslint_deduction_nonneg (m : EslintMessage) : 0 <= eslint_deduction m.
Proof.
  unfold eslint_deduction. destruct (es_severity m) as [s|]; [|lra].
  destruct (s =? 2)%Z; [lra|]. destruct (s =? 1)%Z; lra.
Qed.

Lemma report_deductions_nonneg (w : World) (t : Tool) (stdout : str) (ds : list Q) :
  report_deductions w t stdout = Some ds -> forall d, In d ds -> 0 <= d.
Proof.
  unfold report_deductions. intros H d Hd. destruct t.
  - destruct (loads_pylint w stdout); try discriminate. injection H as <-.
    apply in_map_iff in Hd as [x [<- _]]. apply pylint_deduction_nonneg.
  - destruct (loads_eslint w stdout); try discriminate. injection H as <-.
    apply in_flat_map in Hd as [f [_ Hd]].
    apply in_map_iff in Hd as [x [<- _]]. apply eslint_deduction_nonneg.
  - destruct (loads_bandit w stdout); try discriminate. injection H as <-.
    apply in_map_iff in Hd as [x [<- _]]. apply bandit_deduction_nonneg.
Qed.

End StaticFacts.

(* ===================================================================== *)
(** * Facts about the tool runners *)
(* ===================================================================== *)
Module RunnerFacts.
Local Open Scope Q_scope.
Import StaticAnalyzer Spec QFacts StaticFacts.

Lemma new_result_ok (tool : str) (issues : list CodeIssue) (score : Q) (summary : str) :
  in_range score = true ->
  new_StaticAnalysisResult tool issues score summary
  = Return {| sa_tool := tool; sa_issues := issues; sa_score := score;
              sa_summary := summary |}.
Proof. intros H. unfold new_StaticAnalysisResult, check. now rewrite H. Qed.

Lemma new_result_inv (tool : str) (issues : list CodeIssue) (score : Q) (summary : str)
  (r : StaticAnalysisResult) :
  new_StaticAnalysisResult tool issues score summary = Return r ->
  in_range score = true
  /\ r = {| sa_tool := tool; sa_issues := issues; sa_score := score; sa_summary := summary |}.
Proof.
  unfold new_StaticAnalysisResult, check. destruct (in_range score); simpl; [|discriminate].
  intros [= <-]. now split.
Qed.

Lemma five_in_range : in_range 5 = true.
Proof. reflexivity. Qed.

(** What the [except] clauses return. *)
Lemma handler_timeout (w : World) (t : Tool) (file_path : str) :
  (match t with
   | Pylint => _run_pylint_try w file_path
   | Eslint => _run_eslint_try w file_path
   | Bandit => _run_bandit_try w file_path
   end) = Raise TimeoutExpired ->
  run_tool w t file_path
  = Return (neutral t (tool_title t ++ lit " analysis timed out")).
Proof.
  intros H. destruct t; simpl; unfold _run_pylint, _run_eslint, _run_bandit;
    rewrite H; reflexivity.
Qed.

Lemma handler_failed (w : World) (t : Tool) (file_path : str) (e : exn) :
  e <> TimeoutExpired ->
  (match t with
   | Pylint => _run_pylint_try w file_path
   | Eslint => _run_eslint_try w file_path
   | Bandit => _run_bandit_try w file_path
   end) = Raise e ->
  run_tool w t file_path
  = Return (neutral t (tool_title t ++ lit " analysis failed: " ++ exn_str e)).
Proof.
  intros Hne H. destruct t; simpl; unfold _run_pylint, _run_eslint, _run_bandit;
    rewrite H; simpl; destruct e; try reflexivity; contradiction.
Qed.

Lemma try_raises_with_process (w : World) (t : Tool) (file_path : str) (e : exn) :
  subprocess_run w t file_path = Raise e ->
  (match t with
   | Pylint => _run_pylint_try w file_path
   | Eslint => _run_eslint_try w file_path
   | Bandit => _run_bandit_try w file_path
   end) = Raise e.
Proof.
  intros H. destruct t; unfold _run_pylint_try, _run_eslint_try, _run_bandit_try;
    rewrite H; reflexivity.
Qed.

(** A runner returns whatever happens in its [try]. *)
Lemma run_tool_returns (w : World) (t : Tool) (file_path : str) :
  exists r, run_tool w t file_path = Return r /\ in_range (sa_score r) = true.
Proof.
  destruct t; simpl; unfold _run_pylint, _run_eslint, _run_bandit.
  - destruct (_run_pylint_try w file_path) as [r|e] eqn:E; simpl.
    + exists r. split; [reflexivity|].
      unfold _run_pylint_try in E.
      destruct (subprocess_run w Pylint file_path); simpl in E; [|discriminate].
      match type of E with (bind ?m _ = _) => destruct m; simpl in E; [|discriminate] end.
      apply new_result_inv in E as [H ->]. exact H.
    + destruct e; eexists; (split; [reflexivity|reflexivity]).
  - destruct (_run_eslint_try w file_path) as [r|e] eqn:E; simpl.
    + exists r. split; [reflexivity|].
      unfold _run_eslint_try in E.
      destruct (subprocess_run w Eslint file_path); simpl in E; [|discriminate].
      match type of E with (bind ?m _ = _) => destruct m; simpl in E; [|discriminate] end.
      apply new_result_inv in E as [H ->]. exact H.
    + destruct e; eexists; (split; [reflexivity|reflexivity]).
  - destruct (_run_bandit_try w file_path) as [r|e] eqn:E; simpl.
    + exists r. split; [reflexivity|].
      unfold _run_bandit_try in E.
      destruct (subprocess_run w Bandit file_path); simpl in E; [|discriminate].
      match type of E with (bind ?m _ = _) => destruct m; simpl in E; [|discriminate] end.
      apply new_result_inv in E as [H ->]. exact H.
    + destruct e; eexists; (split; [reflexivity|reflexivity]).
Qed.

Lemma floor_in_range (x : Q) : x <= 10 -> in_range (Qmax 0 x) = true.
Proof.
  intros H. apply in_range_iff. split; [apply Qmax_floor|apply Qmax_ceiling; lra].
Qed.

(** The score of a completed run is ten less the deductions, floored. *)
Lemma run_tool_scored (w : World) (t : Tool) (file_path : str) (ds : list Q) :
  reports w t file_path ds ->
  exists r,
    run_tool w t file_path = Return r
    /\ sa_score r == Qmax 0 (10 - Qsum ds)
    /\ length (sa_issues r) = length ds.
Proof.
  intros [stdout [Hrun [Hne Hrep]]].
  assert (Hpos : forall d, In d ds -> 0 <= d) by (eapply report_deductions_nonneg; eauto).
  assert (Hsum : 0 <= Qsum ds) by (apply Qsum_nonneg; exact Hpos).
  assert (Qmax_eq : forall x y, x == y -> Qmax 0 x == Qmax 0 y).
  { intros x y Hxy. apply Qle_antisym; apply Qmax_mono; rewrite Hxy; apply Qle_refl. }
  unfold report_deductions in Hrep.
  destruct t; simpl; unfold _run_pylint, _run_eslint, _run_bandit,
    _run_pylint_try, _run_eslint_try, _run_bandit_try; rewrite Hrun; simpl; rewrite Hne.
  - destruct (loads_pylint w stdout) as [| |items]; try discriminate.
    injection Hrep as <-. simpl.
    pose proof (loop_score pylint_issue pylint_deduction items start) as Hs.
    pose proof (loop_issues pylint_issue pylint_deduction items start) as Hi.
    rewrite new_result_ok.
    + eexists; split; [reflexivity|]. simpl. split.
      * apply Qmax_eq. exact Hs.
      * change pylint_step with (loop_step pylint_issue pylint_deduction).
        rewrite Hi. simpl. now rewrite !length_map.
    + apply floor_in_range.
      change pylint_step with (loop_step pylint_issue pylint_deduction).
      rewrite Hs. simpl. lra.
  - destruct (loads_eslint w stdout) as [| |files]; try discriminate.
    injection Hrep as <-. simpl.
    pose proof (eslint_loop_score files start) as Hs.
    pose proof (eslint_loop_issues files start) as Hi.
    rewrite new_result_ok.
    + eexists; split; [reflexivity|]. simpl. split.
      * apply Qmax_eq. exact Hs.
      * rewrite Hi. simpl. clear. induction files as [|f files IH]; simpl; [reflexivity|].
        now rewrite !length_app, !length_map, IH.
    + apply floor_in_range. rewrite Hs. simpl. lra.
  - destruct (loads_bandit w stdout) as [| |data]; try discriminate.
    injection Hrep as <-. simpl.
    pose proof (loop_score bandit_issue bandit_deduction (get_or (bd_results data) []) start)
      as Hs.
    pose proof (loop_issues bandit_issue bandit_deduction (get_or (bd_results data) []) start)
      as Hi.
    rewrite new_result_ok.
    + eexists; split; [reflexivity|]. simpl. split.
      * apply Qmax_eq. exact Hs.
      * change bandit_step with (loop_step bandit_issue bandit_deduction).
        rewrite Hi. simpl. now rewrite !length_map.
    + apply floor_in_range.
      change bandit_step with (loop_step bandit_issue bandit_deduction).
      rewrite Hs. simpl. lra.
Qed.

(** Issues recovered from output that is not JSON leave the score at 10. *)
Lemma run_tool_text (w : World) (t : Tool) (file_path : str) (issues : list CodeIssue) :
  prints_text w t file_path issues ->
  exists r,
    run_tool w t file_path = Return r /\ sa_score r = 10 /\ sa_issues r = issues.
Proof.
  intros [stdout [Hrun [Hne Htext]]].
  destruct t; destruct Htext as [Hjson ->]; simpl;
    unfold _run_pylint, _run_eslint, _run_bandit,
      _run_pylint_try, _run_eslint_try, _run_bandit_try;
    rewrite Hrun; simpl; rewrite Hne, Hjson; simpl;
    eexists; repeat split.
Qed.

End RunnerFacts.

(* ===================================================================== *)
(** * Claims about the static tools *)
(* ===================================================================== *)
Section StaticToolClaims.
Local Open Scope Q_scope.
Import StaticAnalyzer Spec QFacts StaticFacts RunnerFacts.

(** C4 (as the code has it).  Every tool run gives a score in [0,10].  When
    the tool printed a JSON report, the score starts at 10, loses one
    deduction per entry and is floored at 0, with one issue per entry; the
    deductions are never negative, so a report extended by further
    entries never scores higher.  The deduction of an entry is fixed by
    the tool's own class of the entry: for Pylint error and fatal 2,
    warning 1, refactor 0.5, any other type 0; for Bandit HIGH 3, MEDIUM 2
    (also when the severity is absent), LOW 1, any other severity 0. *)
Theorem tool_score_by_deductions (w : World) (t : Tool) (file_path : str) :
  (exists r, run_tool w t file_path = Return r /\ 0 <= sa_score r <= 10)
  /\ (forall ds,
        reports w t file_path ds ->
        exists r,
          run_tool w t file_path = Return r
          /\ sa_score r == Qmax 0 (10 - Qsum ds)
          /\ length (sa_issues r) = length ds
          /\ (forall d, In d ds -> 0 <= d))
  /\ (forall w' file_path' ds more r r',
        reports w t file_path ds ->
        reports w' t file_path' (ds ++ more) ->
        run_tool w t file_path = Return r ->
        run_tool w' t file_path' = Return r' ->
        sa_score r' <= sa_score r)
  /\ (forall item, pylint_deduction item = weight_of pylint_weights (pl_type item))
  /\ (forall item,
        bandit_deduction item
        = weight_of bandit_weights (Some (get_or (bi_issue_severity item) (lit "MEDIUM")))).
Proof.
  split; [|split; [|split; [|split]]].
  - destruct (run_tool_returns w t file_path) as [r [Hr Hin]].
    exists r. split; [exact Hr|]. apply in_range_iff. exact Hin.
  - intros ds Hrep.
    destruct (run_tool_scored Hrep) as [r [Hr [Hs Hl]]].
    exists r. repeat split; try assumption.
    destruct Hrep as [stdout [_ [_ Hd]]]. eapply report_deductions_nonneg; eauto.
  - intros w' file_path' ds more r r' Hrep Hrep' Hr Hr'.
    destruct (run_tool_scored Hrep) as [r0 [Hr0 [Hs _]]].
    destruct (run_tool_scored Hrep') as [r0' [Hr0' [Hs' _]]].
    rewrite Hr in Hr0. injection Hr0 as <-.
    rewrite Hr' in Hr0'. injection Hr0' as <-.
    rewrite Hs, Hs'. apply Qmax_mono. rewrite Qsum_app.
    assert (0 <= Qsum more).
    { apply Qsum_nonneg. intros d Hd.
      destruct Hrep' as [stdout [_ [_ Hd']]].
      eapply report_deductions_nonneg; [exact Hd'|]. apply in_or_app. now right. }
    lra.
  - apply pylint_deduction_table.
  - apply bandit_deduction_table.
Qed.

(** The theorem at work: Pylint reports one fatal message, the score is 8;
    with a warning more the score is not higher. *)
Lemma tool_score_by_deductions_witness :
  reports fatal_world Pylint (lit "import os") [2]
  /\ reports fatal_warning_world Pylint (lit "import os") ([2] ++ [1])
  /\ (exists r,
        run_tool fatal_world Pylint (lit "import os") = Return r
        /\ sa_score r == Qmax 0 (10 - Qsum [2])
        /\ length (sa_issues r) = 1%nat)
  /\ (forall r r',
        run_tool fatal_world Pylint (lit "import os") = Return r ->
        run_tool fatal_warning_world Pylint (lit "import os") = Return r' ->
        sa_score r' <= sa_score r).
Proof.
  assert (H : reports fatal_world Pylint (lit "import os") [2]).
  { exists (lit "[{...}]"). repeat split; reflexivity. }
  assert (H' : reports fatal_warning_world Pylint (lit "import os") ([2] ++ [1])).
  { exists (lit "[{...}, {...}]"). repeat split; reflexivity. }
  pose proof (tool_score_by_deductions fatal_world Pylint (lit "import os"))
    as [_ [Hscore [Hmono _]]].
  split; [exact H|]. split; [exact H'|]. split.
  - destruct (Hscore [2] H) as [r [Hr [Hs [Hl _]]]].
    exists r. repeat split; assumption.
  - intros r r' Hr Hr'.
    exact (Hmono fatal_warning_world (lit "import os") [2] [1] r r' H H' Hr Hr').
Defined.

(** C4 as worded fails: a fatal Pylint message is reported with severity
    critical and costs 2, not 3. *)
Lemma severity_weights_counterexample :
  exists r,
    run_tool fatal_world Pylint (lit "import os") = Return r
    /\ map issue_severity (sa_issues r) = [CRITICAL]
    /\ sa_score r == 8
    /\ spec_tool_score (sa_issues r) == 7
    /\ ~ sa_score r == spec_tool_score (sa_issues r).
Proof.
  eexists. split; [reflexivity|]. repeat split.
  vm_compute. discriminate.
Qed.

(** C5.  A tool that runs into its timeout gives the neutral result: score
    5.0, no issues, status timed out (the summary says that the analysis
    timed out).  A tool whose process fails in any other way gives the
    same neutral score and no issues, with status failed (the summary says
    that the analysis failed, and why).  Whatever happens, the runner
    returns a result and raises nothing. *)
Theorem tool_failure_is_neutral (w : World) (t : Tool) (file_path : str) :
  (subprocess_run w t file_path = Raise TimeoutExpired ->
   exists r,
     run_tool w t file_path = Return r
     /\ r = {| sa_tool := tool_field t; sa_issues := []; sa_score := 5;
               sa_summary := tool_title t ++ lit " analysis timed out" |}
     /\ status_of t r = timed_out)
  /\ (forall e,
        e <> TimeoutExpired ->
        subprocess_run w t file_path = Raise e ->
        exists r,
          run_tool w t file_path = Return r
          /\ r = {| sa_tool := tool_field t; sa_issues := []; sa_score := 5;
                    sa_summary := tool_title t ++ lit " analysis failed: " ++ exn_str e |}
          /\ status_of t r = failed)
  /\ (exists r, run_tool w t file_path = Return r).
Proof.
  split; [|split].
  - intros H. eexists. split; [|split; [reflexivity|]].
    + apply handler_timeout. apply try_raises_with_process. exact H.
    + destruct t; reflexivity.
  - intros e Hne H. eexists. split; [|split; [reflexivity|]].
    + apply handler_failed; [exact Hne|]. apply try_raises_with_process. exact H.
    + destruct t; reflexivity.
  - destruct (run_tool_returns w t file_path) as [r [Hr _]]. now exists r.
Qed.

(** The theorem at work: a timeout of Pylint, and Bandit not installed. *)
Lemma tool_failure_is_neutral_witness :
  (exists r,
     run_tool slow_tools_world Pylint (lit "import os") = Return r
     /\ sa_score r = 5 /\ sa_issues r = [] /\ status_of Pylint r = timed_out)
  /\ (exists r,
        run_tool offline_world Bandit (lit "import os") = Return r
        /\ sa_score r = 5 /\ sa_issues r = [] /\ status_of Bandit r = failed).
Proof.
  split.
  - destruct (proj1 (tool_failure_is_neutral slow_tools_world Pylint (lit "import os")))
      as [r [Hr [-> Hs]]]; [reflexivity|].
    eexists. split; [exact Hr|]. split; [reflexivity|]. split; [reflexivity|exact Hs].
  - destruct (proj1 (proj2 (tool_failure_is_neutral offline_world Bandit (lit "import os")))
                (OtherException (lit "No such file or directory")))
      as [r [Hr [-> Hs]]]; [discriminate|reflexivity|].
    eexists. split; [exact Hr|]. split; [reflexivity|]. split; [reflexivity|exact Hs].
Defined.

End StaticToolClaims.

(* ===================================================================== *)
(** * Facts about rounding and means *)
(* ===================================================================== *)
Module RoundingFacts.
Local Open Scope Q_scope.
Import QFacts.

Lemma round_half_even_proper (x y : Q) : x == y -> round_half_even x = round_half_even y.
Proof.
  intros H. unfold round_half_even.
  rewrite (Qfloor_comp _ _ H).
  assert (E : Qcompare (x - inject_Z (Qfloor y)) (1 # 2)
              = Qcompare (y - inject_Z (Qfloor y)) (1 # 2)).
  { apply Qcompare_comp; [rewrite H; reflexivity | reflexivity]. }
  rewrite E. reflexivity.
Qed.

Lemma round2_proper (x y : Q) : x == y -> round2 x = round2 y.
Proof.
  intros H. unfold round2. apply Qred_complete.
  rewrite (@round_half_even_proper (x * 100) (y * 100)); [reflexivity|].
  rewrite H. reflexivity.
Qed.

Lemma round_half_even_bounds (y : Q) (lo hi : Z) :
  inject_Z lo <= y <= inject_Z hi ->
  (lo <= round_half_even y <= hi)%Z.
Proof.
  intros [Hlo Hhi].
  pose proof (Qfloor_le y) as Hf.
  pose proof (Qlt_floor y) as Hf'.
  assert (Hlo' : (lo <= Qfloor y)%Z).
  { rewrite <- (Qfloor_Z lo). apply Qfloor_resp_le. exact Hlo. }
  assert (Hhi' : (Qfloor y <= hi)%Z).
  { rewrite Zle_Qle. lra. }
  assert (Hup : inject_Z (Qfloor y) < y -> (Qfloor y + 1 <= hi)%Z).
  { intros Hlt. assert (inject_Z (Qfloor y) < inject_Z hi) by lra.
    rewrite <- Zlt_Qlt in H. lia. }
  unfold round_half_even.
  destruct (Qcompare (y - inject_Z (Qfloor y)) (1 # 2)) eqn:C.
  - apply Qeq_alt in C.
    destruct (Z.even (Qfloor y)); [lia|].
    split; [lia|]. apply Hup. lra.
  - lia.
  - apply Qgt_alt in C. split; [lia|]. apply Hup. lra.
Qed.

Lemma round2_bounds (x : Q) : 0 <= x <= 10 -> 0 <= round2 x <= 10.
Proof.
  intros [H0 H10]. unfold round2. rewrite Qred_correct.
  destruct (@round_half_even_bounds (x * 100) 0 1000) as [Hl Hh].
  { change (inject_Z 0) with 0. change (inject_Z 1000) with 1000. lra. }
  rewrite Zle_Qle in Hl, Hh.
  change (inject_Z 0) with 0 in Hl. change (inject_Z 1000) with 1000 in Hh.
  split.
  - apply Qle_shift_div_l; lra.
  - apply Qle_shift_div_r; lra.
Qed.

Lemma Qsum_bounds (xs : list Q) (lo hi : Q) :
  (forall x, In x xs -> lo <= x <= hi) ->
  lo * inject_Z (Z.of_nat (length xs)) <= Qsum xs <= hi * inject_Z (Z.of_nat (length xs)).
Proof.
  induction xs as [|x xs IH]; intros H.
  - unfold Qsum; simpl. change (inject_Z 0) with 0. lra.
  - rewrite Qsum_cons.
    assert (Hx : lo <= x <= hi) by (apply H; now left).
    assert (IH' := IH (fun y Hy => H y (or_intror Hy))).
    change (length (x :: xs)) with (S (length xs)).
    rewrite Nat2Z.inj_succ. unfold Z.succ. rewrite inject_Z_plus.
    change (inject_Z 1) with 1. lra.
Qed.

Lemma mean_or_bounds (xs : list Q) (d lo hi : Q) :
  lo <= d <= hi ->
  (forall x, In x xs -> lo <= x <= hi) ->
  lo <= Spec.mean_or d xs <= hi.
Proof.
  intros Hd H. destruct xs as [|x xs]; [exact Hd|].
  unfold Spec.mean_or.
  pose proof (@Qsum_bounds (x :: xs) lo hi H) as [Hl Hh].
  assert (Hn : 0 < inject_Z (Z.of_nat (length (x :: xs)))).
  { change 0 with (inject_Z 0). rewrite <- Zlt_Qlt. simpl. lia. }
  split.
  - apply Qle_shift_div_l; assumption.
  - apply Qle_shift_div_r; assumption.
Qed.

End RoundingFacts.

(* ===================================================================== *)
(** * Facts about the scores of a review *)
(* ===================================================================== *)
Module ScoreFacts.
Local Open Scope Q_scope.
Import Spec QFacts RoundingFacts RunnerFacts CodeUtils ReviewPresenter.

Lemma calculate_overall_score_spec (static_scores : list Q) (ai_score : Q) :
  calculate_overall_score static_scores ai_score
  = if negb (nonempty static_scores) && Qeqb ai_score 0 then 5
    else spec_overall_score static_scores (Some ai_score).
Proof.
  unfold calculate_overall_score, spec_overall_score, mean_or.
  destruct static_scores as [|s ss]; simpl.
  - destruct (Qeqb ai_score 0); [reflexivity|]. apply round2_proper. ring.
  - apply round2_proper. ring.
Qed.

Lemma calculate_overall_score_bounds (static_scores : list Q) (ai_score : Q) :
  (forall s, In s static_scores -> 0 <= s <= 10) ->
  0 <= ai_score <= 10 ->
  0 <= calculate_overall_score static_scores ai_score <= 10.
Proof.
  intros HS Ha. rewrite calculate_overall_score_spec.
  destruct (negb (nonempty static_scores) && Qeqb ai_score 0); [lra|].
  unfold spec_overall_score. apply round2_bounds.
  assert (Hm : 0 <= mean_or 5 static_scores <= 10) by (apply mean_or_bounds; [lra|exact HS]).
  lra.
Qed.

(** The static results that reach the presenter carry validated scores. *)
Lemma run_if_in_range (enabled : bool) (run : result StaticAnalysisResult)
  (results results' : list StaticAnalysisResult) :
  (forall r, run = Return r -> in_range (sa_score r) = true) ->
  (forall r, In r results -> in_range (sa_score r) = true) ->
  StaticAnalyzer.run_if enabled run results = Return results' ->
  forall r, In r results' -> in_range (sa_score r) = true.
Proof.
  intros Hrun Hres. unfold StaticAnalyzer.run_if. destruct enabled.
  - destruct run as [x|e]; simpl; [|discriminate]. intros [= <-] r Hr.
    apply in_app_or in Hr as [Hr|[<-|[]]]; [now apply Hres | now apply Hrun].
  - intros [= <-]. exact Hres.
Qed.

Lemma run_tool_in_range (w : World) (t : Tool) (file_path : str) (r : StaticAnalysisResult) :
  run_tool w t file_path = Return r -> in_range (sa_score r) = true.
Proof.
  intros H. destruct (run_tool_returns w t file_path) as [r' [Hr' Hin]].
  rewrite H in Hr'. now injection Hr' as <-.
Qed.

Lemma analyze_code_in_range (w : World) (code : str) (language : ProgrammingLanguage)
  (file_name : option str) (results : list StaticAnalysisResult) :
  StaticAnalyzer.analyze_code w code language file_name = Return results ->
  forall r, In r results -> in_range (sa_score r) = true.
Proof.
  unfold StaticAnalyzer.analyze_code.
  destruct (temp_file w code); simpl; [|discriminate].
  assert (Hnil : forall r : StaticAnalysisResult, In r [] -> in_range (sa_score r) = true)
    by (intros r []).
  destruct language; try (intros [= <-]; exact Hnil).
  - destruct (StaticAnalyzer.run_if _ (StaticAnalyzer._run_pylint w code) [])
      as [rs|e] eqn:E1; simpl; [|discriminate].
    intros E2.
    eapply run_if_in_range; [| |exact E2].
    + apply (@run_tool_in_range w Bandit code).
    + eapply run_if_in_range; [| |exact E1]; [apply (@run_tool_in_range w Pylint code)|exact Hnil].
  - intros E. eapply run_if_in_range; [| |exact E];
      [apply (@run_tool_in_range w Eslint code)|exact Hnil].
  - intros E. eapply run_if_in_range; [| |exact E];
      [apply (@run_tool_in_range w Eslint code)|exact Hnil].
Qed.

Lemma static_phase_in_range (w : World) (request : CodeReviewRequest) (code : str)
  (r : StaticAnalysisResult) :
  In r (static_phase w request code) -> 0 <= sa_score r <= 10.
Proof.
  unfold static_phase. destruct (req_include_static_analysis request); [|intros []].
  destruct (StaticAnalyzer.analyze_code _ _ _ _) as [rs|e] eqn:E; [|intros []].
  intros Hr. apply in_range_iff. eapply analyze_code_in_range; eauto.
Qed.

Lemma new_AIAnalysisResult_inv score issues suggestions concerns notes readability
  maintainability summary raw (r : AIAnalysisResult) :
  new_AIAnalysisResult score issues suggestions concerns notes readability maintainability
    summary raw = Return r ->
  in_range score = true /\ ai_score r = score /\ ai_issues r = issues
  /\ ai_suggestions r = suggestions /\ ai_security_concerns r = concerns.
Proof.
  unfold new_AIAnalysisResult, check.
  destruct (in_range score); simpl; [|discriminate].
  destruct (in_range readability); simpl; [|discriminate].
  destruct (in_range maintainability); simpl; [|discriminate].
  intros [= <-]. simpl. repeat split.
Qed.

Lemma convert_in_range (j : ai_json) (r : AIAnalysisResult) :
  _convert_ai_analysis j = Return r -> in_range (ai_score r) = true.
Proof.
  destruct j as [d|]; simpl; [|discriminate].
  destruct (mapM _convert_ai_issue _); simpl; [|discriminate].
  destruct (mapM _convert_ai_suggestion _); simpl; [|discriminate].
  destruct (mapM _convert_security_concern _); simpl; [|discriminate].
  intros H. apply new_AIAnalysisResult_inv in H as [H [-> _]]. exact H.
Qed.

Lemma convert_rejects_score (d : AIData) (x : Q) :
  ad_score d = Some x -> in_range x = false ->
  returns (_convert_ai_analysis (JDict d)) = false.
Proof.
  intros Hs Hx. simpl.
  destruct (mapM _convert_ai_issue _); simpl; [|reflexivity].
  destruct (mapM _convert_ai_suggestion _); simpl; [|reflexivity].
  destruct (mapM _convert_security_concern _); simpl; [|reflexivity].
  unfold new_AIAnalysisResult, check. rewrite Hs. simpl. unfold StaticAnalyzer.get_or.
  rewrite Hx. reflexivity.
Qed.

Lemma ai_phase_in_range (w : World) (request : CodeReviewRequest) (code : str)
  (r : AIAnalysisResult) :
  ai_phase w request code = Some r -> 0 <= ai_score r <= 10.
Proof.
  unfold ai_phase. destruct (req_include_ai_analysis request); [|discriminate].
  destruct (snd (AIEngine.analyze_code _ _ _ _)) as [j|e]; simpl; [|discriminate].
  destruct (_convert_ai_analysis j) as [r'|e] eqn:E; [|discriminate].
  intros [= <-]. apply in_range_iff. eapply convert_in_range; eauto.
Qed.

Lemma overall_score_of_bounds (w : World) (request : CodeReviewRequest) (code : str) :
  0 <= overall_score_of (static_phase w request code) (ai_phase w request code) <= 10.
Proof.
  unfold overall_score_of. apply calculate_overall_score_bounds.
  - intros s Hs. apply in_map_iff in Hs as [r [<- Hr]].
    eapply static_phase_in_range; eauto.
  - destruct (ai_phase w request code) as [r|] eqn:E; [|lra].
    eapply ai_phase_in_range; eauto.
Qed.

(** A review fails on its validation and on nothing else. *)
Lemma review_code_returns (w : World) (h : history) (request : CodeReviewRequest) :
  _validate_review_request w request = Return tt ->
  exists response,
    review_code w h request = (Return response, _store_review_history h response)
    /\ resp_overall_score response
       = overall_score_of
           (static_phase w request (sanitize_code (req_code request)))
           (ai_phase w request (sanitize_code (req_code request))).
Proof.
  intros Hv. unfold review_code. rewrite Hv. simpl.
  unfold new_CodeReviewResponse, check.
  pose proof (overall_score_of_bounds w request (sanitize_code (req_code request))) as Hb.
  apply in_range_iff in Hb. rewrite Hb. simpl.
  eexists. split; reflexivity.
Qed.

Lemma review_code_raises (w : World) (h : history) (request : CodeReviewRequest) (e : exn) :
  _validate_review_request w request = Raise e ->
  review_code w h request = (Raise e, h).
Proof. intros Hv. unfold review_code. rewrite Hv. reflexivity. Qed.

End ScoreFacts.

(* ===================================================================== *)
(** * Claims about the aggregation *)
(* ===================================================================== *)
Section AggregationClaims.
Local Open Scope Q_scope.
Import Spec QFacts RoundingFacts ScoreFacts CodeUtils ReviewPresenter.






End AggregationClaims.

(* ===================================================================== *)
(** * Claims about the recommendations *)
(* ===================================================================== *)
Section RecommendationClaims.
Import Spec CodeUtils ReviewPresenter.

Lemma focus_loop (areas : list str) (recommendations : list str) :
  fold_left focus_step areas recommendations
  = recommendations ++ flat_map area_line areas.
Proof.
  revert recommendations. induction areas as [|a areas IH]; intros recs; simpl.
  - now rewrite app_nil_r.
  - rewrite IH. unfold focus_step, area_line.
    destruct (str_eqb a (lit "performance")); [now rewrite <- app_assoc|].
    destruct (str_eqb a (lit "readability")); [now rewrite <- app_assoc|].
    destruct (str_eqb a (lit "security")); [now rewrite <- app_assoc|].
    reflexivity.
Qed.

Lemma nonempty_length (A : Type) (l : list A) : nonempty l = (0 <? length l)%nat.
Proof. destruct l; reflexivity. Qed.

(** C7 (as the code has it).  The list of recommendations has at most five
    entries and is the first five entries of: the line counting the
    critical issues when there are some, the line counting the security
    issues when there are some, then, in the order of the request, the
    line of every requested focus area that is performance, readability
    or security (any other area, also maintainability, style and
    documentation, gives no line), then the line counting the suggestions
    when there are some. *)
Theorem recommendations_prioritized (issues : list CodeIssue)
  (suggestions : list CodeSuggestion) (focus_areas : option (list str)) :
  (length (_generate_recommendations issues suggestions focus_areas) <= 5)%nat
  /\ _generate_recommendations issues suggestions focus_areas
     = firstn 5 (critical_part issues ++ security_part issues
                 ++ focus_part focus_areas ++ suggestions_part suggestions)
  /\ map area_line (map lit ["maintainability"; "style"; "documentation"]%string)
     = [[]; []; []].
Proof.
  split; [|split].
  - unfold _generate_recommendations. apply firstn_le_length.
  - unfold _generate_recommendations, critical_part, security_part, focus_part,
      suggestions_part, count_severity.
    rewrite !nonempty_length. f_equal.
    set (c := filter _ issues). set (s := filter _ issues).
    destruct focus_areas as [areas|].
    + rewrite focus_loop.
      destruct (0 <? length c)%nat, (0 <? length s)%nat, (0 <? length suggestions)%nat;
        simpl; rewrite ?app_nil_r; try reflexivity; now rewrite <- ?app_assoc.
    + destruct (0 <? length c)%nat, (0 <? length s)%nat, (0 <? length suggestions)%nat;
        reflexivity.
  - reflexivity.
Qed.

(** C7 as worded fails: the focus area style is of the recognized set and
    gets no line. *)
Lemma focus_area_counterexample :
  recognized (lit "style") = true
  /\ _generate_recommendations [] [] (Some [lit "style"]) = []
  /\ spec_recommendation_count [] [] [lit "style"] = 1%nat
  /\ length (_generate_recommendations [] [] (Some [lit "style"]))
     <> spec_recommendation_count [] [] [lit "style"].
Proof. repeat split. vm_compute. discriminate. Qed.

End RecommendationClaims.

(* ===================================================================== *)
(** * Claims about the provider chain *)
(* ===================================================================== *)
Section ProviderClaims.
Import Spec AIEngine ReviewPresenter.

(** The dictionary of the fallback analyzer is always a valid analysis. *)
Lemma fallback_converts (code language : str) :
  exists r,
    _convert_ai_analysis (JDict (_get_fallback_suggestions code language)) = Return r
    /\ (ai_score r = 6%Q \/ ai_score r = 8%Q).
Proof.
  unfold _get_fallback_suggestions.
  destruct (fallback_recursion code language), (fallback_input code language);
    eexists; (split; [vm_compute; reflexivity|]); simpl; auto.
Qed.

Lemma analyze_code_first (w : World) (code language : str) (context : option str) :
  fst (analyze_code w code language context) = firstn 1 (configured w)
  /\ snd (analyze_code w code language context)
     = match configured w with
       | [] => Return (JDict (_get_fallback_suggestions code language))
       | p :: _ =>
           match provider_call w p code language context with
           | Return content => Return (recover w p content)
           | Raise _ => Return (JDict (_get_fallback_suggestions code language))
           end
       end.
Proof.
  unfold analyze_code, analyze_code_try, configured. simpl.
  destruct (openai_client w); simpl.
  { split; [reflexivity|].
    destruct (provider_call w OpenAI code language context); simpl; [|reflexivity].
    destruct (loads_ai w a); reflexivity. }
  destruct (cohere_client w); simpl.
  { split; [reflexivity|].
    destruct (provider_call w Cohere code language context); reflexivity. }
  destruct (anthropic_client w); simpl.
  { split; [reflexivity|].
    destruct (provider_call w Anthropic code language context); reflexivity. }
  split; reflexivity.
Qed.



(** C3.  [analyze_code] returns a result for every code, language and
    world, and raises nothing.  When no provider is configured or every
    call to a configured provider fails, the result is the dictionary of
    the fallback analyzer, which is computed from the code text alone
    (without a configured provider no request is sent) and is always a
    valid analysis, with score 6 or 8: the presenter gets an AI result. *)
Theorem fallback_always_answers (w : World) (code language : str) (context : option str) :
  (exists j, snd (analyze_code w code language context) = Return j)
  /\ (configured w = [] -> fst (analyze_code w code language context) = [])
  /\ (configured w = []
      \/ (forall p, In p (configured w) ->
                    returns (provider_call w p code language context) = false) ->
      snd (analyze_code w code language context)
      = Return (JDict (_get_fallback_suggestions code language))
      /\ exists r,
           _convert_ai_analysis (JDict (_get_fallback_suggestions code language)) = Return r
           /\ (ai_score r = 6%Q \/ ai_score r = 8%Q))
  /\ (forall request,
        req_include_ai_analysis request = true ->
        language = language_value (req_language request) ->
        context = req_context request ->
        configured w = []
        \/ (forall p, In p (configured w) ->
                      returns (provider_call w p code language context) = false) ->
        exists r, ai_phase w request code = Some r).
Proof.
  destruct (analyze_code_first w code language context) as [Hfst Hsnd].
  assert (Hfall :
            configured w = []
            \/ (forall p, In p (configured w) ->
                          returns (provider_call w p code language context) = false) ->
            snd (analyze_code w code language context)
            = Return (JDict (_get_fallback_suggestions code language))).
  { intros H. rewrite Hsnd. destruct (configured w) as [|p ps]; [reflexivity|].
    destruct H as [H|H]; [discriminate|].
    specialize (H p (or_introl eq_refl)).
    destruct (provider_call w p code language context); [discriminate|reflexivity]. }
  split; [|split; [|split]].
  - rewrite Hsnd. destruct (configured w) as [|p ps]; [eexists; reflexivity|].
    destruct (provider_call w p code language context); eexists; reflexivity.
  - intros H. rewrite Hfst, H. reflexivity.
  - intros H. split; [apply Hfall; exact H|]. apply fallback_converts.
  - intros request Hinc -> -> H. unfold ai_phase. rewrite Hinc.
    rewrite (Hfall H). cbv beta iota delta [Exc.bind].
    destruct (fallback_converts code (language_value (req_language request)))
      as [r [Hr _]].
    rewrite Hr. now exists r.
Qed.

(** The theorem at work: no provider configured, and every provider down. *)
Lemma fallback_always_answers_witness :
  snd (analyze_code offline_world fibonacci_code (lit "python") None)
  = Return (JDict (_get_fallback_suggestions fibonacci_code (lit "python")))
  /\ fst (analyze_code offline_world fibonacci_code (lit "python") None) = []
  /\ snd (analyze_code unreachable_world fibonacci_code (lit "python") None)
     = Return (JDict (_get_fallback_suggestions fibonacci_code (lit "python")))
  /\ exists r, ai_phase offline_world go_request (lit "package main") = Some r.
Proof.
  split; [|split; [|split]].
  - apply (proj1 (proj2 (proj2 (fallback_always_answers offline_world fibonacci_code
                                  (lit "python") None)))).
    left. reflexivity.
  - apply (proj1 (proj2 (fallback_always_answers offline_world fibonacci_code
                           (lit "python") None))).
    reflexivity.
  - apply (proj1 (proj2 (proj2 (fallback_always_answers unreachable_world fibonacci_code
                                  (lit "python") None)))).
    right. intros p _. reflexivity.
  - apply (proj2 (proj2 (proj2 (fallback_always_answers offline_world (lit "package main")
                                  (lit "go") None))) go_request);
      try reflexivity.
    left. reflexivity.
Defined.

End ProviderClaims.

(* ===================================================================== *)
(** * Facts about the string methods *)
(* ===================================================================== *)
Module StrFacts.

Lemma chr_eqb_eq (a b : ascii) : chr_eqb a b = true <-> a = b.
Proof. apply Ascii.eqb_eq. Qed.

Lemma chr_eqb_refl (a : ascii) : chr_eqb a a = true.
Proof. apply Ascii.eqb_refl. Qed.

Lemma chr_eqb_neq (a b : ascii) : chr_eqb a b = false <-> a <> b.
Proof. apply Ascii.eqb_neq. Qed.

Lemma str_eqb_eq (a b : str) : str_eqb a b = true <-> a = b.
Proof.
  revert b. induction a as [|x a IH]; intros [|y b]; simpl;
    try (split; [discriminate|discriminate]).
  - split; reflexivity.
  - rewrite andb_true_iff, chr_eqb_eq, IH. split.
    + intros [-> ->]. reflexivity.
    + intros [= -> ->]. split; reflexivity.
Qed.

Lemma startswith_iff (p s : str) : startswith p s = true <-> exists b, s = p ++ b.
Proof.
  revert s. induction p as [|x p IH]; intros s; simpl.
  - split; [intros _; now exists s | reflexivity].
  - destruct s as [|y s].
    + split; [discriminate | intros [b Hb]; discriminate].
    + rewrite andb_true_iff, chr_eqb_eq, IH. split.
      * intros [-> [b ->]]. now exists b.
      * intros [b [= -> ->]]. split; [reflexivity | now exists b].
Qed.

Lemma contains_unfold (p s : str) :
  contains p s = startswith p s || match s with [] => false | _ :: s' => contains p s' end.
Proof. destruct s; reflexivity. Qed.

Lemma contains_iff (p s : str) : contains p s = true <-> exists a b, s = a ++ p ++ b.
Proof.
  induction s as [|c s IH]; rewrite contains_unfold, orb_true_iff.
  - split.
    + intros [H|H]; [|discriminate]. apply startswith_iff in H as [b Hb]. now exists [], b.
    + intros [a [b H]]. left. apply startswith_iff.
      destruct a; [now exists b | discriminate].
  - rewrite IH. split.
    + intros [H|[a [b ->]]].
      * apply startswith_iff in H as [b Hb]. now exists [], b.
      * now exists (c :: a), b.
    + intros [[|x a] [b H]].
      * left. apply startswith_iff. now exists b.
      * right. injection H as -> ->. now exists a, b.
Qed.

Lemma contains_nil_r (p : str) : p <> [] -> contains p [] = false.
Proof. destruct p; [congruence | reflexivity]. Qed.

(** An occurrence of [p] does not cross a character that [p] lacks. *)
Lemma startswith_cut (p a b : str) (c : ascii) :
  ~ In c p -> p <> [] -> startswith p (a ++ c :: b) = startswith p a.
Proof.
  revert a. induction p as [|x p IH]; intros a Hc Hp; [congruence|].
  destruct a as [|y a]; simpl.
  - replace (chr_eqb x c) with false; [reflexivity|].
    symmetry. apply chr_eqb_neq. intros ->. apply Hc. now left.
  - destruct p as [|x' p'].
    + reflexivity.
    + rewrite IH; [reflexivity| |discriminate]. intros H. apply Hc. now right.
Qed.

Lemma contains_cut (p a b : str) (c : ascii) :
  ~ In c p -> p <> [] ->
  contains p (a ++ c :: b) = contains p a || contains p b.
Proof.
  intros Hc Hp. induction a as [|y a IH].
  - rewrite (@contains_nil_r p Hp). simpl app. rewrite contains_unfold.
    assert (H0 : startswith p (c :: b) = startswith p [])
      by apply (@startswith_cut p [] b c Hc Hp).
    rewrite H0. destruct p; [congruence|reflexivity].
  - change ((y :: a) ++ c :: b) with (y :: (a ++ c :: b)).
    rewrite (contains_unfold p (y :: a ++ c :: b)), (contains_unfold p (y :: a)).
    rewrite IH. change (y :: a ++ c :: b) with ((y :: a) ++ c :: b).
    rewrite (@startswith_cut p (y :: a) b c Hc Hp). now rewrite orb_assoc.
Qed.

(** A text without the separator lies in the whole iff it lies in a field. *)
Lemma split_acc_contains (p : str) (sep : ascii) (cur s : str) :
  ~ In sep p -> p <> [] ->
  existsb (contains p) (split_acc sep cur s) = contains p (cur ++ s).
Proof.
  intros Hc Hp. revert cur. induction s as [|c s IH]; intros cur; simpl.
  - now rewrite app_nil_r, orb_false_r.
  - destruct (chr_eqb c sep) eqn:E.
    + apply chr_eqb_eq in E as ->. simpl. rewrite IH. simpl.
      now rewrite contains_cut.
    + rewrite IH. now rewrite <- app_assoc.
Qed.

Lemma split_contains (p : str) (sep : ascii) (s : str) :
  ~ In sep p -> p <> [] ->
  existsb (contains p) (split sep s) = contains p s.
Proof. intros Hc Hp. unfold split. now rewrite split_acc_contains. Qed.

(** [lower] keeps the line structure and the whitespace. *)
Lemma lower_char_newline (c : ascii) :
  chr_eqb (lower_char c) "010"%char = chr_eqb c "010"%char.
Proof. destruct c as [[] [] [] [] [] [] [] []]; reflexivity. Qed.

Lemma lower_char_space (c : ascii) : isspace (lower_char c) = isspace c.
Proof. destruct c as [[] [] [] [] [] [] [] []]; reflexivity. Qed.

Lemma lower_app (a b : str) : lower (a ++ b) = lower a ++ lower b.
Proof. apply map_app. Qed.

Lemma lower_split_acc (cur s : str) :
  split_acc "010"%char (lower cur) (lower s) = map lower (split_acc "010"%char cur s).
Proof.
  revert cur. induction s as [|c s IH]; intros cur; simpl; [reflexivity|].
  rewrite lower_char_newline. destruct (chr_eqb c "010"%char); simpl.
  - f_equal. apply (IH []).
  - rewrite <- IH, lower_app. reflexivity.
Qed.

Lemma lower_split (s : str) :
  split "010"%char (lower s) = map lower (split "010"%char s).
Proof. apply (lower_split_acc [] s). Qed.

Lemma lower_lstrip (s : str) : lower (lstrip s) = lstrip (lower s).
Proof.
  induction s as [|c s IH]; simpl; [reflexivity|].
  rewrite lower_char_space. destruct (isspace c); [exact IH | reflexivity].
Qed.

Lemma lower_strip (s : str) : lower (strip s) = strip (lower s).
Proof.
  unfold strip, rstrip, lower. rewrite map_rev.
  fold (lower (lstrip (rev (lstrip s)))). rewrite lower_lstrip.
  unfold lower at 1. rewrite map_rev. fold (lower (lstrip s)). now rewrite lower_lstrip.
Qed.

(** A text whose ends are not whitespace survives [strip]. *)
Lemma contains_lstrip (p s : str) (x : ascii) (p' : str) :
  p = x :: p' -> isspace x = false -> contains p (lstrip s) = contains p s.
Proof.
  intros -> Hx. induction s as [|c s IH]; [reflexivity|].
  simpl lstrip. destruct (isspace c) eqn:E; [|reflexivity].
  rewrite IH. rewrite (contains_unfold (x :: p') (c :: s)).
  simpl startswith. replace (chr_eqb x c) with false; [reflexivity|].
  symmetry. apply chr_eqb_neq. intros ->. congruence.
Qed.

Lemma contains_rev (p s : str) : contains (rev p) (rev s) = contains p s.
Proof.
  apply eq_true_iff_eq. rewrite !contains_iff. split.
  - intros [a [b H]]. exists (rev b), (rev a).
    apply (f_equal (@rev ascii)) in H. rewrite rev_involutive in H.
    rewrite H, !rev_app_distr, rev_involutive. now rewrite app_assoc.
  - intros [a [b ->]]. exists (rev b), (rev a).
    rewrite !rev_app_distr. now rewrite app_assoc.
Qed.

Lemma contains_strip (p s : str) (x y : ascii) (p1 p2 : str) :
  p = x :: p1 -> p = p2 ++ [y] -> isspace x = false -> isspace y = false ->
  contains p (strip s) = contains p s.
Proof.
  intros Hx Hy Sx Sy. unfold strip, rstrip.
  rewrite <- (contains_rev p (rev (lstrip (rev (lstrip s))))), rev_involutive.
  rewrite (@contains_lstrip (rev p) (rev (lstrip s)) y (rev p2));
    [|now rewrite Hy, rev_app_distr|exact Sy].
  rewrite contains_rev. now apply (@contains_lstrip p s x p1).
Qed.

Lemma existsb_length_filter (A : Type) (f : A -> bool) (l : list A) :
  (0 < length (filter f l))%nat <-> existsb f l = true.
Proof.
  induction l as [|a l IH]; simpl.
  - split; [lia|discriminate].
  - destruct (f a); simpl; [split; [reflexivity|lia] | exact IH].
Qed.

End StrFacts.

(* ===================================================================== *)
(** * Claims about the text recovery *)
(* ===================================================================== *)
Section TextRecoveryClaims.
Import Spec AIEngine StrFacts.

Lemma scan_line_issues (content : str) (acc : findings) (line : str) :
  f_issues (scan_line content acc line)
  = f_issues acc ++ (if recursion_hit content line then [recursive_fibonacci_issue] else []).
Proof.
  unfold scan_line, recursion_hit.
  destruct (strip line) as [|c l] eqn:E.
  - simpl. now rewrite andb_false_r, app_nil_r.
  - cbv beta iota zeta delta [nonempty negb].
    remember (lower (c :: l)) as L eqn:EL. clear EL.
    destruct (contains (lit "recursive") L) eqn:Hrec.
    + assert (K : any_keyword
                    ["performance"; "slow"; "inefficient"; "complexity"; "recursive"]%string
                    L = true).
      { unfold any_keyword. cbn [existsb]. rewrite Hrec. now rewrite !orb_true_r. }
      rewrite K. clear K.
      destruct (contains (lit "fibonacci") (lower content)); cbn [andb];
        destruct (any_keyword _ L); cbn [f_issues]; now rewrite ?app_nil_r.
    + rewrite andb_false_r, app_nil_r.
      destruct (any_keyword _ L); destruct (any_keyword _ L); reflexivity.
Qed.

Lemma scan_issues (content : str) (lines : list str) (acc : findings) :
  f_issues (fold_left (scan_line content) lines acc)
  = f_issues acc
    ++ repeat recursive_fibonacci_issue (length (filter (recursion_hit content) lines)).
Proof.
  revert acc. induction lines as [|l lines IH]; intros acc; simpl.
  - now rewrite app_nil_r.
  - rewrite IH, scan_line_issues.
    destruct (recursion_hit content l); simpl; [now rewrite <- app_assoc | now rewrite app_nil_r].
Qed.

Lemma recursive_line_iff (content : str) :
  existsb (fun line => contains (lit "recursive") (lower (strip line)))
    (split "010"%char content)
  = contains (lit "recursive") (lower content).
Proof.
  rewrite <- (@split_contains (lit "recursive") "010"%char (lower content)).
  - rewrite lower_split.
    induction (split "010"%char content) as [|l ls IH]; cbn [existsb map]; [reflexivity|].
    rewrite IH, lower_strip.
    rewrite (@contains_strip (lit "recursive") (lower l) "r"%char "e"%char
               (lit "ecursive") (lit "recursiv")); reflexivity.
  - simpl. intros H. repeat (destruct H as [H|H]; [discriminate|]). exact H.
  - discriminate.
Qed.

Lemma hit_iff (content : str) :
  existsb (recursion_hit content) (split "010"%char content)
  = contains (lit "fibonacci") (lower content)
    && contains (lit "recursive") (lower content).
Proof.
  rewrite <- recursive_line_iff. unfold recursion_hit.
  induction (split "010"%char content) as [|l ls IH]; cbn [existsb].
  - now rewrite andb_false_r.
  - rewrite IH. destruct (contains (lit "fibonacci") (lower content)); reflexivity.
Qed.




End TextRecoveryClaims.

(* ===================================================================== *)
(** * Claims about batches *)
(* ===================================================================== *)
Section BatchClaims.
Import Spec ScoreFacts ReviewPresenter.

Lemma review_code_result (w : World) (h h' : history) (request : CodeReviewRequest) :
  fst (review_code w h request) = fst (review_code w h' request).
Proof.
  unfold review_code.
  match goal with |- fst (match ?o with _ => _ end) = _ => destruct o end; reflexivity.
Qed.

Lemma validate_outcome (w : World) (request : CodeReviewRequest) :
  _validate_review_request w request = Return tt
  \/ exists e, _validate_review_request w request = Raise e.
Proof.
  destruct (_validate_review_request w request) as [[]|e]; [now left | right; now exists e].
Qed.

Lemma review_alone_fails (w : World) (request : BatchReviewRequest) (file_data : FileData) :
  review_alone w request file_data = None <-> sample_fails w request file_data = true.
Proof.
  unfold review_alone, sample_fails.
  destruct (individual_request request file_data) as [r|e]; [|split; reflexivity].
  destruct (validate_outcome w r) as [H|[e H]]; rewrite H; simpl.
  - destruct (review_code_returns w [] r H) as [response [Hr _]]. rewrite Hr. simpl.
    split; discriminate.
  - rewrite (review_code_raises w [] r H). simpl. split; reflexivity.
Qed.

(** One turn of the loop adds the review of the sample alone, or counts a
    failure, and leaves the results of the other samples as they are. *)
Lemma batch_step_alone (w : World) (request : BatchReviewRequest) (st : batch_state)
  (file_data : FileData) :
  let st' := batch_step w request st file_data in
  reviews st' = reviews st ++ to_list (review_alone w request file_data)
  /\ successful_reviews st'
     = (successful_reviews st + length (to_list (review_alone w request file_data)))%nat
  /\ failed_reviews st'
     = (failed_reviews st + if sample_fails w request file_data then 1 else 0)%nat.
Proof.
  cbv zeta.
  pose proof (review_alone_fails w request file_data) as Hf.
  unfold batch_step, review_alone, sample_fails in *.
  destruct (individual_request request file_data) as [r|e]; simpl.
  - destruct (review_code w (stored st) r) as [o h'] eqn:E1.
    assert (E2 : fst (review_code w [] r) = o)
      by (rewrite (review_code_result w [] (stored st) r), E1; reflexivity).
    rewrite E2 in *. destruct o as [response|e]; simpl.
    + destruct (negb (returns (_validate_review_request w r))).
      * destruct Hf as [_ Hf]. specialize (Hf eq_refl). discriminate.
      * repeat split; lia.
    + destruct (negb (returns (_validate_review_request w r))).
      * rewrite app_nil_r. repeat split; lia.
      * destruct Hf as [Hf _]. specialize (Hf eq_refl). discriminate.
  - rewrite app_nil_r. repeat split; lia.
Qed.

Lemma batch_loop (w : World) (request : BatchReviewRequest) (files : list FileData)
  (st : batch_state) :
  let st' := fold_left (batch_step w request) files st in
  reviews st' = reviews st ++ flat_map (fun fd => to_list (review_alone w request fd)) files
  /\ successful_reviews st'
     = (successful_reviews st
        + length (flat_map (fun fd => to_list (review_alone w request fd)) files))%nat
  /\ failed_reviews st'
     = (failed_reviews st + length (filter (sample_fails w request) files))%nat.
Proof.
  cbv zeta. revert st. induction files as [|fd files IH]; intros st; simpl.
  - rewrite app_nil_r. repeat split; lia.
  - destruct (IH (batch_step w request st fd)) as [H1 [H2 H3]].
    destruct (batch_step_alone w request st fd) as [G1 [G2 G3]].
    rewrite H1, H2, H3, G1, G2, G3. rewrite length_app, <- app_assoc.
    destruct (sample_fails w request fd); simpl; repeat split; lia.
Qed.

Lemma alone_or_fails (w : World) (request : BatchReviewRequest) (files : list FileData) :
  (length (flat_map (fun fd => to_list (review_alone w request fd)) files)
   + length (filter (sample_fails w request) files) = length files)%nat.
Proof.
  induction files as [|fd files IH]; simpl; [reflexivity|].
  rewrite length_app.
  pose proof (review_alone_fails w request fd) as Hf.
  destruct (sample_fails w request fd); simpl.
  - destruct Hf as [_ Hf]. rewrite (Hf eq_refl). simpl. lia.
  - destruct (review_alone w request fd); simpl; [lia|].
    destruct Hf as [Hf _]. specialize (Hf eq_refl). discriminate.
Qed.

(** C9.  In a batch, the reviews returned are those of the samples that do
    not fail, in the order of the batch, and each is the review the sample
    gets on its own; [failed_reviews] counts exactly the failing samples
    and [successful_reviews] the reviews returned.  A sample fails only
    on its own request (missing or empty code, unknown language, blank or
    oversized code).  For three samples of which the second has empty
    code there are 2 reviews and [failed_reviews] is 1. *)
Theorem batch_samples_isolated (w : World) (h : history) (request : BatchReviewRequest) :
  let response := fst (batch_review w h request) in
  bresp_reviews response
  = flat_map (fun fd => to_list (review_alone w request fd)) (batch_files request)
  /\ bresp_failed_reviews response
     = length (filter (sample_fails w request) (batch_files request))
  /\ bresp_successful_reviews response = length (bresp_reviews response)
  /\ (bresp_successful_reviews response + bresp_failed_reviews response)%nat
     = bresp_total_files response
  /\ (forall fd, review_alone w request fd = None <-> sample_fails w request fd = true)
  /\ (let three := fst (batch_review offline_world [] three_samples) in
      length (bresp_reviews three) = 2%nat
      /\ bresp_successful_reviews three = 2%nat
      /\ bresp_failed_reviews three = 1%nat
      /\ map (sample_fails offline_world three_samples) (batch_files three_samples)
         = [false; true; false]).
Proof.
  cbv zeta. split; [|split; [|split; [|split; [|split]]]].
  6: { vm_compute. repeat split. }
  5: { apply review_alone_fails. }
  all: unfold batch_review;
    cbn [fst bresp_reviews bresp_failed_reviews bresp_successful_reviews bresp_total_files];
    match goal with
    | |- context [fold_left _ _ ?st0] =>
        destruct (batch_loop w request (batch_files request) st0) as [H1 [H2 H3]]
    end;
    cbv zeta in H1, H2, H3;
    cbn [reviews successful_reviews failed_reviews app Nat.add] in H1, H2, H3;
    rewrite ?H1, ?H2, ?H3; try reflexivity.
  apply alone_or_fails.
Qed.

End BatchClaims.

(* ===================================================================== *)
(** * Facts about the matcher *)
(* ===================================================================== *)
Module ReFacts.
Import Re StrFacts.

(** ** The matcher finds a match exactly when the language has one *)

Lemma greedy_sound (f : ascii -> bool) (p : regex) (k : str -> option str) :
  (forall s r, k s = Some r -> Matches p s r) ->
  forall s r, greedy f k s = Some r -> Matches (star f :: p) s r.
Proof.
  intros Hk. induction s as [|c s IH]; intros r; simpl.
  - intros H. apply M_star_stop, Hk, H.
  - destruct (f c) eqn:Hf.
    + destruct (greedy f k s) as [r'|] eqn:G.
      * intros [= <-]. apply M_star_more; [exact Hf | apply IH; reflexivity].
      * intros H. apply M_star_stop, Hk, H.
    + intros H. apply M_star_stop, Hk, H.
Qed.

Lemma match_here_sound (p : regex) :
  forall s r, match_here p s = Some r -> Matches p s r.
Proof.
  induction p as [|[f q] p IH]; intros s r; simpl.
  - intros [= <-]. constructor.
  - destruct q.
    + destruct s as [|c s]; [discriminate|].
      destruct (f c) eqn:Hf; [|discriminate].
      intros H. apply M_one; [exact Hf | apply IH, H].
    + destruct s as [|c s].
      * intros H. apply M_opt_skip, IH, H.
      * destruct (f c) eqn:Hf.
        -- destruct (match_here p s) as [r'|] eqn:G.
           ++ intros [= <-]. apply M_opt_take; [exact Hf | apply IH, G].
           ++ intros H. apply M_opt_skip, IH, H.
        -- intros H. apply M_opt_skip, IH, H.
    + apply (@greedy_sound f p (match_here p) IH).
    + destruct s as [|c s]; [discriminate|].
      destruct (f c) eqn:Hf; [|discriminate].
      intros H. apply M_plus; [exact Hf | apply (@greedy_sound f p (match_here p) IH); exact H].
Qed.

Lemma greedy_stop (f : ascii -> bool) (k : str -> option str) (s : str) :
  k s <> None -> greedy f k s <> None.
Proof.
  intros H. destruct s as [|c s]; simpl; [exact H|].
  destruct (f c); [|exact H]. destruct (greedy f k s); [discriminate|exact H].
Qed.

Lemma match_here_complete (p : regex) (s r : str) :
  Matches p s r -> match_here p s <> None.
Proof.
  induction 1; simpl.
  - discriminate.
  - rewrite H. exact IHMatches.
  - destruct s as [|c s]; [exact IHMatches|].
    destruct (f c); [|exact IHMatches].
    destruct (match_here p s); [discriminate|exact IHMatches].
  - rewrite H. destruct (match_here p s); [discriminate|contradiction].
  - apply greedy_stop. exact IHMatches.
  - rewrite H. simpl in IHMatches. destruct (greedy f (match_here p) s);
      [discriminate|contradiction].
  - rewrite H. exact IHMatches.
Qed.

(** ** The shape of the matched text *)

Lemma Matches_split (p : regex) (s r : str) :
  Matches p s r -> exists m, s = m ++ r /\ Matches p m [].
Proof.
  induction 1.
  - exists []. split; [reflexivity|constructor].
  - destruct IHMatches as [m [-> Hm]]. exists (c :: m). split; [reflexivity|].
    now constructor.
  - destruct IHMatches as [m [-> Hm]]. exists m. split; [reflexivity|].
    now apply M_opt_skip.
  - destruct IHMatches as [m [-> Hm]]. exists (c :: m). split; [reflexivity|].
    now apply M_opt_take.
  - destruct IHMatches as [m [-> Hm]]. exists m. split; [reflexivity|].
    now apply M_star_stop.
  - destruct IHMatches as [m [-> Hm]]. exists (c :: m). split; [reflexivity|].
    now apply M_star_more.
  - destruct IHMatches as [m [-> Hm]]. exists (c :: m). split; [reflexivity|].
    now apply M_plus.
Qed.

Lemma Matches_extend (p : regex) (m t r : str) :
  Matches p m t -> Matches p (m ++ r) (t ++ r).
Proof.
  induction 1; simpl; try (constructor; assumption).
Qed.

Lemma Matches_app (p1 p2 : regex) (s t r : str) :
  Matches p1 s t -> Matches p2 t r -> Matches (p1 ++ p2) s r.
Proof.
  intros H1 H2. induction H1; simpl; try (constructor; auto; fail).
  exact H2.
Qed.

Lemma Matches_app_inv (p1 p2 : regex) (s r : str) :
  Matches (p1 ++ p2) s r -> exists t, Matches p1 s t /\ Matches p2 t r.
Proof.
  intros H. remember (p1 ++ p2) as p eqn:E. revert p1 E.
  induction H; intros p1 E.
  - destruct p1; [|discriminate]. simpl in E. subst. exists s. split; constructor.
  - destruct p1 as [|a p1]; simpl in E.
    + subst p2. exists (c :: s). split; [constructor|]. now constructor.
    + injection E as <- ->. destruct (IHMatches p1 eq_refl) as [t [H1 H2]].
      exists t. split; [now constructor|exact H2].
  - destruct p1 as [|a p1]; simpl in E.
    + subst p2. exists s. split; [constructor|]. now apply M_opt_skip.
    + injection E as <- ->. destruct (IHMatches p1 eq_refl) as [t [H1 H2]].
      exists t. split; [now apply M_opt_skip|exact H2].
  - destruct p1 as [|a p1]; simpl in E.
    + subst p2. exists (c :: s). split; [constructor|]. now apply M_opt_take.
    + injection E as <- ->. destruct (IHMatches p1 eq_refl) as [t [H1 H2]].
      exists t. split; [now apply M_opt_take|exact H2].
  - destruct p1 as [|a p1]; simpl in E.
    + subst p2. exists s. split; [constructor|]. now apply M_star_stop.
    + injection E as <- ->. destruct (IHMatches p1 eq_refl) as [t [H1 H2]].
      exists t. split; [now apply M_star_stop|exact H2].
  - destruct p1 as [|a p1]; simpl in E.
    + subst p2. exists (c :: s). split; [constructor|]. now apply M_star_more.
    + injection E as <- ->.
      destruct (IHMatches (star f :: p1) eq_refl) as [t [H1 H2]].
      exists t. split; [now apply M_star_more|exact H2].
  - destruct p1 as [|a p1]; simpl in E.
    + subst p2. exists (c :: s). split; [constructor|]. now apply M_plus.
    + injection E as <- ->.
      destruct (IHMatches (star f :: p1) eq_refl) as [t [H1 H2]].
      exists t. split; [now apply M_plus|exact H2].
Qed.

(** Every matched character is of the class of one of the atoms. *)
Lemma Matches_classes (p : regex) (m : str) :
  Matches p m [] -> Forall (fun c => exists a, In a p /\ cls a c = true) m.
Proof.
  intros H. remember [] as r eqn:E. induction H; subst.
  - constructor.
  - constructor.
    + exists (one f). split; [now left|exact H].
    + eapply Forall_impl; [|apply IHMatches; reflexivity].
      intros x [a [Ha Hx]]. exists a. split; [now right|exact Hx].
  - eapply Forall_impl; [|apply IHMatches; reflexivity].
    intros x [a [Ha Hx]]. exists a. split; [now right|exact Hx].
  - constructor.
    + exists (opt f). split; [now left|exact H].
    + eapply Forall_impl; [|apply IHMatches; reflexivity].
      intros x [a [Ha Hx]]. exists a. split; [now right|exact Hx].
  - eapply Forall_impl; [|apply IHMatches; reflexivity].
    intros x [a [Ha Hx]]. exists a. split; [now right|exact Hx].
  - constructor.
    + exists (star f). split; [now left|exact H].
    + apply IHMatches; reflexivity.
  - constructor.
    + exists (plus f). split; [now left|exact H].
    + eapply Forall_impl; [|apply IHMatches; reflexivity].
      intros x [a [[<-|Ha] Hx]].
      * exists (plus f). split; [now left|exact Hx].
      * exists a. split; [now right|exact Hx].
Qed.

End ReFacts.

(* ===================================================================== *)
(** * Facts about the sensitive patterns *)
(* ===================================================================== *)
Module ShapeFacts.
Import Re StrFacts ReFacts Spec CodeUtils.

(** ** Character classes *)

Lemma plain_lower (c : ascii) : plain (lower_char c) = plain c.
Proof. destruct c as [[] [] [] [] [] [] [] []]; reflexivity. Qed.

Lemma ichr_plain (x c : ascii) :
  plain (lower_char x) = true -> ichr x c = true -> plain c = true.
Proof.
  unfold ichr. intros Hx Hc. apply chr_eqb_eq in Hc.
  rewrite <- plain_lower, Hc. exact Hx.
Qed.

Lemma space_plain (c : ascii) : space c = true -> plain c = true.
Proof.
  destruct c as [[] [] [] [] [] [] [] []]; vm_compute; intros H;
    first [reflexivity | discriminate H].
Qed.

Lemma chr_plain (x c : ascii) : plain x = true -> chr x c = true -> plain c = true.
Proof. unfold chr. intros Hx Hc. apply chr_eqb_eq in Hc. now subst. Qed.

Lemma oneof_plain (cs : str) (c : ascii) :
  forallb plain cs = true -> oneof cs c = true -> plain c = true.
Proof.
  unfold oneof. intros Hcs Hc. apply existsb_exists in Hc as [x [Hx Hc]].
  apply chr_eqb_eq in Hc. subst. rewrite forallb_forall in Hcs. now apply Hcs.
Qed.

Lemma plain_not_quote (c : ascii) : plain c = true -> not_quote c = true.
Proof. unfold plain, not_quote, quote, noneof. now intros [H _]%andb_true_iff. Qed.

Lemma plain_not_star (c : ascii) : plain c = true -> c <> "*"%char.
Proof. intros H ->. discriminate. Qed.

Lemma quote_not_star (c : ascii) : quote c = true -> c <> "*"%char.
Proof. intros H ->. discriminate. Qed.

Lemma quote_not_quote (c : ascii) : quote c = negb (not_quote c).
Proof. unfold not_quote, noneof, quote. now rewrite negb_involutive. Qed.

(** ** The five patterns have the shape *)

Ltac class_plain :=
  intros c; cbn [cls one opt star plus];
  first [ apply ichr_plain; reflexivity
        | apply space_plain
        | apply chr_plain; reflexivity
        | apply oneof_plain; reflexivity ].

Lemma sensitive_shapes :
  Forall2 sensitive_shape sensitive_prefixes sensitive_patterns.
Proof.
  unfold sensitive_prefixes, sensitive_patterns.
  repeat constructor; try reflexivity; try (eexists; eexists; reflexivity);
    class_plain.
Qed.

Lemma sensitive_shaped (p : regex) :
  In p sensitive_patterns -> exists pre, sensitive_shape pre p.
Proof.
  intros H. pose proof sensitive_shapes as F. revert H.
  induction F as [|pre q pres qs Hs F IH]; simpl; [intros []|].
  intros [<-|H]; [now exists pre | now apply IH].
Qed.

(** ** A match is a plain part followed by a quoted literal *)

Lemma star_then_one_inv (f g : ascii -> bool) (s r : str) :
  Matches [star f; one g] s r ->
  exists A c, s = A ++ c :: r /\ forallb f A = true /\ g c = true.
Proof.
  intros H. remember [star f; one g] as p eqn:E. induction H; try discriminate.
  - inversion E; subst; clear E. inversion H; subst.
    match goal with H' : Matches [] _ _ |- _ => inversion H'; subst end.
    exists [], c. repeat split; assumption.
  - inversion E; subst. destruct (IHMatches eq_refl) as [A [c' [-> [HA Hc]]]].
    exists (c :: A), c'. repeat split; [|exact Hc]. simpl. now rewrite H, HA.
Qed.

Lemma star_then_one_intro (f g : ascii -> bool) (A : str) (c : ascii) (r : str) :
  forallb f A = true -> g c = true -> Matches [star f; one g] (A ++ c :: r) r.
Proof.
  intros HA Hc. induction A as [|a A IH]; simpl in *.
  - apply M_star_stop. apply M_one; [exact Hc|constructor].
  - apply andb_true_iff in HA as [Ha HA]. apply M_star_more; [exact Ha|now apply IH].
Qed.

Lemma quoted_literal_iff (t r : str) : Matches quoted_literal t r <-> literal t r.
Proof.
  unfold quoted_literal, literal. split.
  - intros H. inversion H; subst.
    match goal with H' : Matches [plus _; _] _ _ |- _ => inversion H'; subst end.
    match goal with H' : Matches [star _; _] _ _ |- _ =>
      apply star_then_one_inv in H' as [A [q [-> [HA Hq]]]] end.
    eexists _, _, A, q. repeat split; eassumption.
  - intros [q0 [a [A [q [-> [H0 [Ha [HA Hq]]]]]]]].
    apply M_one; [exact H0|]. apply M_plus; [exact Ha|].
    now apply star_then_one_intro.
Qed.

Section Shape.
Variables (pre p : regex).
Hypothesis shape : sensitive_shape pre p.

Lemma prefix_plain (u : str) :
  Matches pre u [] -> u <> [] /\ forallb plain u = true.
Proof.
  destruct shape as [_ [[f [pre' E]] Hc]]. intros H. split.
  - rewrite E in H. inversion H. discriminate.
  - apply forallb_forall. intros c Hin.
    apply Matches_classes in H. rewrite Forall_forall in H.
    destruct (H c Hin) as [a [Ha Hcls]].
    rewrite Forall_forall in Hc. now apply (Hc a Ha).
Qed.

Lemma match_shape (s r : str) :
  match_here p s = Some r ->
  exists u t, s = u ++ t /\ Matches pre u [] /\ literal t r.
Proof.
  intros H. apply match_here_sound in H.
  destruct shape as [-> _].
  apply Matches_app_inv in H as [t [H1 H2]].
  apply Matches_split in H1 as [u [-> Hu]].
  exists u, t. repeat split; [exact Hu|]. now apply quoted_literal_iff.
Qed.

Lemma shape_match (u t r : str) :
  Matches pre u [] -> literal t r -> match_here p (u ++ t) <> None.
Proof.
  intros Hu Ht. destruct shape as [-> _].
  apply (@match_here_complete _ _ r).
  apply Matches_app with (t := t).
  - apply (@Matches_extend pre u [] t Hu).
  - now apply quoted_literal_iff.
Qed.

Lemma match_shorter (s r : str) :
  match_here p s = Some r -> (length r < length s)%nat.
Proof.
  intros H. apply match_shape in H as [u [t [-> [_ [q0 [a [A [q [-> _]]]]]]]]].
  rewrite !length_app. simpl. rewrite length_app. simpl. lia.
Qed.

Lemma match_nil : match_here p [] = None.
Proof.
  destruct (match_here p []) as [r|] eqn:E; [|reflexivity].
  apply match_shorter in E. simpl in E. lia.
Qed.

(** A match begins with a plain character. *)
Lemma match_head (c : ascii) (s : str) :
  match_here p (c :: s) <> None -> plain c = true.
Proof.
  destruct (match_here p (c :: s)) as [r|] eqn:E; [intros _|congruence].
  apply match_shape in E as [u [t [E [Hu _]]]].
  apply prefix_plain in Hu as [Hne Hpl].
  destruct u as [|x u]; [congruence|]. injection E as ->.
  simpl in Hpl. now apply andb_true_iff in Hpl as [Hx _].
Qed.
End Shape.

End ShapeFacts.

(* ===================================================================== *)
(** * Facts about the substitution *)
(* ===================================================================== *)
Module SubFacts.
Import Re StrFacts ReFacts Spec CodeUtils ShapeFacts.

(** ** Positions of the scan *)

Lemma tail_of_refl (s : str) : tail_of s s.
Proof. now exists []. Qed.

Lemma tail_of_cons (t s : str) (c : ascii) : tail_of t s -> tail_of t (c :: s).
Proof. intros [a ->]. now exists (c :: a). Qed.

Lemma tail_of_app (t s m : str) : tail_of t s -> tail_of t (m ++ s).
Proof. intros [a ->]. exists (m ++ a). now rewrite app_assoc. Qed.

Lemma tail_of_cons_inv (t s : str) (c : ascii) :
  tail_of t (c :: s) -> t = c :: s \/ tail_of t s.
Proof.
  intros [[|x a] H]; simpl in H.
  - now left.
  - right. injection H as _ ->. now exists a.
Qed.

Lemma tail_of_app_inv (t m s : str) :
  tail_of t (m ++ s) ->
  tail_of t s \/ exists m1 m2, m = m1 ++ m2 /\ m2 <> [] /\ t = m2 ++ s.
Proof.
  induction m as [|c m IH]; simpl; [now left|].
  intros H. apply tail_of_cons_inv in H as [->|H].
  - right. exists [], (c :: m). repeat split. discriminate.
  - destruct (IH H) as [H'|[m1 [m2 [-> [Hne ->]]]]]; [now left|].
    right. exists (c :: m1), m2. now repeat split.
Qed.

Lemma tail_of_nil (t : str) : tail_of t [] -> t = [].
Proof. intros [a H]. symmetry in H. now apply app_eq_nil in H. Qed.

Lemma found_matchless (p : regex) (s : str) : found p s = false <-> matchless p s.
Proof.
  unfold found, matchless. induction s as [|c s IH]; simpl.
  - destruct (match_here p []) eqn:E.
    + split; [discriminate|]. intros H. specialize (H [] (tail_of_refl [])). congruence.
    + split; [|reflexivity]. intros _ t Ht. apply tail_of_nil in Ht. now subst.
  - destruct (match_here p (c :: s)) eqn:E.
    + split; [discriminate|]. intros H. specialize (H _ (tail_of_refl (c :: s))). congruence.
    + rewrite IH. split.
      * intros H t Ht. apply tail_of_cons_inv in Ht as [->|Ht]; [exact E|now apply H].
      * intros H t Ht. apply H. now apply tail_of_cons.
Qed.

(** ** [sub] needs no more steps than characters *)

Lemma sub_steps_enough (p : regex) (repl : str) (n : nat) :
  forall m s, (length s < n)%nat -> (length s < m)%nat ->
              sub_steps n p repl s = sub_steps m p repl s.
Proof.
  induction n as [|n IH]; intros m s Hn Hm; [lia|].
  destruct m as [|m]; [lia|]. simpl.
  destruct (match_here p s) as [r|].
  - destruct (length r <? length s)%nat eqn:E.
    + apply Nat.ltb_lt in E. f_equal. apply IH; lia.
    + destruct s as [|c s]; [reflexivity|]. simpl in *. do 2 f_equal. apply IH; lia.
  - destruct s as [|c s]; [reflexivity|]. simpl in *. f_equal. apply IH; lia.
Qed.

Lemma sub_steps_S (p : regex) (repl : str) (n : nat) (s : str) :
  sub_steps (S n) p repl s
  = match match_here p s with
    | Some r =>
        if (length r <? length s)%nat then repl ++ sub_steps n p repl r
        else match s with
             | [] => repl
             | c :: s' => repl ++ c :: sub_steps n p repl s'
             end
    | None =>
        match s with
        | [] => []
        | c :: s' => c :: sub_steps n p repl s'
        end
    end.
Proof. reflexivity. Qed.

(** The text left of every non-empty suffix of the replacement holds a
    star and no quote, so no quoted literal begins in it. *)
Lemma no_literal_before_star (u L t y : str) (q0 : ascii) :
  forallb plain u = true -> quote q0 = true -> forallb not_quote L = true ->
  u ++ q0 :: t <> L ++ "*"%char :: y.
Proof.
  revert L. induction u as [|x u IH]; intros L Hu Hq HL H.
  - destruct L as [|l L]; simpl in H; injection H as -> _.
    + discriminate.
    + simpl in HL. rewrite quote_not_quote in Hq.
      apply andb_true_iff in HL as [Hl _]. rewrite Hl in Hq. discriminate.
  - simpl in Hu. apply andb_true_iff in Hu as [Hx Hu].
    destruct L as [|l L]; simpl in H; injection H as -> H.
    + discriminate.
    + simpl in HL. apply andb_true_iff in HL as [_ HL]. now apply (IH L).
Qed.

Lemma redacted_suffix (m1 m2 : str) :
  REDACTED = m1 ++ m2 -> m2 <> [] ->
  exists L, m2 = L ++ ["*"%char] /\ forallb not_quote L = true.
Proof.
  intros E Hne.
  assert (Hq : forallb not_quote m2 = true).
  { assert (H : forallb not_quote REDACTED = true) by reflexivity.
    rewrite E, forallb_app in H. now apply andb_true_iff in H as [_ H]. }
  destruct (exists_last Hne) as [L [c ->]]. exists L.
  rewrite forallb_app in Hq. apply andb_true_iff in Hq as [HL _]. split; [|exact HL].
  apply (f_equal (@rev ascii)) in E. rewrite !rev_app_distr in E. simpl in E.
  injection E as <- _. reflexivity.
Qed.

Section OnePattern.
Variables (pre p : regex).
Hypothesis shape : sensitive_shape pre p.

Lemma sub_unfold (s : str) :
  redact p s
  = match match_here p s with
    | Some r => REDACTED ++ redact p r
    | None => match s with [] => [] | c :: s' => c :: redact p s' end
    end.
Proof.
  unfold redact, sub. rewrite sub_steps_S.
  destruct (match_here p s) as [r|] eqn:E.
  - pose proof (@match_shorter pre p shape s r E) as Hlt.
    apply Nat.ltb_lt in Hlt as Hb. rewrite Hb. f_equal.
    apply sub_steps_enough; lia.
  - destruct s; reflexivity.
Qed.

Lemma match_in_redacted (m1 m2 x : str) :
  REDACTED = m1 ++ m2 -> m2 <> [] -> match_here p (m2 ++ x) = None.
Proof.
  intros E Hne. destruct (match_here p (m2 ++ x)) as [r|] eqn:M; [|reflexivity].
  exfalso. apply (match_shape shape) in M as [u [t [Eu [Hu Ht]]]].
  apply (prefix_plain shape) in Hu as [_ Hu].
  destruct Ht as [q0 [a [A [q [-> [Hq0 _]]]]]].
  destruct (@redacted_suffix m1 m2 E Hne) as [L [-> HL]].
  rewrite <- app_assoc in Eu. simpl in Eu. symmetry in Eu.
  now apply no_literal_before_star in Eu.
Qed.

(** The scan copies the characters before the first replacement. *)
Lemma sub_starless_prefix (u : str) :
  forall s v,
    forallb (fun c => negb (chr_eqb c "*"%char)) u = true ->
    redact p s = u ++ v ->
    exists v', s = u ++ v' /\ redact p v' = v.
Proof.
  induction u as [|x u IH]; intros s v Hu H.
  - now exists s.
  - simpl in Hu. apply andb_true_iff in Hu as [Hx Hu].
    rewrite sub_unfold in H. destruct (match_here p s) as [r|].
    + simpl in H. injection H as <- _. discriminate.
    + destruct s as [|c s]; [discriminate|]. simpl in H. injection H as -> H.
      destruct (IH s v Hu H) as [v' [-> Hv]]. now exists v'.
Qed.

Lemma sub_opens_literal (A : str) :
  forall a q r v,
    not_quote a = true -> forallb not_quote A = true -> quote q = true ->
    redact p v = a :: A ++ q :: r ->
    opens_literal v.
Proof.
  induction A as [|a2 A IH]; intros a q r v Ha HA Hq H;
    rewrite sub_unfold in H; destruct (match_here p v) as [r2|] eqn:M.
  1, 3:
    apply (match_shape shape) in M as [u [t [-> [Hu [q0 [b [B [q' [-> [Hq0 _]]]]]]]]]];
    apply (prefix_plain shape) in Hu as [Hne Hu];
    destruct u as [|x u]; [congruence|]; simpl in Hu;
    apply andb_true_iff in Hu as [Hx Hu];
    exists x, u, q0, (b :: B ++ q' :: r2);
    repeat split; [now apply plain_not_quote| |exact Hq0];
    apply forallb_forall; intros c Hc; apply plain_not_quote;
    rewrite forallb_forall in Hu; now apply Hu.
  - destruct v as [|c v]; [discriminate|]. simpl in H. injection H as -> H.
    destruct (@sub_starless_prefix [q] v r) as [v' [-> _]].
    + simpl. rewrite andb_true_r. apply negb_true_iff, chr_eqb_neq.
      now apply quote_not_star.
    + exact H.
    + exists a, [], q, v'. now repeat split.
  - destruct v as [|c v]; [discriminate|]. simpl in H. injection H as -> H.
    simpl in HA. apply andb_true_iff in HA as [Ha2 HA].
    destruct (IH a2 q r v Ha2 HA Hq H) as [a' [A' [q' [r' [-> [Ha' [HA' Hq']]]]]]].
    exists a, (a' :: A'), q', r'. repeat split; try assumption.
    simpl. now rewrite Ha', HA'.
Qed.

(** A text without match is left as it is. *)
Lemma sub_matchless (s : str) : matchless p s -> redact p s = s.
Proof.
  induction s as [|c s IH]; intros H; rewrite sub_unfold.
  - now rewrite (H [] (tail_of_refl [])).
  - rewrite (H _ (tail_of_refl (c :: s))). f_equal. apply IH.
    intros t Ht. apply H. now apply tail_of_cons.
Qed.
End OnePattern.

End SubFacts.

(* ===================================================================== *)
(** * Claims about the sanitization *)
(* ===================================================================== *)
Section SanitizeClaims.
Import Re StrFacts ReFacts Spec CodeUtils ShapeFacts SubFacts.

(** A match of [pj] in the text redacted for [pk], at a position the scan
    copied, is a match of [pj] in the text itself. *)
Lemma match_after_redact (prej pj prek pk : regex) (s : str) :
  sensitive_shape prej pj -> sensitive_shape prek pk ->
  match_here pj (redact pk s) <> None -> match_here pj s <> None.
Proof.
  intros Sj Sk H.
  destruct (match_here pj (redact pk s)) as [r|] eqn:M; [clear H|congruence].
  apply (match_shape Sj) in M as [u [t [E [Hu Ht]]]].
  pose proof (prefix_plain Sj Hu) as [_ Hpl].
  destruct Ht as [q0 [a [A [q [-> [Hq0 [Ha [HA Hq]]]]]]]].
  destruct (@sub_starless_prefix prek pk Sk (u ++ [q0]) s (a :: A ++ q :: r))
    as [v' [-> Hv]].
  - rewrite forallb_app. apply andb_true_iff. split.
    + apply forallb_forall. intros c Hc. rewrite forallb_forall in Hpl.
      apply negb_true_iff, chr_eqb_neq, plain_not_star. now apply Hpl.
    + simpl. rewrite andb_true_r. apply negb_true_iff, chr_eqb_neq.
      now apply quote_not_star.
  - rewrite E, <- app_assoc. reflexivity.
  - destruct (@sub_opens_literal prek pk Sk A a q r v' Ha HA Hq Hv)
      as [a' [A' [q' [r' [-> [Ha' [HA' Hq']]]]]]].
    rewrite <- app_assoc. simpl.
    apply (@shape_match prej pj Sj u _ r' Hu).
    exists q0, a', A', q'. now repeat split.
Qed.

(** Redacting for [pk] leaves no match of [pj], when the only matches of
    [pj] in the text are at positions where [pk] matches too. *)
Lemma redact_matchless (prej pj prek pk : regex) :
  sensitive_shape prej pj -> sensitive_shape prek pk ->
  forall n s,
    (length s <= n)%nat ->
    (forall t, tail_of t s -> match_here pk t = None -> match_here pj t = None) ->
    matchless pj (redact pk s).
Proof.
  intros Sj Sk. induction n as [|n IH]; intros s Hn H t' Ht'.
  - destruct s; [|simpl in Hn; lia].
    rewrite (sub_unfold Sk), (match_nil Sk) in Ht'.
    apply tail_of_nil in Ht'. subst. apply (match_nil Sj).
  - rewrite (sub_unfold Sk) in Ht'.
    destruct (match_here pk s) as [r|] eqn:M.
    + apply tail_of_app_inv in Ht' as [Ht'|[m1 [m2 [E [Hne ->]]]]].
      * pose proof (match_shorter Sk _ M) as Hlt.
        apply (match_shape Sk) in M as [u [t [-> [_ [q0 [a [A [q [-> _]]]]]]]]].
        apply (IH r); [lia| |exact Ht'].
        intros t0 Ht0. apply H.
        apply tail_of_app.
        change (q0 :: a :: A ++ q :: r) with ([q0; a] ++ A ++ q :: r).
        apply tail_of_app, tail_of_app, tail_of_cons. exact Ht0.
      * apply (@match_in_redacted prej pj Sj m1 m2 (redact pk r) E Hne).
    + destruct s as [|c s].
      * apply tail_of_nil in Ht'. subst. apply (match_nil Sj).
      * apply tail_of_cons_inv in Ht' as [->|Ht'].
        -- destruct (match_here pj (c :: redact pk s)) eqn:E; [|reflexivity].
           exfalso. apply (@match_after_redact prej pj prek pk (c :: s) Sj Sk).
           ++ rewrite (sub_unfold Sk), M. congruence.
           ++ apply H; [apply tail_of_refl|exact M].
        -- apply (IH s); [simpl in Hn; lia| |exact Ht'].
           intros t0 Ht0. apply H. now apply tail_of_cons.
Qed.

Lemma redact_own (pre p : regex) (s : str) :
  sensitive_shape pre p -> matchless p (redact p s).
Proof.
  intros S. apply (@redact_matchless pre p pre p S S (length s) s (le_n _)).
  intros t _ H. exact H.
Qed.

Lemma redact_other (prej pj prek pk : regex) (s : str) :
  sensitive_shape prej pj -> sensitive_shape prek pk ->
  matchless pj s -> matchless pj (redact pk s).
Proof.
  intros Sj Sk H. apply (@redact_matchless prej pj prek pk Sj Sk (length s) s (le_n _)).
  intros t Ht _. now apply H.
Qed.

(** The loop of [sanitize_code] over shaped patterns. *)
Lemma redact_all_matchless (ps : list regex) :
  forall (seen : list regex) (s : str),
    Forall shaped ps -> Forall shaped seen ->
    (forall q, In q seen -> matchless q s) ->
    forall q, In q (seen ++ ps) ->
              matchless q (fold_left (fun code p => sub p REDACTED code) ps s).
Proof.
  induction ps as [|p ps IH]; intros seen s Hps Hseen H q Hq; simpl.
  - rewrite app_nil_r in Hq. now apply H.
  - inversion Hps as [|p' ps' [pre Sp] Hps']; subst.
    apply (IH (seen ++ [p])); try assumption.
    + apply Forall_app. split; [exact Hseen|]. constructor; [now exists pre|constructor].
    + intros q' Hq'. apply in_app_or in Hq' as [Hq'|[<-|[]]].
      * rewrite Forall_forall in Hseen. destruct (Hseen q' Hq') as [preq Sq].
        apply (@redact_other preq q' pre p s Sq Sp). now apply H.
      * apply (@redact_own pre p s Sp).
    + now rewrite <- app_assoc.
Qed.

Lemma redact_all_clean (ps : list regex) (s : str) :
  Forall shaped ps -> (forall q, In q ps -> matchless q s) ->
  fold_left (fun code p => sub p REDACTED code) ps s = s.
Proof.
  induction ps as [|p ps IH]; intros Hps H; simpl; [reflexivity|].
  inversion Hps as [|p' ps' [pre Sp] Hps']; subst.
  change (sub p REDACTED s) with (redact p s).
  rewrite (@sub_matchless pre p Sp s); [|apply H; now left].
  apply IH; [exact Hps'|]. intros q Hq. apply H. now right.
Qed.

Lemma sensitive_patterns_shaped : Forall shaped sensitive_patterns.
Proof. apply Forall_forall. intros p Hp. now apply sensitive_shaped. Qed.

(** C10.  [sanitize_code] is idempotent, and a text in which none of the
    five sensitive patterns matches anywhere is returned as it is. *)
Theorem sanitize_code_idempotent :
  (forall code, sanitize_code (sanitize_code code) = sanitize_code code)
  /\ (forall code, clean code -> sanitize_code code = code).
Proof.
  split.
  - intros code. unfold sanitize_code at 1.
    apply redact_all_clean; [apply sensitive_patterns_shaped|].
    intros q Hq. unfold sanitize_code.
    apply (@redact_all_matchless sensitive_patterns [] code);
      [apply sensitive_patterns_shaped|constructor|intros ? []|exact Hq].
  - intros code H. unfold sanitize_code.
    apply redact_all_clean; [apply sensitive_patterns_shaped|].
    intros q Hq. apply found_matchless. now apply H.
Qed.

(** The theorem at work: a text with the word key and no quoted literal. *)
Lemma sanitize_code_idempotent_witness :
  clean (lit "key = load_key()")
  /\ sanitize_code (lit "key = load_key()") = lit "key = load_key()".
Proof.
  assert (H : clean (lit "key = load_key()")).
  { intros p Hp. simpl in Hp.
    repeat (destruct Hp as [<-|Hp]; [vm_compute; reflexivity|]). destruct Hp. }
  split; [exact H|]. apply (proj2 sanitize_code_idempotent). exact H.
Defined.

End SanitizeClaims.

(* ===================================================================== *)
(** * Further facts about the sanitization *)
(* ===================================================================== *)
Section SanitizeFurther.
Import Re StrFacts ReFacts Spec Terms CodeUtils ShapeFacts SubFacts.

Lemma sanitize_matchless (code : str) (p : regex) :
  In p sensitive_patterns -> matchless p (sanitize_code code).
Proof.
  intros Hp. unfold sanitize_code.
  apply (@redact_all_matchless sensitive_patterns [] code);
    [apply sensitive_patterns_shaped|constructor|intros ? []|exact Hp].
Qed.

(** X1.  No sensitive literal survives the sanitization: in the text
    [sanitize_code] returns, none of the five patterns matches anywhere,
    neither for the matcher nor in the language of the pattern. *)
Theorem sanitized_code_is_clean (code : str) :
  clean (sanitize_code code)
  /\ (forall p t r, In p sensitive_patterns -> tail_of t (sanitize_code code) ->
                    ~ Matches p t r).
Proof.
  split.
  - intros p Hp. apply found_matchless. now apply sanitize_matchless.
  - intros p t r Hp Ht M.
    apply match_here_complete in M. apply M.
    now apply (@sanitize_matchless code p Hp t).
Qed.

Lemma sanitized_code_is_clean_witness :
  sanitize_code (lit "password = 'hunter2'") = lit "***REDACTED***"
  /\ clean (sanitize_code (lit "password = 'hunter2'")).
Proof.
  split; [vm_compute; reflexivity|].
  apply (proj1 (sanitized_code_is_clean (lit "password = 'hunter2'"))).
Defined.

(** A match of a literal word, letter by letter. *)
Lemma iword_inv (cs : str) (p : regex) (s r : str) :
  Matches (map (fun c => one (ichr c)) cs ++ p) s r ->
  exists m s', s = m ++ s' /\ lower m = lower cs /\ Matches p s' r.
Proof.
  revert s. induction cs as [|c cs IH]; intros s M; simpl in M.
  - exists [], s. now repeat split.
  - inversion M as [|f p0 x s0 r0 Hx M0| | | | |]; subst.
    apply IH in M0 as [m [s' [-> [Hm M']]]].
    exists (x :: m), s'. repeat split; [|exact M'].
    simpl. rewrite Hm. f_equal.
    unfold ichr in Hx. now apply chr_eqb_eq in Hx.
Qed.

Lemma contains_app_l (p a b : str) : contains p a = true -> contains p (a ++ b) = true.
Proof.
  intros H. apply contains_iff in H as [x [y ->]]. apply contains_iff.
  exists x, (y ++ b). now rewrite <- !app_assoc.
Qed.

Lemma contains_app_r (p a b : str) : contains p b = true -> contains p (a ++ b) = true.
Proof.
  intros H. apply contains_iff in H as [x [y ->]]. apply contains_iff.
  exists (a ++ x), y. now rewrite <- !app_assoc.
Qed.

(** A match of a pattern holds the word of the pattern. *)
Lemma match_holds_word (p : regex) :
  In p sensitive_patterns ->
  exists w, In w sensitive_words
            /\ forall t r, Matches p t r -> contains (lit w) (lower t) = true.
Proof.
  intros Hp. unfold sensitive_patterns in Hp. cbn [In] in Hp.
  destruct Hp as [<-|[<-|[<-|[<-|[<-|[]]]]]].
  - exists "key"%string. split; [simpl; tauto|]. intros t r M.
    apply iword_inv in M as [m [s' [-> [_ M]]]].
    rewrite lower_app. apply contains_app_r.
    assert (K : exists s'', Matches (iword "key" ++ assigned_literal) s'' r
                            /\ exists x, s' = x ++ s'').
    { cbn [app] in M. inversion M; subst.
      - exists s'. split; [assumption|now exists []].
      - exists s. split; [assumption|now exists [c]]. }
    destruct K as [s'' [K [x ->]]].
    rewrite lower_app. apply contains_app_r.
    apply iword_inv in K as [m' [s3 [-> [Hm _]]]].
    rewrite lower_app, Hm. apply contains_app_l. reflexivity.
  - exists "password"%string. split; [simpl; tauto|]. intros t r M.
    apply iword_inv in M as [m' [s3 [-> [Hm _]]]].
    rewrite lower_app, Hm. apply contains_app_l. reflexivity.
  - exists "secret"%string. split; [simpl; tauto|]. intros t r M.
    apply iword_inv in M as [m' [s3 [-> [Hm _]]]].
    rewrite lower_app, Hm. apply contains_app_l. reflexivity.
  - exists "token"%string. split; [simpl; tauto|]. intros t r M.
    apply iword_inv in M as [m' [s3 [-> [Hm _]]]].
    rewrite lower_app, Hm. apply contains_app_l. reflexivity.
  - exists "key"%string. split; [simpl; tauto|]. intros t r M.
    apply iword_inv in M as [m' [s3 [-> [Hm _]]]].
    rewrite lower_app, Hm. apply contains_app_l. reflexivity.
Qed.

Lemma quotes_app (a b : str) : quotes (a ++ b) = (quotes a + quotes b)%nat.
Proof. unfold quotes. now rewrite filter_app, length_app. Qed.

(** A match of a pattern holds two quotes. *)
Lemma match_holds_quotes (pre p : regex) (t r : str) :
  sensitive_shape pre p -> match_here p t = Some r -> (2 <= quotes t)%nat.
Proof.
  intros S M.
  apply (match_shape S) in M as [u [t' [-> [_ [q0 [a [A [q [-> [Hq0 [_ [_ Hq]]]]]]]]]]]].
  rewrite quotes_app.
  change (q0 :: a :: A ++ q :: r) with ([q0] ++ (a :: A) ++ [q] ++ r).
  rewrite !quotes_app. unfold quotes at 2 4. simpl. rewrite Hq0, Hq. simpl. lia.
Qed.


End SanitizeFurther.

(* ===================================================================== *)
(** * Further facts about the aggregation *)
(* ===================================================================== *)
Section AggregationFurther.
Local Open Scope Q_scope.
Import Spec QFacts RoundingFacts ScoreFacts CodeUtils.

Lemma round_half_even_range (x : Q) :
  (Qfloor x <= round_half_even x <= Qfloor x + 1)%Z.
Proof.
  unfold round_half_even.
  destruct (Qcompare _ _); [destruct (Z.even _)| |]; lia.
Qed.

Lemma round_half_even_mono (x y : Q) : x <= y -> (round_half_even x <= round_half_even y)%Z.
Proof.
  intros H.
  pose proof (Qfloor_resp_le _ _ H) as Hf.
  destruct (Z.eq_dec (Qfloor x) (Qfloor y)) as [E|N].
  - unfold round_half_even. rewrite E.
    destruct (Qcompare (x - inject_Z (Qfloor y)) (1 # 2)) eqn:Cx;
      destruct (Qcompare (y - inject_Z (Qfloor y)) (1 # 2)) eqn:Cy;
      try (destruct (Z.even (Qfloor y))); try lia; exfalso;
      rewrite <- ?Qeq_alt, <- ?Qlt_alt, <- ?Qgt_alt in Cx;
      rewrite <- ?Qeq_alt, <- ?Qlt_alt, <- ?Qgt_alt in Cy; lra.
  - pose proof (round_half_even_range x). pose proof (round_half_even_range y). lia.
Qed.

Lemma round2_mono (x y : Q) : x <= y -> round2 x <= round2 y.
Proof.
  intros H. unfold round2. rewrite !Qred_correct.
  assert (M : (round_half_even (x * 100) <= round_half_even (y * 100))%Z)
    by (apply round_half_even_mono; lra).
  rewrite Zle_Qle in M.
  apply Qmult_le_compat_r; [exact M|]. discriminate.
Qed.

Lemma Qsum_mono (xs ys : list Q) : Forall2 Qle xs ys -> Qsum xs <= Qsum ys.
Proof.
  induction 1 as [|x y xs ys Hxy _ IH].
  - apply Qle_refl.
  - rewrite !Qsum_cons. lra.
Qed.

(** X3.  With at least one static score, the overall score does not fall
    when scores rise: it is monotone in every static score and in the AI
    score. *)
Theorem overall_score_monotone (static_scores static_scores' : list Q)
  (ai_score ai_score' : Q) :
  static_scores <> [] ->
  Forall2 Qle static_scores static_scores' ->
  ai_score <= ai_score' ->
  calculate_overall_score static_scores ai_score
  <= calculate_overall_score static_scores' ai_score'.
Proof.
  intros Hne HS Ha.
  pose proof (Forall2_length HS) as Hlen.
  pose proof (Qsum_mono HS) as Hsum.
  destruct static_scores as [|s ss]; [congruence|].
  destruct static_scores' as [|s' ss']; [discriminate|].
  unfold calculate_overall_score. cbn [nonempty negb andb].
  apply round2_mono. rewrite <- Hlen.
  set (n := inject_Z (Z.of_nat (length (s :: ss)))).
  assert (Hn : 0 < n).
  { unfold n. change 0 with (inject_Z 0). rewrite <- Zlt_Qlt. simpl. lia. }
  assert (Hd : Qsum (s :: ss) / n <= Qsum (s' :: ss') / n).
  { apply Qmult_le_compat_r; [exact Hsum|]. apply Qlt_le_weak, Qinv_lt_0_compat, Hn. }
  lra.
Qed.

Lemma overall_score_monotone_witness :
  calculate_overall_score [8; 6] 4 <= calculate_overall_score [8; 7] 9.
Proof.
  apply overall_score_monotone.
  - discriminate.
  - repeat constructor; lra.
  - lra.
Defined.

End AggregationFurther.

(* ===================================================================== *)
(** * The review history *)
(* ===================================================================== *)
Section HistoryProperties.
Import Spec Terms ScoreFacts ReviewPresenter.

Lemma store_suffix (h : history) (response : CodeReviewResponse) :
  exists dropped,
    h ++ [history_entry response] = dropped ++ _store_review_history h response
    /\ length (_store_review_history h response) = Nat.min 100 (S (length h)).
Proof.
  unfold _store_review_history. fold (history_entry response).
  set (h1 := h ++ [history_entry response]).
  assert (L : length h1 = S (length h)) by (unfold h1; rewrite length_app; simpl; lia).
  destruct (100 <? length h1) eqn:C.
  - apply Nat.ltb_lt in C.
    exists (firstn (length h1 - 100) h1). split.
    + now rewrite firstn_skipn.
    + rewrite length_skipn. lia.
  - apply Nat.ltb_ge in C. exists []. split; [reflexivity|lia].
Qed.

(** X4.  A review that returns stores its record as the newest entry of
    the history, drops the oldest entries beyond 100 and keeps the others
    in their order; a review that raises leaves the history as it was. *)
Theorem review_history_bounded (w : World) (h : history) (request : CodeReviewRequest) :
  match review_code w h request with
  | (Return response, h') =>
      (exists dropped, h ++ [history_entry response] = dropped ++ h')
      /\ length h' = Nat.min 100 (S (length h))
      /\ last h' (history_entry response) = history_entry response
  | (Raise _, h') => h' = h
  end.
Proof.
  unfold review_code.
  match goal with |- match (match ?o with _ => _ end) with _ => _ end => destruct o as [r|e] end;
    [|reflexivity].
  destruct (store_suffix h r) as [dropped [E L]].
  split; [now exists dropped|]. split; [exact L|].
  destruct (_store_review_history h r) as [|x l] eqn:S; [reflexivity|].
  assert (N : x :: l <> []) by discriminate.
  destruct (exists_last N) as [l' [y E']]. rewrite E' in *.
  rewrite app_assoc in E. apply app_inj_tail in E as [_ ->].
  now rewrite last_last.
Qed.

(** The history after a batch, read off the loop. *)
Lemma batch_step_stored (w : World) (request : BatchReviewRequest) (st : batch_state)
  (file_data : FileData) :
  stored (batch_step w request st file_data)
  = fold_left _store_review_history (to_list (review_alone w request file_data)) (stored st).
Proof.
  unfold batch_step, review_alone.
  destruct (individual_request request file_data) as [r|e]; [|reflexivity].
  rewrite (@review_code_result w [] (stored st) r).
  unfold review_code.
  match goal with |- context [match ?o with Return _ => _ | Raise _ => _ end] =>
    destruct o as [response|e] end; reflexivity.
Qed.

Lemma batch_loop_stored (w : World) (request : BatchReviewRequest) (files : list FileData)
  (st : batch_state) :
  stored (fold_left (batch_step w request) files st)
  = fold_left _store_review_history
      (flat_map (fun fd => to_list (review_alone w request fd)) files) (stored st).
Proof.
  revert st. induction files as [|fd files IH]; intros st; simpl; [reflexivity|].
  rewrite IH, batch_step_stored, fold_left_app. reflexivity.
Qed.

Lemma store_all_suffix (responses : list CodeReviewResponse) (h : history) :
  let h' := fold_left _store_review_history responses h in
  (exists dropped, h ++ map history_entry responses = dropped ++ h')
  /\ (responses <> [] -> length h' = Nat.min 100 (length h + length responses)).
Proof.
  cbv zeta. revert h. induction responses as [|r rs IH]; intros h; cbn [fold_left map].
  - split; [exists []; now rewrite app_nil_r|congruence].
  - destruct (IH (_store_review_history h r)) as [[d2 E2] L2].
    destruct (store_suffix h r) as [d1 [E1 L1]].
    split.
    + exists (d1 ++ d2). rewrite <- app_assoc, <- E2, app_assoc, <- E1.
      now rewrite <- !app_assoc.
    + intros _. destruct rs as [|r' rs].
      * cbn [fold_left length]. rewrite L1. lia.
      * rewrite L2 by discriminate. rewrite L1. cbn [length]. lia.
Qed.

(** X5.  After a batch the history is the old one followed by the records
    of the batch's reviews, in their order, less the oldest entries beyond
    100; a batch without a successful review leaves it as it was. *)
Theorem batch_history (w : World) (h : history) (request : BatchReviewRequest) :
  let response := fst (batch_review w h request) in
  let h' := snd (batch_review w h request) in
  (exists dropped, h ++ map history_entry (bresp_reviews response) = dropped ++ h')
  /\ (bresp_successful_reviews response = 0%nat -> h' = h)
  /\ ((0 < bresp_successful_reviews response)%nat ->
      length h' = Nat.min 100 (length h + bresp_successful_reviews response)).
Proof.
  cbv zeta. unfold batch_review.
  cbn [fst snd bresp_reviews bresp_successful_reviews].
  match goal with
  | |- context [fold_left _ _ ?st0] =>
      destruct (@batch_loop w request (batch_files request) st0) as [H1 [H2 _]];
      pose proof (@batch_loop_stored w request (batch_files request) st0) as H3
  end.
  cbv zeta in H1, H2. cbn [reviews successful_reviews stored app Nat.add] in H1, H2, H3.
  rewrite H1, H2, H3.
  set (rs := flat_map (fun fd => to_list (review_alone w request fd)) (batch_files request)).
  destruct (@store_all_suffix rs h) as [E L].
  split; [exact E|]. split.
  - intros Z. destruct rs; [reflexivity|discriminate].
  - intros P. apply L. destruct rs; [simpl in P; lia|discriminate].
Qed.

Lemma batch_history_witness :
  bresp_successful_reviews (fst (batch_review offline_world [] three_samples)) = 2%nat
  /\ length (snd (batch_review offline_world [] three_samples)) = 2%nat.
Proof.
  assert (S : bresp_successful_reviews (fst (batch_review offline_world [] three_samples))
              = 2%nat) by (vm_compute; reflexivity).
  split; [exact S|].
  destruct (batch_history offline_world [] three_samples) as [_ [_ L]].
  rewrite L; rewrite S; [reflexivity|lia].
Defined.

End HistoryProperties.

(* ===================================================================== *)
(** * Facts about the texts the reviews write *)
(* ===================================================================== *)
Module TextFacts.
Import Terms StrFacts.

Lemma digits_of_uint (u : Decimal.uint) :
  Forall (fun c => isdigit c = true) (lit (NilEmpty.string_of_uint u)).
Proof. induction u; simpl; constructor; try reflexivity; assumption. Qed.

Lemma str_of_nat_digits (n : nat) : Forall (fun c => isdigit c = true) (str_of_nat n).
Proof. apply digits_of_uint. Qed.

Lemma str_of_nat_nonempty (n : nat) : str_of_nat n <> [].
Proof.
  unfold str_of_nat.
  assert (N : Nat.to_uint n <> Decimal.Nil).
  { rewrite <- (DecimalNat.Unsigned.of_to n) at 1. rewrite DecimalNat.Unsigned.to_of.
    apply DecimalFacts.unorm_nonnil. }
  destruct (Nat.to_uint n); try congruence; discriminate.
Qed.

Lemma lower_digit (c : ascii) : isdigit c = true -> lower_char c = c.
Proof.
  intros H. unfold lower_char, isupper. unfold isdigit in H.
  apply andb_true_iff in H as [_ H]. apply Nat.leb_le in H.
  destruct (65 <=? code_of c) eqn:E; [|reflexivity].
  apply Nat.leb_le in E. lia.
Qed.

Lemma lower_digits (s : str) : Forall (fun c => isdigit c = true) s -> lower s = s.
Proof.
  induction 1 as [|c s Hc _ IH]; [reflexivity|].
  simpl. now rewrite IH, lower_digit.
Qed.

Lemma contains_pair_cons (a b x : ascii) (s : str) :
  contains [a; b] (x :: s)
  = (chr_eqb a x && match s with y :: _ => chr_eqb b y | [] => false end)
    || contains [a; b] s.
Proof.
  rewrite contains_unfold. cbn [startswith].
  destruct s as [|y s]; [now rewrite andb_false_r|].
  now rewrite andb_true_r.
Qed.

Lemma last_app_nonempty (x y : str) (d : ascii) : y <> [] -> last (x ++ y) d = last y d.
Proof.
  intros N. destruct (exists_last N) as [y' [c ->]].
  now rewrite app_assoc, !last_last.
Qed.

Lemma contains_pair_app (a b : ascii) (u v : str) :
  contains [a; b] u = false -> contains [a; b] v = false ->
  u = [] \/ last u " "%char <> a ->
  contains [a; b] (u ++ v) = false.
Proof.
  intros Cu Cv. induction u as [|c u IH]; intros L; [exact Cv|].
  cbn [app]. rewrite contains_pair_cons in *.
  apply orb_false_iff in Cu as [C1 C2].
  destruct L as [L|L]; [discriminate|].
  apply orb_false_iff. split.
  - destruct u as [|c' u]; [|exact C1].
    cbn [app]. cbn [last] in L.
    destruct (chr_eqb a c) eqn:E; [|reflexivity].
    apply chr_eqb_eq in E. congruence.
  - apply IH; [exact C2|].
    destruct u as [|c' u]; [now left|right; exact L].
Qed.

(** Texts free of a pair can be put one after the other. *)
Lemma free_of_app (a b : ascii) (x y : str) :
  free_of a b x -> free_of a b y -> free_of a b (x ++ y).
Proof.
  intros [Cx [Nx Lx]] [Cy [Ny Ly]]. unfold free_of. rewrite lower_app.
  assert (Ny' : lower y <> []) by (destruct y; [congruence|discriminate]).
  split; [|split].
  - apply contains_pair_app; [exact Cx|exact Cy|now right].
  - destruct x; [congruence|discriminate].
  - now rewrite last_app_nonempty.
Qed.

(** A number written in decimal is free of every pair of letters. *)
Lemma free_of_number (a b : ascii) (n : nat) :
  isdigit a = false -> free_of a b (str_of_nat n).
Proof.
  intros Ha. pose proof (str_of_nat_digits n) as D.
  pose proof (str_of_nat_nonempty n) as N.
  unfold free_of. rewrite (lower_digits D).
  revert D N. generalize (str_of_nat n) as s. intros s D N.
  split; [|split; [exact N|]].
  - clear N. induction D as [|c s Hc D IH]; [reflexivity|].
    rewrite contains_pair_cons, IH, orb_false_r.
    destruct (chr_eqb a c) eqn:E; [|reflexivity].
    apply chr_eqb_eq in E. congruence.
  - destruct (exists_last N) as [s' [c ->]]. rewrite last_last.
    apply Forall_app in D as [_ D]. inversion D; subst. congruence.
Qed.

(** A text that holds a word holds every pair of neighbours of the word. *)
Lemma contains_trans (p q s : str) :
  contains q p = true -> contains p s = true -> contains q s = true.
Proof.
  intros H1 H2. apply contains_iff in H1 as [a [b ->]].
  apply contains_iff in H2 as [c [d ->]]. apply contains_iff.
  exists (c ++ a), (b ++ d). now rewrite <- !app_assoc.
Qed.

Lemma free_of_word (a b : ascii) (word : string) (s : str) :
  contains [a; b] (lit word) = true -> free_of a b s ->
  contains (lit word) (lower s) = false.
Proof.
  intros W [C _]. destruct (contains (lit word) (lower s)) eqn:E; [|reflexivity].
  rewrite (@contains_trans (lit word) [a; b] (lower s) W E) in C. discriminate.
Qed.

End TextFacts.

Section SummaryFacts.
Import Terms TextFacts CodeUtils.
Local Open Scope Q_scope.

Ltac free_lit :=
  split; [vm_compute; reflexivity | split; [discriminate | vm_compute; discriminate]].

Lemma free_of_join (a b : ascii) (sep : str) (parts : list str) :
  free_of a b sep -> Forall (free_of a b) parts -> parts <> [] ->
  free_of a b (join sep parts).
Proof.
  intros Hsep H N. induction H as [|p ps Hp H IH]; [congruence|].
  destruct ps as [|q ps]; [exact Hp|].
  change (join sep (p :: q :: ps)) with (p ++ sep ++ join sep (q :: ps)).
  apply free_of_app; [exact Hp|]. apply free_of_app; [exact Hsep|].
  apply IH. discriminate.
Qed.

(** A generated summary is free of the pairs on which the dashboard's two
    words depend. *)
Lemma summary_free (a b : ascii) (issues : list CodeIssue)
  (suggestions : list CodeSuggestion) (score : Q) :
  (a = "e" /\ b = "c")%char \/ (a = "r" /\ b = "f")%char ->
  free_of a b (generate_summary issues suggestions score).
Proof.
  intros H. unfold generate_summary.
  assert (D : isdigit a = false) by (destruct H as [[-> _]|[-> _]]; reflexivity).
  apply free_of_app; [|destruct H as [[-> ->]|[-> ->]]; free_lit].
  apply free_of_join; [destruct H as [[-> ->]|[-> ->]]; free_lit| |discriminate].
  apply Forall_app. split; [|apply Forall_app; split].
  - constructor; [|constructor].
    destruct (Qleb 8 score); [|destruct (Qleb 6 score); [|destruct (Qleb 4 score)]];
      destruct H as [[-> ->]|[-> ->]]; free_lit.
  - destruct (0 <? length issues)%nat; [|constructor].
    apply Forall_app. split.
    + constructor; [|constructor].
      apply free_of_app; [destruct H as [[-> ->]|[-> ->]]; free_lit|].
      apply free_of_app; [now apply free_of_number|].
      destruct H as [[-> ->]|[-> ->]]; free_lit.
    + destruct (0 <? count_severity CRITICAL issues)%nat;
        [|destruct (0 <? count_severity HIGH issues)%nat; [|constructor]];
        (constructor; [|constructor]);
        (apply free_of_app; [destruct H as [[-> ->]|[-> ->]]; free_lit|]);
        (apply free_of_app; [now apply free_of_number|]);
        destruct H as [[-> ->]|[-> ->]]; free_lit.
  - destruct suggestions as [|s0 ss]; [constructor|].
    constructor; [|constructor].
    apply free_of_app; [destruct H as [[-> ->]|[-> ->]]; free_lit|].
    apply free_of_app; [now apply free_of_number|].
    destruct H as [[-> ->]|[-> ->]]; free_lit.
Qed.

(** A generated summary mentions neither security nor performance. *)
Lemma summary_mentions (summary : str) :
  generated summary ->
  contains (lit "security") (lower summary) = false
  /\ contains (lit "performance") (lower summary) = false.
Proof.
  intros [issues [suggestions [score ->]]]. split.
  - apply (@free_of_word "e" "c"); [reflexivity|]. apply summary_free. now left.
  - apply (@free_of_word "r" "f"); [reflexivity|]. apply summary_free. now right.
Qed.

End SummaryFacts.

(* ===================================================================== *)
(** * Facts about the responses and the histories made of them *)
(* ===================================================================== *)
Module ResponseFacts.
Import Spec Terms QFacts ScoreFacts ReviewPresenter CodeUtils.
Local Open Scope Q_scope.

(** The response of a review that returns, field by field. *)
Lemma review_code_inv (w : World) (h h' : history) (request : CodeReviewRequest)
  (response : CodeReviewResponse) :
  review_code w h request = (Return response, h') ->
  let code := sanitize_code (req_code request) in
  let static_results := static_phase w request code in
  let ai_result := ai_phase w request code in
  let all_issues := _combine_issues static_results ai_result in
  let all_suggestions := _extract_suggestions ai_result in
  _validate_review_request w request = Return tt
  /\ h' = _store_review_history h response
  /\ in_range (resp_overall_score response) = true
  /\ response
     = {| resp_language := req_language request;
          resp_file_name := req_file_name request;
          resp_static_analysis := hd_error static_results;
          resp_ai_analysis := ai_result;
          resp_overall_score := overall_score_of static_results ai_result;
          resp_total_issues := length all_issues;
          resp_critical_issues := _count_issues_by_severity all_issues CRITICAL;
          resp_security_issues := length (_extract_security_concerns ai_result);
          resp_summary :=
            generate_summary all_issues all_suggestions
              (overall_score_of static_results ai_result);
          resp_recommendations :=
            _generate_recommendations all_issues all_suggestions (req_focus_areas request);
          resp_tools_used := tools_used_of static_results ai_result |}.
Proof.
  cbv zeta. unfold review_code.
  destruct (_validate_review_request w request) as [[]|e]; [|discriminate].
  cbv beta iota delta [bind].
  unfold new_CodeReviewResponse, check, _generate_review_summary.
  destruct (in_range (overall_score_of _ _)) eqn:R; cbv beta iota delta [bind];
    [|discriminate].
  intros [= <- <-]. repeat split. exact R.
Qed.

Lemma review_recorded (w : World) (h h' : history) (request : CodeReviewRequest)
  (response : CodeReviewResponse) :
  review_code w h request = (Return response, h') -> recorded (history_entry response).
Proof.
  intros H. apply review_code_inv in H as [_ [_ [R E]]]. cbv zeta in E.
  split; [exact R|]. rewrite E. cbn [history_entry hist_summary resp_summary].
  eexists _, _, _. reflexivity.
Qed.

Lemma store_recorded (h : history) (response : CodeReviewResponse) :
  Forall recorded h -> recorded (history_entry response) ->
  Forall recorded (_store_review_history h response).
Proof.
  intros H R. destruct (store_suffix h response) as [dropped [E _]].
  assert (F : Forall recorded (h ++ [history_entry response])).
  { apply Forall_app. split; [exact H|]. constructor; [exact R|constructor]. }
  rewrite E in F. now apply Forall_app in F as [_ F].
Qed.

Lemma store_all_recorded (responses : list CodeReviewResponse) (h : history) :
  Forall recorded h -> Forall (fun r => recorded (history_entry r)) responses ->
  Forall recorded (fold_left _store_review_history responses h).
Proof.
  intros H R. revert h H. induction R as [|r rs Hr _ IH]; intros h H; [exact H|].
  cbn [fold_left]. apply IH. now apply store_recorded.
Qed.

Lemma store_all_short (responses : list CodeReviewResponse) (h : history) :
  (length h <= 100)%nat ->
  (length (fold_left _store_review_history responses h) <= 100)%nat.
Proof.
  intros H. destruct responses as [|r rs]; [exact H|].
  destruct (@store_all_suffix (r :: rs) h) as [_ L]. rewrite L by discriminate. lia.
Qed.

Lemma alone_recorded (w : World) (request : BatchReviewRequest) (files : list FileData) :
  Forall (fun r => recorded (history_entry r))
    (flat_map (fun fd => to_list (review_alone w request fd)) files).
Proof.
  apply Forall_forall. intros r Hr.
  apply in_flat_map in Hr as [fd [_ Hr]]. unfold review_alone in Hr.
  destruct (individual_request request fd) as [individual|e]; [|destruct Hr].
  destruct (review_code w [] individual) as [[response|e] h'] eqn:E; [|destruct Hr].
  destruct Hr as [<-|[]]. exact (review_recorded _ _ _ E).
Qed.

(** Every history a presenter can hold has at most 100 entries, each with
    a validated score and a generated summary. *)
Lemma produced_recorded (h : history) :
  produced h -> (length h <= 100)%nat /\ Forall recorded h.
Proof.
  induction 1 as [|w h request _ [L F]|w h request _ [L F]].
  - split; [simpl; lia|constructor].
  - destruct (review_code w h request) as [[response|e] h'] eqn:E; cbn [snd].
    + pose proof (review_recorded _ _ _ E) as R.
      apply review_code_inv in E as [_ [-> _]].
      split; [|now apply store_recorded].
      destruct (store_suffix h response) as [_ [_ L']]. rewrite L'. lia.
    + unfold review_code in E.
      destruct (_ <- _validate_review_request w request ;; _); [discriminate|].
      injection E as _ <-. now split.
  - unfold batch_review. cbn [snd]. rewrite batch_loop_stored. cbn [stored].
    split; [now apply store_all_short|].
    apply store_all_recorded; [exact F|apply alone_recorded].
Qed.

End ResponseFacts.

Section DashboardProperties.
Import Spec Terms QFacts RoundingFacts ResponseFacts ReviewPresenter.
Local Open Scope Q_scope.

Lemma filter_none (A : Type) (f : A -> bool) (l : list A) :
  Forall (fun x => f x = false) l -> filter f l = [].
Proof. induction 1 as [|x l Hx _ IH]; [reflexivity|]. simpl. now rewrite Hx. Qed.

(** X6.  On every history a presenter can hold, the dashboard counts no
    security issues and no performance issues: it sums the issues of the
    reviews whose summary holds the word, and no generated summary does. *)
Theorem dashboard_counts_by_summary (timed_history : list Timed) :
  produced (map snd timed_history) ->
  let metrics := get_dashboard_metrics timed_history in
  dash_security_issues_count metrics = 0%nat
  /\ dash_performance_issues_count metrics = 0%nat.
Proof.
  intros P. apply produced_recorded in P as [_ F]. cbv zeta.
  unfold get_dashboard_metrics.
  destruct (negb (nonempty (map snd timed_history))); [split; reflexivity|].
  cbn [dash_security_issues_count dash_performance_issues_count].
  rewrite !filter_none; [split; reflexivity| |];
    (eapply Forall_impl; [|exact F]); intros e [_ G]; unfold mentions;
    now apply summary_mentions in G.
Qed.

Lemma one_review_produced : produced (map snd one_review).
Proof.
  unfold one_review. rewrite map_map. cbn [snd]. rewrite map_id.
  apply produced_review, produced_start.
Qed.

Lemma dashboard_counts_by_summary_witness :
  produced (map snd one_review)
  /\ dash_total_reviews (get_dashboard_metrics one_review) = 1%nat
  /\ dash_security_issues_count (get_dashboard_metrics one_review) = 0%nat
  /\ dash_performance_issues_count (get_dashboard_metrics one_review) = 0%nat.
Proof.
  split; [exact one_review_produced|]. split; [vm_compute; reflexivity|].
  apply dashboard_counts_by_summary, one_review_produced.
Defined.

(** X7.  On every history a presenter can hold, the dashboard reports at
    most 100 reviews, an average score between 0 and 10 and at most 10
    recent reviews; the empty history gives the zero metrics. *)
Theorem dashboard_in_range (timed_history : list Timed) :
  produced (map snd timed_history) ->
  let metrics := get_dashboard_metrics timed_history in
  dash_total_reviews metrics = length timed_history
  /\ (dash_total_reviews metrics <= 100)%nat
  /\ 0 <= dash_average_score metrics <= 10
  /\ (length (dash_recent_reviews metrics) <= 10)%nat.
Proof.
  intros P. apply produced_recorded in P as [L F]. cbv zeta.
  unfold get_dashboard_metrics. rewrite length_map in L.
  destruct (map snd timed_history) as [|e es] eqn:E.
  - destruct timed_history; [|discriminate]. cbn. repeat split; try lia; lra.
  - cbn [nonempty negb dash_total_reviews dash_average_score dash_recent_reviews].
    rewrite <- E, length_map. split; [reflexivity|]. split; [exact L|]. split.
    + apply round2_bounds.
      assert (B : forall x, In x (map hist_overall_score (map snd timed_history)) ->
                            0 <= x <= 10).
      { intros x Hx. apply in_map_iff in Hx as [y [<- Hy]].
        rewrite E in Hy. rewrite Forall_forall in F.
        apply in_range_iff. now apply F. }
      pose proof (@mean_or_bounds _ 5 0 10 ltac:(lra) B) as M.
      pose proof (f_equal (@length _) E) as LE. rewrite length_map in LE.
      cbn [length] in LE.
      rewrite E in M, B. cbn [map mean_or] in M. rewrite E, LE.
      cbn [map length] in M |- *. rewrite length_map in M. exact M.
    + rewrite length_firstn. lia.
Qed.

Lemma dashboard_in_range_witness :
  produced (map snd one_review)
  /\ 0 <= dash_average_score (get_dashboard_metrics one_review) <= 10.
Proof.
  split; [exact one_review_produced|].
  apply (dashboard_in_range one_review one_review_produced).
Defined.

End DashboardProperties.

Section DashboardLists.
Import Spec Terms StrFacts ReviewPresenter.

Lemma dict_count_up_same (key : str) (d : list (str * nat)) :
  dict_count key (count_up key d) = S (dict_count key d).
Proof.
  unfold dict_count. induction d as [|[k n] d IH]; simpl.
  - assert (E : str_eqb key key = true) by now apply str_eqb_eq. now rewrite E.
  - destruct (str_eqb k key) eqn:E; simpl; rewrite E; [reflexivity|exact IH].
Qed.

Lemma dict_count_up_other (key key' : str) (d : list (str * nat)) :
  key' <> key -> dict_count key' (count_up key d) = dict_count key' d.
Proof.
  intros N. unfold dict_count. induction d as [|[k n] d IH]; simpl.
  - destruct (str_eqb key key') eqn:E; [|reflexivity].
    apply str_eqb_eq in E. congruence.
  - destruct (str_eqb k key) eqn:E; simpl.
    + apply str_eqb_eq in E. subst k.
      destruct (str_eqb key key') eqn:E'; [|reflexivity].
      apply str_eqb_eq in E'. congruence.
    + destruct (str_eqb k key'); [reflexivity|exact IH].
Qed.

Lemma count_up_sum (key : str) (d : list (str * nat)) :
  list_sum (map snd (count_up key d)) = S (list_sum (map snd d)).
Proof.
  induction d as [|[k n] d IH]; simpl; [reflexivity|].
  destruct (str_eqb k key); simpl; [reflexivity|]. rewrite IH. lia.
Qed.

Lemma count_up_keys (key : str) (d : list (str * nat)) :
  map fst (count_up key d)
  = if existsb (fun k => str_eqb k key) (map fst d) then map fst d
    else map fst d ++ [key].
Proof.
  induction d as [|[k n] d IH]; simpl; [reflexivity|].
  destruct (str_eqb k key); simpl; [reflexivity|]. rewrite IH.
  now destruct (existsb _ _).
Qed.

Lemma count_up_nodup (key : str) (d : list (str * nat)) :
  NoDup (map fst d) -> NoDup (map fst (count_up key d)).
Proof.
  intros H. rewrite count_up_keys.
  destruct (existsb _ _) eqn:E; [exact H|].
  apply NoDup_app; [exact H|repeat constructor; intros []|].
  intros k Hk [<-|[]].
  assert (X : existsb (fun k' => str_eqb k' key) (map fst d) = true).
  { apply existsb_exists. exists key. split; [exact Hk|now apply str_eqb_eq]. }
  congruence.
Qed.

(** The loop of the language distribution, from any dictionary. *)
Lemma distribution_loop (h : history) (d : list (str * nat)) :
  let d' := fold_left (fun d review => count_up (language_value (hist_language review)) d)
              h d in
  (forall l, dict_count (language_value l) d'
             = (dict_count (language_value l) d
                + length (filter (fun e => language_eqb (hist_language e) l) h))%nat)
  /\ list_sum (map snd d') = (list_sum (map snd d) + length h)%nat
  /\ (NoDup (map fst d) -> NoDup (map fst d')).
Proof.
  cbv zeta. revert d. induction h as [|e h IH]; intros d; cbn [fold_left].
  - repeat split; try (intros; simpl; lia). auto.
  - destruct (IH (count_up (language_value (hist_language e)) d)) as [H1 [H2 H3]].
    split; [|split].
    + intros l. rewrite H1. cbn [filter]. unfold language_eqb at 2.
      destruct (str_eqb (language_value (hist_language e)) (language_value l)) eqn:E.
      * apply str_eqb_eq in E. rewrite E, dict_count_up_same. simpl. lia.
      * rewrite dict_count_up_other; [reflexivity|].
        intros X. rewrite X in E.
        assert (R : str_eqb (language_value (hist_language e))
                      (language_value (hist_language e)) = true) by now apply str_eqb_eq.
        congruence.
    + rewrite H2, count_up_sum. simpl. lia.
    + intros N. apply H3. now apply count_up_nodup.
Qed.

(** X8.  The language distribution of the dashboard counts every review
    once, under the language of the review: the count of a language is the
    number of entries of that language, the counts add up to the number of
    reviews, and no language has two entries. *)
Theorem language_distribution_counts (timed_history : list Timed) :
  let metrics := get_dashboard_metrics timed_history in
  let distribution := dash_language_distribution metrics in
  (forall l,
     dict_count (language_value l) distribution
     = length (filter (fun e => language_eqb (hist_language e) l) (map snd timed_history)))
  /\ list_sum (map snd distribution) = dash_total_reviews metrics
  /\ NoDup (map fst distribution).
Proof.
  cbv zeta. unfold get_dashboard_metrics.
  destruct (map snd timed_history) as [|e h] eqn:E.
  - cbn. repeat split. constructor.
  - cbn [nonempty negb dash_language_distribution dash_total_reviews].
    destruct (@distribution_loop (e :: h) []) as [H1 [H2 H3]]. cbv zeta in H1, H2, H3.
    split; [|split].
    + intros l. now rewrite H1.
    + now rewrite H2.
    + apply H3. constructor.
Qed.

Lemma insert_perm (x : Timed) (l : list Timed) :
  Permutation (insert_by_timestamp x l) (x :: l).
Proof.
  induction l as [|y l IH]; simpl; [reflexivity|].
  destruct (timestamp y <=? timestamp x)%Z; [reflexivity|].
  rewrite IH. apply perm_swap.
Qed.

Lemma sorted_perm (l : list Timed) : Permutation (sorted_newest_first l) l.
Proof.
  induction l as [|x l IH]; simpl; [reflexivity|].
  rewrite insert_perm. now constructor.
Qed.

Lemma insert_sorted (x : Timed) (l : list Timed) :
  StronglySorted newer_first l -> StronglySorted newer_first (insert_by_timestamp x l).
Proof.
  induction 1 as [|y l S IH F]; simpl; [repeat constructor|].
  destruct (timestamp y <=? timestamp x)%Z eqn:C.
  - apply Z.leb_le in C. constructor; [now constructor|].
    constructor; [exact C|].
    eapply Forall_impl; [|exact F]. unfold newer_first. intros z Hz. lia.
  - apply Z.leb_gt in C. constructor; [exact IH|].
    apply (Permutation_Forall (Permutation_sym (insert_perm x l))).
    constructor; [|exact F]. unfold newer_first. lia.
Qed.

Lemma sorted_sorted (l : list Timed) : StronglySorted newer_first (sorted_newest_first l).
Proof.
  induction l as [|x l IH]; simpl; [constructor|]. now apply insert_sorted.
Qed.

Lemma sorted_app_inv (a b : list Timed) :
  StronglySorted newer_first (a ++ b) ->
  StronglySorted newer_first a
  /\ forall x y, In x a -> In y b -> newer_first x y.
Proof.
  induction a as [|c a IH]; cbn [app]; intros S.
  - split; [constructor|intros x y []].
  - inversion S as [|c' l S' F]; subst. destruct (IH S') as [Sa Hab].
    apply Forall_app in F as [Fa Fb].
    split; [now constructor|].
    intros x y [<-|Hx] Hy; [|now apply Hab].
    rewrite Forall_forall in Fb. now apply Fb.
Qed.

(** X9.  The recent reviews of the dashboard are the ten newest entries
    of the history (all of them when there are fewer), the newest first:
    no entry left out is newer than an entry shown. *)
Theorem recent_reviews_newest (timed_history : list Timed) :
  let recent := dash_recent_reviews (get_dashboard_metrics timed_history) in
  length recent = Nat.min 10 (length timed_history)
  /\ StronglySorted newer_first recent
  /\ exists older,
       Permutation timed_history (recent ++ older)
       /\ forall x y, In x recent -> In y older -> newer_first x y.
Proof.
  cbv zeta. unfold get_dashboard_metrics.
  destruct (map snd timed_history) as [|e h] eqn:E.
  - destruct timed_history; [|discriminate]. cbn.
    split; [reflexivity|]. split; [constructor|].
    exists []. split; [constructor|intros x y []].
  - cbn [nonempty negb dash_recent_reviews]. clear E.
    pose proof (sorted_perm timed_history) as P.
    pose proof (Permutation_length P) as PL.
    pose proof (sorted_sorted timed_history) as S.
    rewrite <- (firstn_skipn 10 (sorted_newest_first timed_history)) in P, S.
    apply sorted_app_inv in S as [S1 S2].
    split; [|split; [exact S1|]].
    + now rewrite length_firstn, PL.
    + exists (skipn 10 (sorted_newest_first timed_history)).
      split; [now symmetry|exact S2].
Qed.

End DashboardLists.

(* ===================================================================== *)
(** * Groups of issues *)
(* ===================================================================== *)
Section GroupProperties.
Import Terms CodeUtils.

Lemma issue_type_eqb_eq (a b : IssueType) : issue_type_eqb a b = true <-> a = b.
Proof. destruct a, b; split; intros H; try reflexivity; discriminate. Qed.

Lemma issue_type_eqb_refl (a : IssueType) : issue_type_eqb a a = true.
Proof. now apply issue_type_eqb_eq. Qed.

Lemma group_of_append_same (key : IssueType) (issue : CodeIssue) (grouped : groups) :
  group_of key (grouped_append key issue grouped) = group_of key grouped ++ [issue].
Proof.
  unfold group_of. induction grouped as [|[k m] g IH]; simpl.
  - now rewrite issue_type_eqb_refl.
  - destruct (issue_type_eqb k key) eqn:E; simpl; rewrite E; [reflexivity|exact IH].
Qed.

Lemma group_of_append_other (key key' : IssueType) (issue : CodeIssue) (grouped : groups) :
  key' <> key -> group_of key' (grouped_append key issue grouped) = group_of key' grouped.
Proof.
  intros N. unfold group_of. induction grouped as [|[k m] g IH]; simpl.
  - destruct (issue_type_eqb key key') eqn:E; [|reflexivity].
    apply issue_type_eqb_eq in E. congruence.
  - destruct (issue_type_eqb k key) eqn:E; simpl.
    + apply issue_type_eqb_eq in E. subst k.
      destruct (issue_type_eqb key key') eqn:E'; [|reflexivity].
      apply issue_type_eqb_eq in E'. congruence.
    + destruct (issue_type_eqb k key'); [reflexivity|exact IH].
Qed.

Lemma append_keys (key : IssueType) (issue : CodeIssue) (grouped : groups) :
  map fst (grouped_append key issue grouped)
  = if existsb (fun k => issue_type_eqb k key) (map fst grouped) then map fst grouped
    else map fst grouped ++ [key].
Proof.
  induction grouped as [|[k m] g IH]; simpl; [reflexivity|].
  destruct (issue_type_eqb k key); simpl; [reflexivity|]. rewrite IH.
  now destruct (existsb _ _).
Qed.

Lemma append_nodup (key : IssueType) (issue : CodeIssue) (grouped : groups) :
  NoDup (map fst grouped) -> NoDup (map fst (grouped_append key issue grouped)).
Proof.
  intros H. rewrite append_keys.
  destruct (existsb _ _) eqn:E; [exact H|].
  apply NoDup_app; [exact H|repeat constructor; intros []|].
  intros k Hk [<-|[]].
  assert (X : existsb (fun k' => issue_type_eqb k' key) (map fst grouped) = true).
  { apply existsb_exists. exists key. split; [exact Hk|apply issue_type_eqb_refl]. }
  congruence.
Qed.

Lemma append_nonempty (key : IssueType) (issue : CodeIssue) (grouped : groups) :
  Forall (fun entry => snd entry <> []) grouped ->
  Forall (fun entry => snd entry <> []) (grouped_append key issue grouped).
Proof.
  induction 1 as [|[k m] g Hm Hg IH]; simpl.
  - repeat constructor. discriminate.
  - destruct (issue_type_eqb k key); constructor; try assumption.
    simpl. destruct m; discriminate.
Qed.

Lemma append_sizes (key : IssueType) (issue : CodeIssue) (grouped : groups) :
  list_sum (map (fun entry => length (snd entry)) (grouped_append key issue grouped))
  = S (list_sum (map (fun entry => length (snd entry)) grouped)).
Proof.
  induction grouped as [|[k m] g IH]; simpl; [reflexivity|].
  destruct (issue_type_eqb k key); simpl.
  - rewrite length_app. simpl. lia.
  - rewrite IH. lia.
Qed.

Lemma of_type_snoc (key : IssueType) (seen : list CodeIssue) (issue : CodeIssue) :
  of_type key (seen ++ [issue])
  = of_type key seen ++ (if issue_type_eqb (issue_type issue) key then [issue] else []).
Proof. unfold of_type. rewrite filter_app. simpl. now destruct (issue_type_eqb _ _). Qed.

(** The loop of [group_issues_by_type], from the groups of the issues
    seen so far. *)
Lemma group_loop (issues seen : list CodeIssue) (grouped : groups) :
  (forall key, group_of key grouped = of_type key seen) ->
  NoDup (map fst grouped) ->
  Forall (fun entry => snd entry <> []) grouped ->
  list_sum (map (fun entry => length (snd entry)) grouped) = length seen ->
  let grouped' :=
    fold_left (fun grouped issue => grouped_append (issue_type issue) issue grouped)
      issues grouped in
  (forall key, group_of key grouped' = of_type key (seen ++ issues))
  /\ NoDup (map fst grouped')
  /\ Forall (fun entry => snd entry <> []) grouped'
  /\ list_sum (map (fun entry => length (snd entry)) grouped') = length (seen ++ issues).
Proof.
  cbv zeta. revert seen grouped.
  induction issues as [|issue issues IH]; intros seen grouped H1 H2 H3 H4; cbn [fold_left].
  - rewrite app_nil_r. now repeat split.
  - replace (seen ++ issue :: issues) with ((seen ++ [issue]) ++ issues)
      by now rewrite <- app_assoc.
    apply IH.
    + intros key. rewrite of_type_snoc.
      destruct (issue_type_eqb (issue_type issue) key) eqn:E.
      * apply issue_type_eqb_eq in E. subst key.
        now rewrite group_of_append_same, H1.
      * rewrite group_of_append_other, app_nil_r; [apply H1|].
        intros X. rewrite X, issue_type_eqb_refl in E. discriminate.
    + now apply append_nodup.
    + now apply append_nonempty.
    + rewrite append_sizes, H4, length_app. simpl. lia.
Qed.

Lemma group_of_entry (key : IssueType) (members : list CodeIssue) (grouped : groups) :
  NoDup (map fst grouped) -> In (key, members) grouped -> group_of key grouped = members.
Proof.
  unfold group_of. induction grouped as [|[k m] g IH]; simpl; [intros _ []|].
  intros N [H|H].
  - injection H as -> ->. now rewrite issue_type_eqb_refl.
  - inversion N as [|k' l Hk N']; subst.
    destruct (issue_type_eqb k key) eqn:E; [|now apply IH].
    apply issue_type_eqb_eq in E. subst k. exfalso. apply Hk.
    apply in_map_iff. now exists (key, members).
Qed.

(** X10.  [group_issues_by_type] partitions the issues: the group of a
    type holds exactly the issues of that type, in the order of the list;
    no type has two groups, no group is empty, and the sizes of the groups
    add up to the number of issues. *)
Theorem group_issues_partition (issues : list CodeIssue) :
  let grouped := group_issues_by_type issues in
  (forall key members, In (key, members) grouped ->
                       members = of_type key issues /\ members <> [])
  /\ (forall issue, In issue issues ->
                    exists members, In (issue_type issue, members) grouped
                                    /\ In issue members)
  /\ NoDup (map fst grouped)
  /\ list_sum (map (fun entry => length (snd entry)) grouped) = length issues.
Proof.
  cbv zeta. unfold group_issues_by_type.
  destruct (@group_loop issues [] []) as [H1 [H2 [H3 H4]]];
    try (constructor; fail); try reflexivity.
  cbv zeta in H1, H2, H3, H4. cbn [app] in H1, H4.
  match goal with
  | H : NoDup (map fst ?g) |- _ => set (grouped := g) in *
  end.
  split; [|split; [|split]]; try assumption.
  - intros key members H. split.
    + rewrite <- H1. symmetry. now apply group_of_entry.
    + rewrite Forall_forall in H3. exact (H3 _ H).
  - intros issue Hi.
    assert (M : In issue (of_type (issue_type issue) issues)).
    { apply filter_In. split; [exact Hi|apply issue_type_eqb_refl]. }
    rewrite <- H1 in M. unfold group_of in M.
    destruct (find _ grouped) as [[k m]|] eqn:F; [|destruct M].
    apply find_some in F as [F E]. simpl in E, M.
    apply issue_type_eqb_eq in E. subst k. now exists m.
Qed.

Lemma group_issues_partition_witness :
  let issues :=
    StaticAnalyzer._parse_pylint_text_output (lit "a.py:2: warning : Unused import os")
    ++ StaticAnalyzer._parse_bandit_text_output (lit ">> Issue: Use of assert detected.") in
  map fst (group_issues_by_type issues) = [STYLE_VIOLATION; SECURITY_VULNERABILITY]
  /\ forall members,
       In (STYLE_VIOLATION, members) (group_issues_by_type issues) ->
       members = of_type STYLE_VIOLATION issues.
Proof.
  cbv zeta. split; [vm_compute; reflexivity|].
  intros members H.
  exact (proj1 (proj1 (group_issues_partition _) STYLE_VIOLATION members H)).
Defined.

End GroupProperties.

(* ===================================================================== *)
(** * File names and languages *)
(* ===================================================================== *)
Section FileNameProperties.
Import Terms StrFacts CodeUtils.

Lemma contains_char (c : ascii) (s : str) : contains [c] s = existsb (chr_eqb c) s.
Proof.
  induction s as [|x s IH]; [reflexivity|].
  rewrite contains_unfold. cbn [startswith existsb]. now rewrite andb_true_r, IH.
Qed.

Lemma split_acc_whole (sep : ascii) (cur s : str) :
  contains [sep] s = false -> split_acc sep cur s = [cur ++ s].
Proof.
  rewrite contains_char. revert cur. induction s as [|c s IH]; intros cur H; simpl.
  - now rewrite app_nil_r.
  - simpl in H. apply orb_false_iff in H as [H1 H2].
    assert (E : chr_eqb c sep = false).
    { apply chr_eqb_neq. apply chr_eqb_neq in H1. congruence. }
    rewrite E, IH by exact H2. now rewrite <- app_assoc.
Qed.

Lemma split_acc_last (sep : ascii) (cur stem ext : str) :
  contains [sep] ext = false ->
  last (split_acc sep cur (stem ++ sep :: ext)) [] = ext.
Proof.
  intros H. revert cur. induction stem as [|c stem IH]; intros cur; cbn [app split_acc].
  - rewrite chr_eqb_refl, split_acc_whole by exact H. reflexivity.
  - destruct (chr_eqb c sep).
    + change (last (cur :: split_acc sep [] (stem ++ sep :: ext)) [])
        with (match split_acc sep [] (stem ++ sep :: ext) with
              | [] => cur
              | _ :: _ => last (split_acc sep [] (stem ++ sep :: ext)) []
              end).
      rewrite IH. destruct (split_acc sep [] (stem ++ sep :: ext)) eqn:E; [|reflexivity].
      exfalso. clear - E. revert E. generalize (@nil ascii) at 1.
      induction (stem ++ sep :: ext) as [|x l IHl]; intros a; simpl; [discriminate|].
      destruct (chr_eqb x sep); [discriminate|apply IHl].
    + apply IH.
Qed.

Lemma lower_dotless (ext : str) :
  contains (lit ".") ext = false -> contains (lit ".") (lower ext) = false.
Proof.
  change (lit ".") with ["."%char]. rewrite !contains_char.
  induction ext as [|c s IH]; [reflexivity|].
  change (lower (c :: s)) with (lower_char c :: lower s). cbn [existsb].
  intros H. apply orb_false_iff in H as [H1 H2].
  rewrite (IH H2), orb_false_r.
  apply chr_eqb_neq. apply chr_eqb_neq in H1. intros X. apply H1.
  revert X. clear. destruct c as [[] [] [] [] [] [] [] []]; cbv; congruence.
Qed.

Lemma lower_lower (s : str) : lower (lower s) = lower s.
Proof.
  unfold lower. rewrite map_map. apply map_ext.
  intros c. destruct c as [[] [] [] [] [] [] [] []]; reflexivity.
Qed.

(** The language of a file name is read off the text after its last dot,
    whatever the letter case. *)
Lemma detect_by_extension (stem ext : str) :
  contains (lit ".") ext = false ->
  detect_language_from_filename (stem ++ lit "." ++ ext)
  = dict_get extension_map (lit "." ++ lower ext).
Proof.
  intros H. unfold detect_language_from_filename.
  assert (N : nonempty (stem ++ lit "." ++ ext) = true) by (destruct stem; reflexivity).
  assert (C : contains (lit ".") (stem ++ lit "." ++ ext) = true).
  { apply contains_iff. now exists stem, ext. }
  rewrite N, C. cbn [negb]. unfold split.
  change (lit "." ++ ext) with ("."%char :: ext).
  now rewrite split_acc_last.
Qed.

(** X11.  [detect_language_from_filename] reads the text after the last
    dot of the name and nothing else, without regard to letter case; a
    name without a dot has no language. *)
Theorem language_by_last_extension :
  (forall stem ext,
     contains (lit ".") ext = false ->
     detect_language_from_filename (stem ++ lit "." ++ ext)
     = detect_language_from_filename (lit "." ++ lower ext))
  /\ (forall filename,
        contains (lit ".") filename = false ->
        detect_language_from_filename filename = None).
Proof.
  split.
  - intros stem ext H. rewrite detect_by_extension by exact H.
    pose proof (lower_dotless ext H) as L.
    change (lit "." ++ lower ext) with ([] ++ lit "." ++ lower ext) at 2.
    rewrite (@detect_by_extension [] (lower ext) L).
    now rewrite lower_lower.
  - intros filename H. unfold detect_language_from_filename.
    rewrite H. now destruct (negb (nonempty filename)).
Qed.

Lemma language_by_last_extension_witness :
  detect_language_from_filename (lit "backup.tar.PY") = Some (lit "python")
  /\ detect_language_from_filename (lit "Makefile") = None.
Proof.
  split.
  - change (lit "backup.tar.PY") with (lit "backup.tar" ++ lit "." ++ lit "PY").
    rewrite (proj1 language_by_last_extension (lit "backup.tar") (lit "PY") eq_refl).
    reflexivity.
  - apply (proj2 language_by_last_extension). reflexivity.
Defined.

(** X12.  The extension the analyzer gives to the temporary file of a
    language is detected as that language, whatever comes before it; a
    request whose file name ends in the extension of its language raises
    no language mismatch. *)
Theorem extension_round_trip (language : ProgrammingLanguage) (stem : str) :
  detect_language_from_filename (stem ++ StaticAnalyzer._get_file_extension language)
  = Some (language_value language)
  /\ forall request,
       req_language request = language ->
       req_file_name request = Some (stem ++ StaticAnalyzer._get_file_extension language) ->
       ReviewRouter.language_mismatch request = false.
Proof.
  assert (D : detect_language_from_filename
                (stem ++ StaticAnalyzer._get_file_extension language)
              = Some (language_value language)).
  { destruct language; cbn [StaticAnalyzer._get_file_extension];
      match goal with
      | |- context [stem ++ lit ?e] =>
          let e' := eval cbv in (lit e) in
          match e' with
          | _ :: ?ext => change (lit e) with (lit "." ++ ext)
          end
      end;
      rewrite detect_by_extension by reflexivity; reflexivity. }
  split; [exact D|].
  intros request L F. unfold ReviewRouter.language_mismatch. rewrite F, L, D.
  assert (E : str_eqb (language_value language) (language_value language) = true)
    by now apply str_eqb_eq.
  rewrite E. cbn [negb]. rewrite andb_false_r. now destruct (nonempty _).
Qed.

Lemma extension_round_trip_witness :
  detect_language_from_filename (lit "/tmp/tmpab12cd.rs") = Some (lit "rust")
  /\ ReviewRouter.language_mismatch
       {| req_code := lit "fn main() {}"; req_language := RUST; req_context := None;
          req_file_name := Some (lit "main.rs"); req_include_static_analysis := true;
          req_include_ai_analysis := true; req_focus_areas := None |} = false.
Proof.
  split.
  - exact (proj1 (extension_round_trip RUST (lit "/tmp/tmpab12cd"))).
  - apply (proj2 (extension_round_trip RUST (lit "main"))); reflexivity.
Defined.

End FileNameProperties.

(* ===================================================================== *)
(** * The parts of a response *)
(* ===================================================================== *)
Section ResponseProperties.
Import Spec Terms QFacts StrFacts RunnerFacts ScoreFacts ResponseFacts StaticAnalyzer
  ReviewPresenter CodeUtils.
Local Open Scope Q_scope.

Lemma run_tool_named (w : World) (t : Tool) (file_path : str) (r : StaticAnalysisResult) :
  run_tool w t file_path = Return r -> sa_tool r = tool_field t.
Proof.
  destruct t; simpl; unfold _run_pylint, _run_eslint, _run_bandit.
  - destruct (_run_pylint_try w file_path) as [r'|e] eqn:E; simpl.
    + intros [= <-]. unfold _run_pylint_try in E.
      destruct (subprocess_run w Pylint file_path); simpl in E; [|discriminate].
      match type of E with (bind ?m _ = _) => destruct m; simpl in E; [|discriminate] end.
      now apply new_result_inv in E as [_ ->].
    + destruct e; intros H; apply new_result_inv in H as [_ ->]; reflexivity.
  - destruct (_run_eslint_try w file_path) as [r'|e] eqn:E; simpl.
    + intros [= <-]. unfold _run_eslint_try in E.
      destruct (subprocess_run w Eslint file_path); simpl in E; [|discriminate].
      match type of E with (bind ?m _ = _) => destruct m; simpl in E; [|discriminate] end.
      now apply new_result_inv in E as [_ ->].
    + destruct e; intros H; apply new_result_inv in H as [_ ->]; reflexivity.
  - destruct (_run_bandit_try w file_path) as [r'|e] eqn:E; simpl.
    + intros [= <-]. unfold _run_bandit_try in E.
      destruct (subprocess_run w Bandit file_path); simpl in E; [|discriminate].
      match type of E with (bind ?m _ = _) => destruct m; simpl in E; [|discriminate] end.
      now apply new_result_inv in E as [_ ->].
    + destruct e; intros H; apply new_result_inv in H as [_ ->]; reflexivity.
Qed.

(** The analyzer runs the enabled tools of the language, each once. *)
Lemma analyze_code_tools (w : World) (code : str) (language : ProgrammingLanguage)
  (file_name : option str) :
  temp_file w code = Return tt ->
  exists results,
    analyze_code w code language file_name = Return results
    /\ Forall2 (fun t r => run_tool w t code = Return r)
         (enabled_tools (settings w) language) results.
Proof.
  intros T. unfold analyze_code, enabled_tools, run_if. rewrite T.
  cbv beta iota delta [bind].
  destruct (run_tool_returns w Pylint code) as [rp [Hp _]].
  destruct (run_tool_returns w Bandit code) as [rb [Hb _]].
  destruct (run_tool_returns w Eslint code) as [re [He _]].
  cbn [run_tool] in Hp, Hb, He.
  destruct language; try (exists []; split; [reflexivity|constructor]).
  - destruct (PYLINT_ENABLED (settings w)), (BANDIT_ENABLED (settings w));
      rewrite ?Hp, ?Hb; cbv beta iota delta [bind]; rewrite ?Hb;
      eexists; (split; [reflexivity|]); repeat constructor; assumption.
  - destruct (ESLINT_ENABLED (settings w)); rewrite ?He; cbv beta iota delta [bind];
      eexists; (split; [reflexivity|]); repeat constructor; assumption.
  - destruct (ESLINT_ENABLED (settings w)); rewrite ?He; cbv beta iota delta [bind];
      eexists; (split; [reflexivity|]); repeat constructor; assumption.
Qed.

Lemma static_phase_tools (w : World) (request : CodeReviewRequest) :
  Forall2 (fun t r => run_tool w t (sanitize_code (req_code request)) = Return r)
    (static_tools w request)
    (static_phase w request (sanitize_code (req_code request))).
Proof.
  unfold static_tools, static_phase.
  destruct (req_include_static_analysis request); [|constructor]. cbn [andb].
  destruct (temp_file w (sanitize_code (req_code request))) as [[]|e] eqn:T; cbn [returns].
  - destruct (@analyze_code_tools w _ (req_language request) (req_file_name request) T)
      as [results [-> F]]. exact F.
  - unfold analyze_code. rewrite T. constructor.
Qed.

Lemma tools_named (w : World) (code : str) (tools : list Tool)
  (results : list StaticAnalysisResult) :
  Forall2 (fun t r => run_tool w t code = Return r) tools results ->
  map sa_tool results = map tool_field tools.
Proof.
  induction 1 as [|t r ts rs H _ IH]; [reflexivity|].
  simpl. now rewrite IH, (run_tool_named _ _ _ H).
Qed.

(** X13.  The tools behind a response are those enabled for the language
    of the request, each run once and in a fixed order: [tools_used] names
    them, followed by the AI engine when the response has an AI analysis,
    and [static_analysis] is the result of the first of them. *)
Theorem tools_used_by_language (w : World) (h h' : history) (request : CodeReviewRequest)
  (response : CodeReviewResponse) :
  review_code w h request = (Return response, h') ->
  resp_tools_used response
  = map tool_field (static_tools w request)
    ++ match resp_ai_analysis response with Some _ => [lit "ai_engine"] | None => [] end
  /\ match static_tools w request with
     | [] => resp_static_analysis response = None
     | t :: _ =>
         exists r, resp_static_analysis response = Some r
                   /\ run_tool w t (sanitize_code (req_code request)) = Return r
     end
  /\ (req_include_ai_analysis request = false -> resp_ai_analysis response = None).
Proof.
  intros H. apply review_code_inv in H as [_ [_ [_ ->]]].
  cbn [resp_tools_used resp_ai_analysis resp_static_analysis].
  pose proof (static_phase_tools w request) as F.
  split; [|split].
  - unfold tools_used_of. now rewrite (@tools_named _ _ _ _ F).
  - destruct F as [|t r ts rs Hr _]; [reflexivity|]. exists r. now split.
  - intros A. unfold ai_phase. now rewrite A.
Qed.

Lemma tools_used_by_language_witness :
  exists response h',
    review_code offline_world [] python_request = (Return response, h')
    /\ resp_tools_used response = [lit "pylint"; lit "bandit"; lit "ai_engine"].
Proof.
  destruct (review_code offline_world [] python_request) as [[response|e] h'] eqn:E;
    [|vm_compute in E; discriminate].
  exists response, h'. split; [reflexivity|].
  rewrite (proj1 (@tools_used_by_language _ _ _ _ _ E)).
  vm_compute in E. injection E as <- _. reflexivity.
Defined.

Lemma count_by_severity (issues : list CodeIssue) (severity : SeverityLevel) :
  _count_issues_by_severity issues severity = count_severity severity issues.
Proof.
  unfold _count_issues_by_severity, count_severity.
  assert (G : forall n,
             fold_left (fun n issue =>
                          if severity_eqb (issue_severity issue) severity then S n else n)
               issues n
             = (n + length (filter (fun i => severity_eqb (issue_severity i) severity)
                              issues))%nat).
  { induction issues as [|i l IH]; intros n; simpl; [lia|].
    rewrite IH. destruct (severity_eqb _ _); simpl; lia. }
  now rewrite G.
Qed.

Lemma combine_length (static_results : list StaticAnalysisResult)
  (ai_result : option AIAnalysisResult) :
  length (_combine_issues static_results ai_result)
  = (list_sum (map (fun r => length (sa_issues r)) static_results)
     + length (ai_issues_of ai_result))%nat.
Proof.
  unfold _combine_issues.
  assert (G : forall acc,
             length (fold_left (fun acc r => acc ++ sa_issues r) static_results acc)
             = (length acc
                + list_sum (map (fun r => length (sa_issues r)) static_results))%nat).
  { induction static_results as [|r rs IH]; intros acc; simpl; [lia|].
    rewrite IH, length_app. lia. }
  destruct ai_result; simpl; rewrite ?length_app, G; simpl; lia.
Qed.

(** X14.  The counts of a response agree with its parts: the critical
    issues are among the total, the total covers the issues of the static
    result shown and of the AI analysis (the issues of a second static
    tool are counted but not shown), and [security_issues] is the number
    of security concerns of the AI analysis, 0 without one. *)
Theorem response_counts (w : World) (h h' : history) (request : CodeReviewRequest)
  (response : CodeReviewResponse) :
  review_code w h request = (Return response, h') ->
  (resp_critical_issues response <= resp_total_issues response)%nat
  /\ (length (static_issues (resp_static_analysis response))
      + length (ai_issues_of (resp_ai_analysis response))
      <= resp_total_issues response)%nat
  /\ ((length (static_tools w request) <= 1)%nat ->
      resp_total_issues response
      = (length (static_issues (resp_static_analysis response))
         + length (ai_issues_of (resp_ai_analysis response)))%nat)
  /\ resp_security_issues response
     = match resp_ai_analysis response with
       | Some r => length (ai_security_concerns r)
       | None => 0%nat
       end.
Proof.
  intros H. apply review_code_inv in H as [_ [_ [_ ->]]].
  cbn [resp_critical_issues resp_total_issues resp_static_analysis resp_ai_analysis
       resp_security_issues].
  pose proof (Forall2_length (static_phase_tools w request)) as L.
  set (rs := static_phase w request (sanitize_code (req_code request))) in *.
  set (ai := ai_phase w request (sanitize_code (req_code request))).
  rewrite count_by_severity, combine_length.
  split; [|split; [|split]].
  - rewrite <- combine_length. unfold count_severity. apply filter_length_le.
  - destruct rs as [|r rs']; simpl; lia.
  - intros One. rewrite L in One. destruct rs as [|r [|r' rs']]; simpl in *; lia.
  - unfold _extract_security_concerns. now destruct ai.
Qed.

Lemma response_counts_witness :
  exists response h',
    review_code offline_world [] python_request = (Return response, h')
    /\ (resp_critical_issues response <= resp_total_issues response)%nat
    /\ resp_security_issues response = 0%nat.
Proof.
  destruct (review_code offline_world [] python_request) as [[response|e] h'] eqn:E;
    [|vm_compute in E; discriminate].
  exists response, h'. split; [reflexivity|].
  destruct (@response_counts _ _ _ _ _ E) as [C [_ [_ S]]].
  split; [exact C|]. rewrite S.
  vm_compute in E. injection E as <- _. reflexivity.
Defined.

End ResponseProperties.

(* ===================================================================== *)
(** * The endpoints *)
(* ===================================================================== *)
Section RouterProperties.
Import Spec Terms StrFacts ScoreFacts ResponseFacts ReviewPresenter.

Lemma validate_raises_ValueError (w : World) (request : CodeReviewRequest) (e : exn) :
  _validate_review_request w request = Raise e -> exists msg, e = ValueError msg.
Proof.
  unfold _validate_review_request.
  destruct (negb (nonempty (strip (req_code request)))); [intros [= <-]; eauto|].
  destruct (_ <? _)%Z; [intros [= <-]; eauto|discriminate].
Qed.

(** X15.  The review endpoint answers 400 exactly when the validation of
    the presenter rejects the request (blank or oversized code), with the
    message of the validation and the history untouched, and 200 with the
    presenter's response otherwise; it never answers 500.  The batch
    endpoint never answers 400: the [HTTPException] it raises for a batch
    of more than 50 files is an [Exception], which its own last [except]
    clause turns into 500 before a file is reviewed; up to 50 files it
    answers 200.  The refactoring endpoint answers 500 in the same way
    for blank code and 200 otherwise, with the code as it came when
    OpenAI is not configured or its request fails. *)
Theorem endpoint_status_codes (http_str : nat -> str -> str) (w : World) (h : history) :
  (forall request,
     let (answer, h') := ReviewRouter.review_code http_str w h request in
     match _validate_review_request w request with
     | Return _ =>
         exists response,
           answer = ReviewRouter.OK response
           /\ review_code w h request = (Return response, h')
     | Raise e => answer = ReviewRouter.HTTPException 400 (exn_str e) /\ h' = h
     end)
  /\ (forall request,
        let (answer, h') := ReviewRouter.batch_review http_str w h request in
        if (50 <? length (batch_files request))%nat
        then ReviewRouter.status_code_of answer = 500%nat /\ h' = h
        else (answer, h') = (ReviewRouter.OK (fst (batch_review w h request)),
                             snd (batch_review w h request)))
  /\ (forall completion code language improvement_type,
        let answer :=
          ReviewRouter.refactor_code http_str w completion code language improvement_type in
        if nonempty (strip code)
        then exists r,
               answer = ReviewRouter.OK r
               /\ ReviewRouter.original_code r = code
               /\ (AIEngine.openai_client w = false
                   \/ returns (completion code (language_value language) improvement_type)
                      = false ->
                   ReviewRouter.refactored_code r = code)
        else ReviewRouter.status_code_of answer = 500%nat).
Proof.
  split; [|split]; [intros request|intros request|].
  - unfold ReviewRouter.review_code.
    destruct (validate_outcome w request) as [V|[e V]]; rewrite V.
    + destruct (review_code_returns w h request V) as [response [-> _]].
      exists response. now split.
    + rewrite (review_code_raises w h request V).
      destruct (validate_raises_ValueError _ _ V) as [msg ->]. now split.
  - unfold ReviewRouter.batch_review.
    destruct (50 <? length (batch_files request))%nat.
    + now split.
    + now destruct (batch_review w h request).
  - intros completion code language improvement_type. cbv zeta.
    unfold ReviewRouter.refactor_code.
    destruct (nonempty (strip code)); [|reflexivity]. cbn [negb].
    eexists. split; [reflexivity|]. split; [reflexivity|].
    cbn [ReviewRouter.refactored_code]. unfold AIEngine.generate_refactored_code.
    intros [O|C].
    + now rewrite O.
    + destruct (AIEngine.openai_client w); [|reflexivity].
      destruct (completion code (language_value language) improvement_type);
        [discriminate|reflexivity].
Qed.

End RouterProperties.

Section ConfigProperties.
Import Spec Terms AIEngine.

(** X16.  [validate_settings] accepts the settings exactly when the AI
    engine has a provider to ask: with accepted settings [analyze_code]
    sends one request, with rejected settings it sends none and answers
    with the fallback analysis. *)
Theorem validate_settings_iff_provider (w : World) (code language : str)
  (context : option str) :
  match Config.validate_settings (settings w) with
  | Return accepted =>
      accepted = true /\ length (fst (analyze_code w code language context)) = 1%nat
  | Raise e =>
      (exists msg, e = ValueError msg)
      /\ analyze_code w code language context
         = ([], Return (JDict (_get_fallback_suggestions code language)))
  end.
Proof.
  unfold Config.validate_settings, analyze_code, analyze_code_try,
    openai_client, cohere_client, anthropic_client.
  destruct (truthy (OPENAI_API_KEY (settings w)));
    [cbn; now split|].
  destruct (truthy (COHERE_API_KEY (settings w)));
    [cbn; now split|].
  destruct (truthy (ANTHROPIC_API_KEY (settings w)));
    [cbn; now split|].
  cbn. split; [eauto|reflexivity].
Qed.

End ConfigProperties.

(* ===================================================================== *)
(** * The conversion of an AI answer *)
(* ===================================================================== *)
Section ConversionProperties.
Import Spec Terms QFacts StrFacts ScoreFacts ResponseFacts AIEngine ReviewPresenter.
Local Open Scope Q_scope.

Lemma enum_of_value_inv (A : Type) (members : list A) (value : A -> str) (s : str) (m : A) :
  enum_of_value members value s = Return m -> In m members /\ value m = s.
Proof.
  unfold enum_of_value. destruct (find _ members) as [x|] eqn:F; [|discriminate].
  intros [= <-]. apply find_some in F as [F E]. split; [exact F|now apply str_eqb_eq].
Qed.

(** X17.  The enumerations are read by exact value: the value of a member
    is read back as that member, a text is accepted only when it is the
    value of a member letter by letter, and every language of
    [GET /languages] is accepted. *)
Theorem enum_round_trip :
  (forall l, language_of_str (language_value l) = Return l)
  /\ (forall s, severity_of_str (severity_value s) = Return s)
  /\ (forall t, issue_type_of_str (issue_type_value t) = Return t)
  /\ (forall text l, language_of_str text = Return l -> text = language_value l)
  /\ (forall text s, severity_of_str text = Return s -> text = severity_value s)
  /\ (forall text t, issue_type_of_str text = Return t -> text = issue_type_value t)
  /\ Forall (fun text => returns (language_of_str text) = true)
       ReviewRouter.get_supported_languages.
Proof.
  repeat split.
  - intros []; reflexivity.
  - intros []; reflexivity.
  - intros []; reflexivity.
  - intros text l H. now apply enum_of_value_inv in H as [_ <-].
  - intros text s H. now apply enum_of_value_inv in H as [_ <-].
  - intros text t H. now apply enum_of_value_inv in H as [_ <-].
  - repeat constructor.
Qed.

Lemma enum_round_trip_witness :
  severity_of_str (lit "high") = Return HIGH
  /\ returns (severity_of_str (lit "High")) = false
  /\ forall s, severity_of_str (lit "high") = Return s -> lit "high" = severity_value s.
Proof.
  split; [reflexivity|]. split; [reflexivity|].
  intros s H.
  exact (proj1 (proj2 (proj2 (proj2 (proj2 enum_round_trip)))) (lit "high") s H).
Defined.

Lemma mapM_raises (A B : Type) (f : A -> result B) (xs : list A) (x : A) :
  In x xs -> returns (f x) = false -> returns (mapM f xs) = false.
Proof.
  intros Hx Hf. induction xs as [|y ys IH]; [destruct Hx|].
  cbn [mapM]. destruct Hx as [->|Hx].
  - destruct (f x); [discriminate|reflexivity].
  - destruct (f y); [|reflexivity]. cbn [bind].
    specialize (IH Hx). destruct (mapM f ys); [discriminate|reflexivity].
Qed.

Lemma unknown_severity (text : str) :
  (forall s, text <> severity_value s) -> returns (severity_of_str text) = false.
Proof.
  intros H. destruct (severity_of_str text) as [s|e] eqn:E; [|reflexivity].
  apply enum_of_value_inv in E as [_ E]. now destruct (H s).
Qed.

Lemma unknown_issue_type (text : str) :
  (forall t, text <> issue_type_value t) -> returns (issue_type_of_str text) = false.
Proof.
  intros H. destruct (issue_type_of_str text) as [t|e] eqn:E; [|reflexivity].
  apply enum_of_value_inv in E as [_ E]. now destruct (H t).
Qed.

(** X18.  One issue with a severity or a type that is not the value of a
    member, letter by letter, costs the whole AI analysis: the conversion
    raises, and the review goes on without an AI result. *)
Theorem unknown_enum_drops_ai_analysis (w : World) (request : CodeReviewRequest)
  (code : str) (d : AIData) (issue : IssueData) (text : str) :
  snd (analyze_code w code (language_value (req_language request)) (req_context request))
  = Return (JDict d) ->
  In issue (get_or (ad_issues d) []) ->
  (id_severity issue = Some text /\ forall s, text <> severity_value s)
  \/ (id_type issue = Some text /\ forall t, text <> issue_type_value t) ->
  returns (_convert_ai_analysis (JDict d)) = false
  /\ ai_phase w request code = None.
Proof.
  intros A I U.
  assert (C : returns (_convert_ai_issue issue) = false).
  { unfold _convert_ai_issue. destruct U as [[-> U]|[-> U]]; cbn [get_or StaticAnalyzer.get_or].
    - destruct (issue_type_of_str _); [|reflexivity]. cbn [bind].
      pose proof (unknown_severity U) as R.
      destruct (severity_of_str text); [discriminate|reflexivity].
    - pose proof (unknown_issue_type U) as R.
      destruct (issue_type_of_str text); [discriminate|reflexivity]. }
  assert (R : returns (_convert_ai_analysis (JDict d)) = false).
  { cbn [_convert_ai_analysis].
    pose proof (mapM_raises _convert_ai_issue _ _ I C) as M.
    destruct (mapM _convert_ai_issue _); [discriminate|reflexivity]. }
  split; [exact R|].
  unfold ai_phase. destruct (req_include_ai_analysis request); [|reflexivity].
  rewrite A. cbn [bind].
  destruct (_convert_ai_analysis (JDict d)); [discriminate|reflexivity].
Qed.

Lemma unknown_enum_drops_ai_analysis_witness :
  snd (analyze_code capitalized_world (lit "print(1)") (lit "python") None)
  = Return (JDict capitalized_answer)
  /\ ai_phase capitalized_world python_request (lit "print(1)") = None.
Proof.
  assert (A : snd (analyze_code capitalized_world (lit "print(1)")
                     (language_value (req_language python_request))
                     (req_context python_request))
              = Return (JDict capitalized_answer)) by reflexivity.
  split; [exact A|].
  apply (@unknown_enum_drops_ai_analysis capitalized_world python_request (lit "print(1)")
           capitalized_answer capitalized_issue (lit "High") A).
  - now left.
  - left. split; [reflexivity|]. intros []; discriminate.
Defined.

End ConversionProperties.

Section HeuristicProperties.
Import Spec Terms QFacts StrFacts ScoreFacts ResponseFacts AIEngine ReviewPresenter.
Local Open Scope Q_scope.

Lemma mapM_all (A B : Type) (f : A -> result B) (g : A -> B) (xs : list A) :
  Forall (fun x => f x = Return (g x)) xs -> mapM f xs = Return (map g xs).
Proof.
  induction 1 as [|x xs Hx _ IH]; [reflexivity|].
  cbn [mapM map]. now rewrite Hx, IH.
Qed.

(** What the line scan of the text extractor collects is made of its
    fixed dictionaries. *)
Lemma scan_line_fixed (content : str) (acc : findings) (line : str) :
  Forall (eq recursive_fibonacci_issue) (f_issues acc)
  /\ Forall (eq iterative_suggestion) (f_suggestions acc)
  /\ Forall (eq (input_validation_concern
                   "No validation for negative numbers or large inputs"
                   "Add input validation and limits")) (f_security_concerns acc) ->
  let acc' := scan_line content acc line in
  Forall (eq recursive_fibonacci_issue) (f_issues acc')
  /\ Forall (eq iterative_suggestion) (f_suggestions acc')
  /\ Forall (eq (input_validation_concern
                   "No validation for negative numbers or large inputs"
                   "Add input validation and limits")) (f_security_concerns acc').
Proof.
  intros [H1 [H2 H3]]. cbv zeta. unfold scan_line.
  destruct (negb (nonempty (strip line))); [now repeat split|].
  repeat match goal with |- context [if ?c then _ else _] => destruct c end;
    cbn [f_issues f_suggestions f_security_concerns];
    repeat split; try assumption;
    apply Forall_app; (split; [assumption|repeat constructor]).
Qed.

Lemma text_findings_fixed (content : str) :
  Forall (eq recursive_fibonacci_issue) (f_issues (text_findings content))
  /\ Forall (eq iterative_suggestion) (f_suggestions (text_findings content))
  /\ Forall (eq (input_validation_concern
                   "No validation for negative numbers or large inputs"
                   "Add input validation and limits"))
       (f_security_concerns (text_findings content)).
Proof.
  unfold text_findings.
  assert (G : forall lines acc,
             Forall (eq recursive_fibonacci_issue) (f_issues acc)
             /\ Forall (eq iterative_suggestion) (f_suggestions acc)
             /\ Forall (eq (input_validation_concern
                              "No validation for negative numbers or large inputs"
                              "Add input validation and limits"))
                  (f_security_concerns acc) ->
             let acc' := fold_left (scan_line content) lines acc in
             Forall (eq recursive_fibonacci_issue) (f_issues acc')
             /\ Forall (eq iterative_suggestion) (f_suggestions acc')
             /\ Forall (eq (input_validation_concern
                              "No validation for negative numbers or large inputs"
                              "Add input validation and limits"))
                  (f_security_concerns acc')).
  { induction lines as [|l lines IH]; intros acc H; [exact H|].
    cbn [fold_left]. apply IH. now apply scan_line_fixed. }
  apply G. repeat split; constructor.
Qed.

Lemma text_score_in_range (content : str) : in_range (text_score content) = true.
Proof. unfold text_score. now destruct (_ && _). Qed.

(** The suggestion a dictionary of the heuristic analyzers becomes. *)
Lemma heuristic_suggestion_converts (s : SuggestionData) :
  sd_refactored_code s = None -> sd_confidence s = None ->
  exists c, _convert_ai_suggestion s = Return c /\ sugg_refactored_code c = None.
Proof.
  intros R C. unfold _convert_ai_suggestion. rewrite R, C.
  eexists. split; reflexivity.
Qed.

Lemma fixed_issue_converts :
  exists i, _convert_ai_issue recursive_fibonacci_issue = Return i.
Proof. eexists. reflexivity. Qed.

Lemma fixed_concern_converts :
  exists k,
    _convert_security_concern
      (input_validation_concern "No validation for negative numbers or large inputs"
         "Add input validation and limits") = Return k.
Proof. eexists. reflexivity. Qed.


End HeuristicProperties.

(* ===================================================================== *)
(** * Ratings *)
(* ===================================================================== *)
Section RatingProperties.
Import Terms QFacts CodeUtils.
Local Open Scope Q_scope.

Lemma Qleb_gt (a b : Q) : Qleb a b = false <-> b < a.
Proof.
  rewrite <- not_true_iff_false, Qleb_le. split; [apply Qnot_le_lt|apply Qlt_not_le].
Qed.

Lemma rank_of_score (score : Q) :
  rating_rank (format_code_score score)
  = if Qleb 9 score then 4%nat
    else if Qleb 7 score then 3%nat
    else if Qleb 5 score then 2%nat
    else if Qleb 3 score then 1%nat
    else 0%nat.
Proof. unfold format_code_score. repeat destruct (Qleb _ score); reflexivity. Qed.

Ltac thresholds :=
  repeat match goal with
         | |- context [Qleb ?a ?b] =>
             let E := fresh "E" in
             destruct (Qleb a b) eqn:E; [apply Qleb_le in E|apply Qleb_gt in E]
         end.

(** X20.  [format_code_score] is monotone: a higher score never gets a
    lower rating; the best rating starts at 9 and the worst ends below
    3. *)
Theorem rating_monotone (score score' : Q) :
  score <= score' ->
  (rating_rank (format_code_score score) <= rating_rank (format_code_score score'))%nat
  /\ (rating_rank (format_code_score score) = 4%nat <-> 9 <= score)
  /\ (rating_rank (format_code_score score) = 0%nat <-> score < 3).
Proof.
  intros H. rewrite !rank_of_score. thresholds;
    (split; [try lia; exfalso; lra|]);
    (split; split; intros X; first [discriminate X|reflexivity|lra]).
Qed.

Lemma rating_monotone_witness :
  format_code_score 4.2 = lit "Poor" /\ format_code_score 8.5 = lit "Good"
  /\ (rating_rank (format_code_score 4.2) <= rating_rank (format_code_score 8.5))%nat.
Proof.
  split; [reflexivity|]. split; [reflexivity|].
  apply (@rating_monotone 4.2 8.5). lra.
Defined.

End RatingProperties.

Section TextReportProperties.
Import Spec Terms QFacts RunnerFacts StaticAnalyzer.
Local Open Scope Q_scope.

Lemma pylint_text_issues (output : str) :
  Forall (read_from_text (lit "pylint")) (_parse_pylint_text_output output).
Proof.
  unfold _parse_pylint_text_output. apply Forall_flat_map, Forall_forall. intros line _.
  destruct (_ && _); [|constructor].
  destruct (splitn ":"%char 3 line) as [|p0 [|p1 [|p2 [|p3 [|p4 ps]]]]]; try constructor.
  destruct (py_int p1); repeat constructor.
Qed.

Lemma eslint_text_issues (output : str) :
  Forall (read_from_text (lit "eslint")) (_parse_eslint_text_output output).
Proof.
  unfold _parse_eslint_text_output. apply Forall_flat_map, Forall_forall. intros line _.
  destruct (_ && _); [|constructor].
  destruct (splitn ":"%char 3 line) as [|p0 [|p1 [|p2 [|p3 [|p4 ps]]]]]; try constructor.
  destruct (py_int p1); repeat constructor.
Qed.

Lemma bandit_text_issues (output : str) :
  Forall (read_from_text (lit "bandit")) (_parse_bandit_text_output output).
Proof.
  unfold _parse_bandit_text_output. apply Forall_flat_map, Forall_forall. intros line _.
  destruct (after_first _ line); repeat constructor.
Qed.

(** X21.  When a tool prints a report that is not JSON, the runner takes
    the issues of its text parser and leaves the score at 10.0, however
    many issues are read; each of them carries the name of the tool, its
    message as the suggestion, and neither a rule nor a column. *)
Theorem text_report_keeps_score (w : World) (t : Tool) (file_path : str)
  (issues : list CodeIssue) :
  prints_text w t file_path issues ->
  exists r,
    run_tool w t file_path = Return r
    /\ sa_score r = 10
    /\ sa_issues r = issues
    /\ Forall (read_from_text (tool_field t)) issues.
Proof.
  intros H. destruct (run_tool_text H) as [r [R [S I]]].
  exists r. repeat split; try assumption.
  destruct H as [stdout [_ [_ H]]].
  destruct t; destruct H as [_ ->];
    [apply pylint_text_issues|apply eslint_text_issues|apply bandit_text_issues].
Qed.

Lemma text_report_keeps_score_witness :
  prints_text text_report_world Pylint (lit "a.py")
    (_parse_pylint_text_output (lit "a.py:2: warning : Unused import os"))
  /\ exists r,
       run_tool text_report_world Pylint (lit "a.py") = Return r
       /\ sa_score r = 10
       /\ length (sa_issues r) = 1%nat.
Proof.
  assert (P : prints_text text_report_world Pylint (lit "a.py")
                (_parse_pylint_text_output (lit "a.py:2: warning : Unused import os"))).
  { eexists. repeat split. }
  split; [exact P|].
  destruct (text_report_keeps_score P) as [r [R [S [I _]]]].
  exists r. repeat split; try assumption. rewrite I. reflexivity.
Defined.

End TextReportProperties.

(* ===================================================================== *)
(** * The metrics of a text *)
(* ===================================================================== *)
Section MetricsProperties.
Import Terms QFacts StrFacts CodeUtils.
Local Open Scope Q_scope.

Lemma count_char (c : ascii) (s : str) :
  count [c] s = length (filter (chr_eqb c) s).
Proof.
  unfold count. induction s as [|x s IH]; [reflexivity|].
  cbn [count_acc startswith length Nat.sub filter]. rewrite andb_true_r.
  destruct (chr_eqb c x); cbn [length]; now rewrite IH.
Qed.

Lemma split_acc_length (sep : ascii) (cur s : str) :
  length (split_acc sep cur s) = S (length (filter (chr_eqb sep) s)).
Proof.
  revert cur. induction s as [|x s IH]; intros cur; [reflexivity|].
  cbn [split_acc filter].
  assert (E : chr_eqb x sep = chr_eqb sep x).
  { destruct (chr_eqb sep x) eqn:A.
    - apply chr_eqb_eq in A. subst. apply chr_eqb_refl.
    - apply chr_eqb_neq. apply chr_eqb_neq in A. congruence. }
  rewrite E. destruct (chr_eqb sep x); cbn [length]; now rewrite IH.
Qed.

Lemma split_acc_sizes (sep : ascii) (cur s : str) :
  (list_sum (map (@length ascii) (split_acc sep cur s))
   + length (filter (chr_eqb sep) s) = length cur + length s)%nat.
Proof.
  revert cur. induction s as [|x s IH]; intros cur.
  - simpl. lia.
  - cbn [split_acc filter].
    assert (E : chr_eqb x sep = chr_eqb sep x).
    { destruct (chr_eqb sep x) eqn:A.
      - apply chr_eqb_eq in A. subst. apply chr_eqb_refl.
      - apply chr_eqb_neq. apply chr_eqb_neq in A. congruence. }
    rewrite E. destruct (chr_eqb sep x).
    + specialize (IH []). simpl in *. lia.
    + specialize (IH (cur ++ [x])). rewrite length_app in IH. simpl in *. lia.
Qed.

Lemma filter_split (A : Type) (f : A -> bool) (l : list A) :
  (length (filter f l) + length (filter (fun x => negb (f x)) l) = length l)%nat.
Proof.
  induction l as [|x l IH]; [reflexivity|]. simpl.
  destruct (f x); simpl; lia.
Qed.

Lemma filter_le (A : Type) (f g : A -> bool) (l : list A) :
  (forall x, f x = true -> g x = true) ->
  (length (filter f l) <= length (filter g l))%nat.
Proof.
  intros H. induction l as [|x l IH]; [reflexivity|]. simpl.
  destruct (f x) eqn:F.
  - rewrite (H x F). simpl. lia.
  - destruct (g x); simpl; lia.
Qed.

Lemma sum_le_max (l : list nat) : (list_sum l <= length l * list_max l)%nat.
Proof.
  induction l as [|x l IH]; [reflexivity|].
  change (list_sum (x :: l)) with (x + list_sum l)%nat.
  change (list_max (x :: l)) with (Nat.max x (list_max l)).
  cbn [length].
  assert (A : (x <= Nat.max x (list_max l))%nat) by lia.
  assert (B : (list_max l <= Nat.max x (list_max l))%nat) by lia.
  revert A B. generalize (Nat.max x (list_max l)). intros m A B. nia.
Qed.

Lemma max_le_sum (l : list nat) : (list_max l <= list_sum l)%nat.
Proof.
  induction l as [|x l IH]; [reflexivity|].
  change (list_sum (x :: l)) with (x + list_sum l)%nat.
  change (list_max (x :: l)) with (Nat.max x (list_max l)). lia.
Qed.


End MetricsProperties.

Section UnanalyzedReview.
Import Spec Terms QFacts StrFacts ScoreFacts ResponseFacts AIEngine ReviewPresenter CodeUtils.
Local Open Scope Q_scope.

Lemma fallback_finds_nothing (code : str) (language : ProgrammingLanguage) :
  language <> PYTHON ->
  _get_fallback_suggestions code (language_value language)
  = {| ad_score := Some 8; ad_issues := Some []; ad_suggestions := Some [];
       ad_security_concerns := Some []; ad_performance_notes := Some [];
       ad_readability_score := Some 7; ad_maintainability_score := Some 6;
       ad_summary :=
         Some (lit "Code analysis completed with specific suggestions for improvement.");
       ad_raw_response := Some (lit "Fallback analysis") |}.
Proof.
  intros N. unfold _get_fallback_suggestions, fallback_recursion, fallback_input.
  assert (E : str_eqb (lower (language_value language)) (lit "python") = false)
    by (destruct language; try reflexivity; congruence).
  rewrite E. reflexivity.
Qed.

(** X23.  A review that nothing can analyze is a constant: for a language
    without a static tool, and with no provider configured or none that
    answers, every request that passes the validation gets the overall
    score 6.2 (the neutral 5.0 of the static part and the 8 of the
    fallback analysis), no issue, and the AI engine as its only tool. *)
Theorem unanalyzed_review_is_constant (w : World) (h : history)
  (request : CodeReviewRequest) :
  _validate_review_request w request = Return tt ->
  req_include_ai_analysis request = true ->
  req_language request <> PYTHON ->
  enabled_tools (settings w) (req_language request) = [] ->
  configured w = []
  \/ (forall p, In p (configured w) ->
                returns (provider_call w p (sanitize_code (req_code request))
                           (language_value (req_language request)) (req_context request))
                = false) ->
  exists response,
    fst (review_code w h request) = Return response
    /\ resp_overall_score response == 6.2
    /\ resp_total_issues response = 0%nat
    /\ resp_static_analysis response = None
    /\ resp_tools_used response = [lit "ai_engine"]
    /\ resp_summary response
       = lit "Code quality is good with minor improvements needed.".
Proof.
  intros V A N T P.
  destruct (review_code_returns w h request V) as [response [R _]].
  exists response. split; [now rewrite R|].
  apply review_code_inv in R as [_ [_ [_ ->]]].
  pose proof (static_phase_tools w request) as F.
  assert (S : static_tools w request = []).
  { unfold static_tools. rewrite T. now destruct (_ && _). }
  rewrite S in F. inversion F as [E|]; clear F.
  assert (AI : exists r,
             ai_phase w request (sanitize_code (req_code request)) = Some r
             /\ ai_score r = 8 /\ ai_issues r = [] /\ ai_suggestions r = []).
  { unfold ai_phase. rewrite A.
    destruct (analyze_code_first w (sanitize_code (req_code request))
                (language_value (req_language request)) (req_context request))
      as [_ ->].
    assert (K : match configured w with
                | [] => Return (JDict (_get_fallback_suggestions
                                         (sanitize_code (req_code request))
                                         (language_value (req_language request))))
                | p :: _ =>
                    match provider_call w p (sanitize_code (req_code request))
                            (language_value (req_language request)) (req_context request)
                    with
                    | Return content => Return (recover w p content)
                    | Raise _ =>
                        Return (JDict (_get_fallback_suggestions
                                         (sanitize_code (req_code request))
                                         (language_value (req_language request))))
                    end
                end
                = Return (JDict (_get_fallback_suggestions
                                   (sanitize_code (req_code request))
                                   (language_value (req_language request))))).
    { destruct (configured w) as [|p ps]; [reflexivity|].
      destruct P as [P|P]; [discriminate|].
      specialize (P p (or_introl eq_refl)).
      destruct (provider_call w p _ _ _); [discriminate|reflexivity]. }
    rewrite K, (fallback_finds_nothing _ N). cbn [bind].
    eexists. split; [reflexivity|]. repeat split. }
  destruct AI as [r [-> [S8 [I0 G0]]]].
  cbn [resp_overall_score resp_total_issues resp_static_analysis resp_tools_used
       resp_summary hd_error].
  unfold overall_score_of, tools_used_of, _combine_issues, _extract_suggestions.
  rewrite S8, I0, G0. cbn [map fold_left app length].
  repeat split; reflexivity.
Qed.

Lemma unanalyzed_review_is_constant_witness :
  exists response,
    fst (review_code offline_world [] go_request) = Return response
    /\ resp_overall_score response == 6.2
    /\ resp_tools_used response = [lit "ai_engine"].
Proof.
  assert (V : _validate_review_request offline_world go_request = Return tt)
    by (vm_compute; reflexivity).
  assert (N : req_language go_request <> PYTHON) by discriminate.
  destruct (@unanalyzed_review_is_constant offline_world [] go_request V eq_refl N eq_refl
              (or_introl eq_refl))
    as [response [R [S [_ [_ [T _]]]]]].
  exists response. now repeat split.
Defined.

End UnanalyzedReview.

(* ===================================================================== *)
(** * What leaves the presenter *)
(* ===================================================================== *)
Section SanitizedOnly.
Import Spec Terms QFacts StrFacts SubFacts ScoreFacts ResponseFacts ReviewPresenter CodeUtils.
Local Open Scope Q_scope.

Variables w w' : World.
Hypothesis same : same_on_clean w w'.

Lemma same_settings : settings w = settings w'.
Proof. exact (proj1 same). Qed.

Lemma same_static (code : str) (language : ProgrammingLanguage) (file_name : option str) :
  clean code ->
  StaticAnalyzer.analyze_code w code language file_name
  = StaticAnalyzer.analyze_code w' code language file_name.
Proof.
  intros C. destruct same as [S [L1 [L2 [L3 [_ H]]]]].
  destruct (H code C) as [T [R _]].
  unfold StaticAnalyzer.analyze_code, StaticAnalyzer._run_pylint, StaticAnalyzer._run_bandit,
    StaticAnalyzer._run_eslint, StaticAnalyzer._run_pylint_try,
    StaticAnalyzer._run_bandit_try, StaticAnalyzer._run_eslint_try.
  rewrite T, S, !R.
  destruct (temp_file w' code); [|reflexivity]. cbn [bind].
  destruct language; try reflexivity.
  - destruct (subprocess_run w' Pylint code) as [o1|e1],
             (subprocess_run w' Bandit code) as [o2|e2];
      cbn [bind]; rewrite ?L1, ?L3; reflexivity.
  - destruct (subprocess_run w' Eslint code) as [o1|e1]; cbn [bind]; rewrite ?L2; reflexivity.
  - destruct (subprocess_run w' Eslint code) as [o1|e1]; cbn [bind]; rewrite ?L2; reflexivity.
Qed.

Lemma same_text_response (content : str) :
  AIEngine._parse_text_response w content = AIEngine._parse_text_response w' content.
Proof.
  destruct same as [_ [_ [_ [_ [L _]]]]].
  unfold AIEngine._parse_text_response, AIEngine.embedded_json.
  destruct (Re.search _ content); [now rewrite L|reflexivity].
Qed.

Lemma same_ai (code language : str) (context : option str) :
  clean code ->
  AIEngine.analyze_code w code language context
  = AIEngine.analyze_code w' code language context.
Proof.
  intros C. destruct same as [S [_ [_ [_ [L H]]]]].
  destruct (H code C) as [_ [_ P]].
  unfold AIEngine.analyze_code, AIEngine.analyze_code_try, AIEngine.openai_client,
    AIEngine.cohere_client, AIEngine.anthropic_client, AIEngine._analyze_with_openai,
    AIEngine._analyze_with_cohere, AIEngine._analyze_with_anthropic.
  rewrite S, !P.
  destruct (truthy (OPENAI_API_KEY (settings w'))).
  { cbn [fst snd]. f_equal.
    destruct (provider_call w' OpenAI code language context); [|reflexivity].
    cbn [bind]. now rewrite L, same_text_response. }
  destruct (truthy (COHERE_API_KEY (settings w'))).
  { cbn [fst snd]. f_equal.
    destruct (provider_call w' Cohere code language context); [|reflexivity].
    cbn [bind]. now rewrite same_text_response. }
  destruct (truthy (ANTHROPIC_API_KEY (settings w'))).
  { cbn [fst snd]. f_equal.
    destruct (provider_call w' Anthropic code language context); [|reflexivity].
    cbn [bind]. now rewrite same_text_response. }
  reflexivity.
Qed.

Lemma sanitized_clean (code : str) : clean (sanitize_code code).
Proof. intros p Hp. apply found_matchless. now apply sanitize_matchless. Qed.

Lemma same_review (h : history) (request : CodeReviewRequest) :
  review_code w h request = review_code w' h request.
Proof.
  unfold review_code, _validate_review_request, static_phase, ai_phase.
  rewrite same_settings.
  rewrite (same_static _ _ (sanitized_clean (req_code request))).
  rewrite (same_ai _ _ (sanitized_clean (req_code request))).
  reflexivity.
Qed.

Lemma same_batch (h : history) (request : BatchReviewRequest) :
  batch_review w h request = batch_review w' h request.
Proof.
  unfold batch_review.
  assert (G : forall files st,
             fold_left (batch_step w request) files st
             = fold_left (batch_step w' request) files st).
  { induction files as [|fd files IH]; intros st; [reflexivity|].
    cbn [fold_left]. rewrite IH. f_equal.
    unfold batch_step. destruct (individual_request request fd); [|reflexivity].
    now rewrite same_review. }
  now rewrite G.
Qed.

End SanitizedOnly.

Section SanitizedOnlyClaim.
Import Spec Terms QFacts StrFacts SubFacts ScoreFacts ResponseFacts ReviewPresenter CodeUtils.


Lemma eavesdropper_hears_nothing : same_on_clean unreachable_world eavesdropping_world.
Proof.
  unfold same_on_clean. do 5 (split; [reflexivity|]).
  intros code C. do 2 (split; [reflexivity|]). intros p language context.
  unfold eavesdropping_world, unreachable_world, with_providers. cbn [provider_call].
  assert (F : Re.found password_pattern code = false).
  { apply C. unfold sensitive_patterns, password_pattern. cbn [In]. tauto. }
  now rewrite F.
Qed.


End SanitizedOnlyClaim.

(* ===================================================================== *)
(** * The model at work on concrete inputs *)
(* ===================================================================== *)
Section Runs.
Import Spec.

Example sanitize_code_run :
  CodeUtils.sanitize_code (lit "API_KEY = 'abc'; token='t0'; n = 1")
  = lit "***REDACTED***; ***REDACTED***; n = 1".
Proof. reflexivity. Qed.

(** An empty literal is not a match: the pattern asks for one character
    between the quotes. *)
Example sanitize_code_empty_literal :
  CodeUtils.sanitize_code (lit "password = ''") = lit "password = ''".
Proof. reflexivity. Qed.

(** The fragment runs from the first opening brace to the last closing
    brace. *)
Example json_like_run :
  Re.search AIEngine.json_like (lit "see {a{b}c} and } done")
  = Some (lit "{a{b}c} and }").
Proof. reflexivity. Qed.

Example py_int_run :
  py_int (lit " 42 ") = Some 42%Z /\ py_int (lit "-1_000") = Some (-1000)%Z
  /\ py_int (lit "4 2") = None /\ py_int (lit "") = None.
Proof. repeat split. Qed.

Example count_run : count (lit "aa") (lit "aaaaa") = 2%nat.
Proof. reflexivity. Qed.

Example pylint_text_run :
  map (fun i => (issue_severity i, issue_line i, issue_message i))
    (StaticAnalyzer._parse_pylint_text_output
       (lit "a.py:3: warning : unused import" ++ AIEngine.nl ++ lit "no issue here"))
  = [(MEDIUM, Some 3%Z, lit "unused import")].
Proof. reflexivity. Qed.

Example bandit_text_run :
  map issue_message
    (StaticAnalyzer._parse_bandit_text_output (lit ">> Issue: [B307] eval >> Issue: x"))
  = [lit "[B307] eval"].
Proof. reflexivity. Qed.

(** A report printed as text: the issue is recovered, the score is 10. *)
Example pylint_text_report_run :
  exists r,
    run_tool text_report_world Pylint (lit "import os") = Return r
    /\ map issue_message (sa_issues r) = [lit "Unused import os"]
    /\ sa_score r = 10%Q.
Proof. eexists. split; [reflexivity|]. split; reflexivity. Qed.

Example generate_summary_run :
  CodeUtils.generate_summary [] [] 5%Q = lit "Code quality needs improvement.".
Proof. reflexivity. Qed.

(** A review without any working analyzer: neutral scores all along. *)
Example review_code_run :
  exists response h,
    ReviewPresenter.review_code offline_world [] python_request = (Return response, h)
    /\ (resp_overall_score response == 6.2)%Q
    /\ resp_tools_used response = [lit "pylint"; lit "bandit"; lit "ai_engine"]
    /\ resp_recommendations response = [lit "Conduct thorough security review"]
    /\ length h = 1%nat.
Proof. eexists. eexists. split; [vm_compute; reflexivity|]. repeat split. Qed.

Example detect_language_run :
  CodeUtils.detect_language_from_filename (lit "src/app.module.TSX") = Some (lit "typescript").
Proof. reflexivity. Qed.

Example complexity_run :
  CodeUtils._calculate_complexity (lit "if x && y: elif a&&b IF_ x||y or OR") = 7%nat.
Proof. reflexivity. Qed.

Example counters_run :
  let code :=
    AIEngine.text
      [lit "def  f (x): pass"; lit "DEF g("; lit "class A: x"; lit "function h(){}";
       lit "foo : function (){}"; lit "import os"; lit "from a import b";
       lit "#include <x>"; lit "public static void main("] in
  (CodeUtils._count_functions code, CodeUtils._count_classes code, CodeUtils._count_imports code)
  = (4%nat, 1%nat, 4%nat)
  /\ CodeUtils.total_lines (CodeUtils.extract_code_metrics code) = 9%nat
  /\ CodeUtils.max_line_length (CodeUtils.extract_code_metrics code) = 24%nat.
Proof. vm_compute. repeat split. Qed.

Example dashboard_run :
  let metrics := ReviewPresenter.get_dashboard_metrics Terms.one_review in
  dash_total_reviews metrics = 1%nat
  /\ dash_language_distribution metrics = [(lit "python", 1%nat)].
Proof. vm_compute. split; reflexivity. Qed.

End Runs.
